(** * libwebvtt: the WebVTT parser of libwebm (webvttparser.cc)

    A shallow embedding of [libwebvtt::Time] and [libwebvtt::Parser],
    and the properties of the parser's specification checked on it.

    Conventions of the embedding.
    - [int] (32 bits) and [presentation_t] ([long long]) values are
      integers of [Z]; where a wider value is stored in an [int] the
      narrowing is written out with [to_int].
    - [char] is [ascii], [std::string] is [string]; [line[idx]] is
      [char_at], which reads the terminating NUL at [idx = length].
    - [std::string::size_type] is [N], [std::string::npos] is [npos].
    - A function with out-parameters returns them next to its status. *)

From Stdlib Require Import ZArith NArith Bool List Ascii String Lia.
Import ListNotations.

#[local] Open Scope Z_scope.

(** ** Machine integers *)

Definition INT_MAX : Z := 2147483647.
Definition INT_MIN : Z := -2147483648.

(** Conversion of an integer value to [int]: the value modulo 2^32 in
    the two's-complement range. *)
Definition to_int (z : Z) : Z :=
  (z + 2147483648) mod 4294967296 - 2147483648.

(** [int] arithmetic.  Signed overflow is undefined in C++; the model
    gives the two's-complement result, and the in-range theorems below
    do not depend on that choice. *)
Definition int_mul (a b : Z) : Z := to_int (a * b).
Definition int_sub (a b : Z) : Z := to_int (a - b).
Definition int_div (a b : Z) : Z := to_int (Z.quot a b).

Definition is_int (z : Z) : Prop := INT_MIN <= z <= INT_MAX.

Definition LLONG_MAX : Z := 9223372036854775807.
Definition LLONG_MIN : Z := -9223372036854775808.

(** ** Time *)

(** Modelled from the spec: [struct Time] is declared in webvttparser.h,
    which is not among the sources.  The data model gives its four
    fields; they are [int], as the code shows, which stores the [int]
    results of [ParseNumber] in them and widens them with
    [presentation_t(...)]. *)
Record Time : Type := mkTime {
  hours : Z;
  minutes : Z;
  seconds : Z;
  milliseconds : Z
}.

Definition Time_zero : Time := mkTime 0 0 0 0.

(** The ranges the data model calls normalized. *)
Definition normalized (t : Time) : Prop :=
  0 <= hours t /\ 0 <= minutes t <= 59 /\ 0 <= seconds t <= 59 /\
  0 <= milliseconds t <= 999.

(** Minutes, seconds and milliseconds in range, whatever the hours. *)
Definition sub_hour_normalized (t : Time) : Prop :=
  0 <= minutes t <= 59 /\ 0 <= seconds t <= 59 /\
  0 <= milliseconds t <= 999.

Definition int_fields (t : Time) : Prop :=
  is_int (hours t) /\ is_int (minutes t) /\ is_int (seconds t) /\
  is_int (milliseconds t).

(** [Time::operator==] *)
Definition Time_eq (lhs rhs : Time) : bool :=
  if negb (hours lhs =? hours rhs) then false
  else if negb (minutes lhs =? minutes rhs) then false
  else if negb (seconds lhs =? seconds rhs) then false
  else milliseconds lhs =? milliseconds rhs.

(** [Time::operator<] *)
Definition Time_lt (lhs rhs : Time) : bool :=
  if hours lhs <? hours rhs then true
  else if hours lhs >? hours rhs then false
  else if minutes lhs <? minutes rhs then true
  else if minutes lhs >? minutes rhs then false
  else if seconds lhs <? seconds rhs then true
  else if seconds lhs >? seconds rhs then false
  else milliseconds lhs <? milliseconds rhs.

(** [Time::operator>], [operator<=], [operator>=] *)
Definition Time_gt (lhs rhs : Time) : bool := Time_lt rhs lhs.
Definition Time_le (lhs rhs : Time) : bool := negb (Time_gt lhs rhs).
Definition Time_ge (lhs rhs : Time) : bool := negb (Time_lt lhs rhs).

(** [presentation_t Time::presentation() const]: computed in
    [long long]; [presentation_in_range] shows that it cannot overflow. *)
Definition presentation (t : Time) : Z :=
  let h := 1000 * 3600 * hours t in
  let m := 1000 * 60 * minutes t in
  let s := 1000 * seconds t in
  h + m + s + milliseconds t.

(** [Time& Time::presentation(presentation_t d)]: the fields are [int],
    so [d / 1000] and [d - 1000 * seconds] are narrowed when stored. *)
Definition presentation_set (d : Z) : Time :=
  if d <? 0 then mkTime 0 0 0 0
  else
    let seconds0 := to_int (Z.quot d 1000) in
    let milliseconds := to_int (d - int_mul 1000 seconds0) in
    let minutes0 := int_div seconds0 60 in
    let seconds := int_sub seconds0 (int_mul 60 minutes0) in
    let hours := int_div minutes0 60 in
    let minutes := int_sub minutes0 (int_mul 60 hours) in
    mkTime hours minutes seconds milliseconds.

(** [Time::operator+=], [operator+], [operator-=] and the difference of
    two times. *)
Definition Time_add_assign (t : Time) (rhs : Z) : Time :=
  let d := presentation t in
  let dd := d + rhs in
  presentation_set dd.

Definition Time_add (t : Time) (d : Z) : Time := Time_add_assign t d.

Definition Time_sub_assign (t : Time) (d : Z) : Time :=
  Time_add_assign t (- d).


(** ** Characters and strings *)

Definition kNUL : ascii := "000"%char.
Definition kSPACE : ascii := " "%char.
Definition kTAB : ascii := "009"%char.
Definition kLF : ascii := "010"%char.
Definition kCR : ascii := "013"%char.

(** [static_cast<unsigned char>(c)] and [static_cast<char>(u)] *)
Definition char_code (c : ascii) : Z := Z.of_N (N_of_ascii c).
Definition char_of_code (u : Z) : ascii := ascii_of_N (Z.to_N u).

(** [isdigit] in the C locale: the decimal digits. *)
Definition isdigit (c : ascii) : bool :=
  (char_code "0" <=? char_code c) && (char_code c <=? char_code "9").

Definition npos : N := 18446744073709551615%N.

Definition strlen (line : string) : N := N.of_nat (String.length line).

Definition empty (line : string) : bool :=
  match line with EmptyString => true | String _ _ => false end.

(** [line[idx]]: the character at [idx], the terminating NUL at
    [idx = line.length()]. *)
Fixpoint char_at (line : string) (idx : N) : ascii :=
  match line with
  | EmptyString => kNUL
  | String c rest => if (idx =? 0)%N then c else char_at rest (N.pred idx)
  end.

(** [line[idx] = c] *)
Fixpoint set_char (line : string) (idx : N) (c : ascii) : string :=
  match line with
  | EmptyString => EmptyString
  | String d rest =>
      if (idx =? 0)%N then String c rest
      else String d (set_char rest (N.pred idx) c)
  end.

(** [line.push_back(c)] *)
Definition push_back (line : string) (c : ascii) : string :=
  (line ++ String c EmptyString)%string.

(** [line.find(pat)], searched from offset [pos] of the whole line. *)
Fixpoint string_find (line pat : string) (pos : N) : N :=
  if String.prefix pat line then pos
  else match line with
       | EmptyString => npos
       | String _ rest => string_find rest pat (pos + 1)%N
       end.

(** ** Loops

    A loop of the source is a fixpoint on a counter that bounds its
    iterations; [None] is the counter running out, which the totality
    lemmas below exclude. *)

Notation "' p <- e ;; k" :=
  (match e with Some p => k | None => None end)
  (at level 61, p pattern, e at next level, right associativity).

(** A bound for the scans of one line: they advance [idx] by one per
    iteration and stop at the terminating NUL. *)
Definition line_fuel (line : string) : nat := S (String.length line).

(** ** Parser::ParseNumber *)

(** The [while (isdigit(line[idx]))] loop; [val] is a [long long], and
    stays below [10 * INT_MAX + 10]. *)
Fixpoint ParseNumber_loop (fuel : nat) (line : string) (idx : N) (val : Z)
  : option (Z * N) :=
  match fuel with
  | O => None
  | S fuel' =>
      if isdigit (char_at line idx) then
        let val := val * 10 in
        let val := val + (char_code (char_at line idx) - char_code "0") in
        if val >? INT_MAX then Some (-1, idx)
        else ParseNumber_loop fuel' line (idx + 1)%N val
      else Some (to_int val, idx)
  end.

(** Returns the [int] result and the final [idx]. *)
Definition ParseNumber (line : string) (idx : N) : option (Z * N) :=
  if (idx =? npos)%N || (strlen line <=? idx)%N then Some (-1, idx)
  else if negb (isdigit (char_at line idx)) then Some (-1, idx)
  else ParseNumber_loop (line_fuel line) line idx 0.

(** ** Parser::ParseTime *)

(** [while (char c = line[idx]) { if (c != kSPACE && c != kTAB) break; ++idx; }] *)
Fixpoint skip_blanks (fuel : nat) (line : string) (idx : N) : option N :=
  match fuel with
  | O => None
  | S fuel' =>
      let c := char_at line idx in
      if (c =? kNUL)%char then Some idx
      else if negb (c =? kSPACE)%char && negb (c =? kTAB)%char then Some idx
      else skip_blanks fuel' line (idx + 1)%N
  end.

(** The milliseconds and the check of the character after the time. *)
Definition ParseTime_millis (line : string) (idx : N) (t : Time)
  : option (Z * N * Time) :=
  ' (e, idx, t) <-
    (if negb (char_at line idx =? ".")%char then
       Some (0, idx, mkTime (hours t) (minutes t) (seconds t) 0)
     else
       let idx := (idx + 1)%N in
       ' (val, idx) <- ParseNumber line idx ;;
       if val <? 0 then Some (val, idx, t)
       else if val >=? 1000 then Some (-1, idx, t)
       else if val <? 10 then
         Some (0, idx, mkTime (hours t) (minutes t) (seconds t) (int_mul val 100))
       else if val <? 100 then
         Some (0, idx, mkTime (hours t) (minutes t) (seconds t) (int_mul val 10))
       else
         Some (0, idx, mkTime (hours t) (minutes t) (seconds t) val)) ;;
  if negb (e =? 0) then Some (e, idx, t)
  else
    let c := char_at line idx in
    if negb (c =? kNUL)%char && negb (c =? kSPACE)%char
       && negb (c =? kTAB)%char
    then Some (-1, idx, t)
    else Some (0, idx, t).

(** [time] is the [Time] the pointer refers to on entry; the result
    holds it as the call leaves it, also on failure. *)
Definition ParseTime (line : string) (idx : N) (time : Time)
  : option (Z * N * Time) :=
  if (idx =? npos)%N || (strlen line <=? idx)%N then Some (-1, idx, time)
  else
    ' idx <- skip_blanks (line_fuel line) line idx ;;
    let t := time in
    ' (val, idx) <- ParseNumber line idx ;;
    if val <? 0 then Some (val, idx, t)
    else if (char_at line idx =? ":")%char then
      let first_val := val in
      let idx := (idx + 1)%N in
      ' (val, idx) <- ParseNumber line idx ;;
      if val <? 0 then Some (val, idx, t)
      else if val >=? 60 then Some (-1, idx, t)
      else if (char_at line idx =? ":")%char then
        let t := mkTime first_val val (seconds t) (milliseconds t) in
        let idx := (idx + 1)%N in
        ' (val, idx) <- ParseNumber line idx ;;
        if val <? 0 then Some (val, idx, t)
        else if val >=? 60 then Some (-1, idx, t)
        else
          let t := mkTime (hours t) (minutes t) val (milliseconds t) in
          ParseTime_millis line idx t
      else
        if first_val >=? 60 then Some (-1, idx, t)
        else
          let t := mkTime 0 first_val val (milliseconds t) in
          ParseTime_millis line idx t
    else
      let seconds0 := val in
      let minutes0 := int_div seconds0 60 in
      let seconds1 := int_sub seconds0 (int_mul minutes0 60) in
      let hours1 := int_div minutes0 60 in
      let minutes1 := int_sub minutes0 (int_mul hours1 60) in
      let t := mkTime hours1 minutes1 seconds1 (milliseconds t) in
      ParseTime_millis line idx t.

(** ** Digit runs *)

(** A string of decimal digits, and the number it denotes after the
    digits already accumulated in [val]. *)
Fixpoint all_digits (ds : string) : bool :=
  match ds with
  | EmptyString => true
  | String c ds' => isdigit c && all_digits ds'
  end.

Fixpoint decimal (val : Z) (ds : string) : Z :=
  match ds with
  | EmptyString => val
  | String c ds' => decimal (val * 10 + (char_code c - char_code "0")) ds'
  end.

(** What bounds a scan of a line: the counter is not zero and covers
    the characters from [idx] to the terminating NUL. *)
Definition covers (fuel : nat) (line : string) (idx : N) : Prop :=
  (0 < fuel)%nat /\ (strlen line + 1 <= N.of_nat fuel + idx)%N.

(** ** Parser::ParseSettings *)

(** Modelled from the spec: [struct Setting] and [struct Cue] are
    declared in webvttparser.h, which is not among the sources; the
    fields are those of the data model, under the names the code uses. *)
Record Setting : Type := mkSetting {
  name : string;
  value : string
}.

Record Cue : Type := mkCue {
  identifier : string;
  start_time : Time;
  stop_time : Time;
  settings : list Setting;
  payload : list string
}.

(** The whitespace before a NAME:VALUE pair; [true] when the scan ends
    on the NUL ([return 0]), [false] on the [break]. *)
Fixpoint settings_blanks (fuel : nat) (line : string) (idx : N)
  : option (bool * N) :=
  match fuel with
  | O => None
  | S fuel' =>
      let c := char_at line idx in
      if (c =? kNUL)%char then Some (true, idx)
      else if negb (c =? kSPACE)%char && negb (c =? kTAB)%char
      then Some (false, idx)
      else settings_blanks fuel' line (idx + 1)%N
  end.

(** The NAME part; [true] on the [break] at the colon, [false] on
    [return -1]. *)
Fixpoint settings_name (fuel : nat) (line : string) (idx : N) (nm : string)
  : option (bool * N * string) :=
  match fuel with
  | O => None
  | S fuel' =>
      let c := char_at line idx in
      if (c =? ":")%char then Some (true, idx, nm)
      else if (c =? kNUL)%char || (c =? kSPACE)%char || (c =? kTAB)%char
      then Some (false, idx, nm)
      else settings_name fuel' line (idx + 1)%N (push_back nm c)
  end.

(** The VALUE part; [true] on the [break], [false] on [return -1]. *)
Fixpoint settings_value (fuel : nat) (line : string) (idx : N) (v : string)
  : option (bool * N * string) :=
  match fuel with
  | O => None
  | S fuel' =>
      let c := char_at line idx in
      if (c =? kNUL)%char || (c =? kSPACE)%char || (c =? kTAB)%char
      then Some (true, idx, v)
      else if (c =? ":")%char then Some (false, idx, v)
      else settings_value fuel' line (idx + 1)%N (push_back v c)
  end.

(** The outer [for (;;)]; [done] are the settings before [settings->back()],
    the setting under construction is appended when the call leaves. *)
Fixpoint ParseSettings_loop (fuel : nat) (line : string) (idx : N)
  (done : list Setting) : option (Z * list Setting) :=
  match fuel with
  | O => None
  | S fuel' =>
      ' (at_nul, idx) <- settings_blanks (line_fuel line) line idx ;;
      if at_nul then Some (0, done)
      else
        ' (ok, idx, nm) <- settings_name (line_fuel line) line idx EmptyString ;;
        if negb ok then Some (-1, done ++ [mkSetting nm EmptyString])
        else if empty nm then Some (-1, done ++ [mkSetting nm EmptyString])
        else
          let idx := (idx + 1)%N in
          ' (ok, idx, v) <- settings_value (line_fuel line) line idx EmptyString ;;
          if negb ok then Some (-1, done ++ [mkSetting nm v])
          else if empty v then Some (-1, done ++ [mkSetting nm v])
          else ParseSettings_loop fuel' line idx (done ++ [mkSetting nm v])
  end.

(** [idx] is passed by value; the result holds the settings vector as the
    call leaves it. *)
Definition ParseSettings (line : string) (idx : N) (old : list Setting)
  : option (Z * list Setting) :=
  if (idx =? npos)%N || (strlen line <=? idx)%N then Some (-1, [])
  else ParseSettings_loop (line_fuel line) line idx [].

(** ** Parser::ParseTimingsLine *)

(** The junk check between the start time and the arrow; [true] when a
    character other than space and tab is met. *)
Fixpoint timings_junk (fuel : nat) (line : string) (idx : N)
  : option (bool * N) :=
  match fuel with
  | O => None
  | S fuel' =>
      let c := char_at line idx in
      if (c =? kNUL)%char then Some (false, idx)
      else if negb (c =? kSPACE)%char && negb (c =? kTAB)%char
      then Some (true, idx)
      else timings_junk fuel' line (idx + 1)%N
  end.

(** The result holds the status and the three out-parameters.  The line
    is changed in place, and [Parse] clears it before its next use. *)
Definition ParseTimingsLine (line : string) (arrow_pos : N)
  (start_time stop_time : Time) (settings : list Setting)
  : option (Z * Time * Time * list Setting) :=
  if (arrow_pos =? npos)%N || (strlen line <=? arrow_pos)%N
  then Some (-1, start_time, stop_time, settings)
  else
    let line := set_char line arrow_pos kNUL in
    let idx := 0%N in
    ' (e, idx, start_time) <- ParseTime line idx start_time ;;
    if negb (e =? 0) then Some (e, start_time, stop_time, settings)
    else
      ' (junk, idx) <- timings_junk (line_fuel line) line idx ;;
      if junk then Some (-1, start_time, stop_time, settings)
      else
        let line := push_back line kNUL in
        let idx := (arrow_pos + 3)%N in
        ' (e, idx, stop_time) <- ParseTime line idx stop_time ;;
        if negb (e =? 0) then Some (e, start_time, stop_time, settings)
        else
          ' (e, settings) <- ParseSettings line idx settings ;;
          if negb (e =? 0) then Some (e, start_time, stop_time, settings)
          else Some (0, start_time, stop_time, settings).

(** ** The character source and the parser state *)

(** Modelled from the spec: [Reader] is the abstract character source,
    declared in webvttparser.h and implemented outside the parser.  A
    reader is the script of what its successive [GetChar] calls deliver:
    a character (status 0), the end of the stream (a positive status) or
    an error (a negative status).  A script that has run out reports the
    end of the stream from then on. *)
Inductive outcome : Type :=
  | Got (c : ascii)
  | Eof (code : positive)
  | Failure (code : positive).

Definition Reader : Type := list outcome.

(** [Reader::GetChar(char* c)]: status, character (meaningful for
    status 0 only) and the reader afterwards. *)
Definition Reader_GetChar (r : Reader) : Z * ascii * Reader :=
  match r with
  | [] => (1, kNUL, [])
  | Got c :: r' => (0, c, r')
  | Eof k :: r' => (Z.pos k, kNUL, r')
  | Failure k :: r' => (Z.neg k, kNUL, r')
  end.

(** The members of [Parser]: the reader and the pushback slot
    [unget_], an [int] that is -1 when the slot is empty. *)
Record Parser : Type := mkParser {
  reader_ : Reader;
  unget_ : Z
}.

(** [Parser::Parser(Reader* r)] *)
Definition Parser_new (r : Reader) : Parser := mkParser r (-1).

(** [Parser::GetChar] *)
Definition GetChar (p : Parser) : Z * ascii * Parser :=
  if unget_ p >=? 0 then
    (0, char_of_code (unget_ p), mkParser (reader_ p) (-1))
  else
    let '(e, c, r) := Reader_GetChar (reader_ p) in
    (e, c, mkParser r (unget_ p)).

(** [Parser::UngetChar] *)
Definition UngetChar (c : ascii) (p : Parser) : Parser :=
  mkParser (reader_ p) (char_code c).

(** ** Parser::ParseBOM *)

Definition BOM : list ascii := ["239"%char; "187"%char; "191"%char].

(** The [for (int i = 0; i < 3; ++i)] loop over the bytes of [BOM]
    from [BOM[i]] on. *)
Fixpoint ParseBOM_loop (bom : list ascii) (i : Z) (p : Parser)
  : Z * Parser :=
  match bom with
  | [] => (0, p)
  | b :: bom' =>
      let '(e, c, p) := GetChar p in
      if e <? 0 then (e, p)
      else if e >? 0 then (1, p)
      else if negb (c =? b)%char then
        if i =? 0 then (0, UngetChar c p)
        else (-1, p)
      else ParseBOM_loop bom' (i + 1) p
  end.

Definition ParseBOM (p : Parser) : Z * Parser := ParseBOM_loop BOM 0 p.

(** ** Parser::ParseLineTerminator and Parser::ParseLine *)

Definition ParseLineTerminator (c : ascii) (p : Parser) : Z * Parser :=
  if (c =? kLF)%char then (0, p)
  else if negb (c =? kCR)%char then (-1, p)
  else
    let '(e, c, p) := GetChar p in
    if e <? 0 then (e, p)
    else if e >? 0 then (0, p)
    else if (c =? kLF)%char then (0, p)
    else (0, UngetChar c p).

(** A bound for the loops that read the source: each iteration takes the
    pushed-back character or one outcome of the script. *)
Definition read_fuel (p : Parser) : nat := S (S (List.length (reader_ p))).

Fixpoint ParseLine_loop (fuel : nat) (p : Parser) (line : string)
  : option (Z * string * Parser) :=
  match fuel with
  | O => None
  | S fuel' =>
      let '(e, c, p) := GetChar p in
      if e <? 0 then Some (e, line, p)
      else if e >? 0 then Some (if empty line then 1 else 0, line, p)
      else if (c =? kLF)%char || (c =? kCR)%char then
        let '(e, p) := ParseLineTerminator c p in
        if e <? 0 then Some (e, line, p)
        else Some (0, line, p)
      else ParseLine_loop fuel' p (push_back line c)
  end.

(** The line on entry is cleared, so only the line on exit appears. *)
Definition ParseLine (p : Parser) : option (Z * string * Parser) :=
  ParseLine_loop (read_fuel p) p EmptyString.

(** ** Parser::Init *)

(** The [while] loop over the characters of [idstr]; status 0 is the
    loop running to its end, any other status is the value [Init]
    returns. *)
Fixpoint Init_signature (idstr : list ascii) (p : Parser) : Z * Parser :=
  match idstr with
  | [] => (0, p)
  | x :: idstr' =>
      let '(e, c, p) := GetChar p in
      if e <? 0 then (e, p)
      else if e >? 0 then (-1, p)
      else if negb (c =? x)%char then (-1, p)
      else Init_signature idstr' p
  end.

Definition Init (p : Parser) : option (Z * Parser) :=
  let '(e, p) := ParseBOM p in
  if e <? 0 then Some (e, p)
  else if e >? 0 then Some (-1, p)
  else
    let '(e, p) := Init_signature (list_ascii_of_string "WEBVTT") p in
    if negb (e =? 0) then Some (e, p)
    else
      ' (e, line, p) <- ParseLine p ;;
      if e <? 0 then Some (e, p)
      else if e >? 0 then Some (0, p)
      else if negb (empty line)
              && (let c := char_at line 0 in
                  negb (c =? kSPACE)%char && negb (c =? kTAB)%char)
      then Some (-1, p)
      else
        ' (e, line, p) <- ParseLine p ;;
        if e <? 0 then Some (e, p)
        else if e >? 0 then Some (0, p)
        else if negb (empty line) then Some (-1, p)
        else Some (0, p).

(** ** Parser::Parse *)

(** The first [for (;;)]: the first non-blank line, or the status that
    ends the call. *)
Fixpoint Parse_first_line (fuel : nat) (p : Parser)
  : option (Z * string * Parser) :=
  match fuel with
  | O => None
  | S fuel' =>
      ' (e, line, p) <- ParseLine p ;;
      if negb (e =? 0) then Some (e, line, p)
      else if negb (empty line) then Some (0, line, p)
      else Parse_first_line fuel' p
  end.

(** The payload [for (;;)]: a negative status is [return e], status 0
    is the [break]; [pl] is the payload vector. *)
Fixpoint Parse_payload (fuel : nat) (p : Parser) (pl : list string)
  : option (Z * list string * Parser) :=
  match fuel with
  | O => None
  | S fuel' =>
      ' (e, line, p) <- ParseLine p ;;
      if e <? 0 then Some (e, pl, p)
      else if empty line then Some (0, pl, p)
      else Parse_payload fuel' p (pl ++ [line])
  end.

(** [Parse] from the call of [ParseTimingsLine] on. *)
Definition Parse_timings (cue : Cue) (line : string) (off : N) (p : Parser)
  : option (Z * Cue * Parser) :=
  ' (e, st, sp, ss) <-
    ParseTimingsLine line off (start_time cue) (stop_time cue) (settings cue) ;;
  let cue := mkCue (identifier cue) st sp ss (payload cue) in
  if negb (e =? 0) then Some (e, cue, p)
  else
    ' (e, pl, p) <- Parse_payload (read_fuel p) p [] ;;
    let cue :=
      mkCue (identifier cue) (start_time cue) (stop_time cue) (settings cue) pl in
    if e <? 0 then Some (e, cue, p)
    else match pl with
         | [] => Some (-1, cue, p)
         | _ :: _ => Some (0, cue, p)
         end.

(** [cue] is [None] for a null pointer; the result holds the status, the
    cue record as the call leaves it, and the parser state. *)
Definition Parse (cue : option Cue) (p : Parser)
  : option (Z * option Cue * Parser) :=
  match cue with
  | None => Some (-1, None, p)
  | Some cue =>
      ' (e, line, p) <- Parse_first_line (read_fuel p) p ;;
      if negb (e =? 0) then Some (e, Some cue, p)
      else
        let off := string_find line "-->" 0 in
        if negb (off =? npos)%N then
          let cue :=
            mkCue EmptyString (start_time cue) (stop_time cue)
                  (settings cue) (payload cue) in
          ' (e, cue, p) <- Parse_timings cue line off p ;;
          Some (e, Some cue, p)
        else
          let cue :=
            mkCue line (start_time cue) (stop_time cue)
                  (settings cue) (payload cue) in
          ' (e, line, p) <- ParseLine p ;;
          if negb (e =? 0) then Some (e, Some cue, p)
          else
            let off := string_find line "-->" 0 in
            if (off =? npos)%N then Some (-1, Some cue, p)
            else
              ' (e, cue, p) <- Parse_timings cue line off p ;;
              Some (e, Some cue, p)
  end.

(** A reader that delivers the characters of a text and then the end of
    the stream. *)
Definition reader_of (text : string) : Reader :=
  map Got (list_ascii_of_string text).

(** ** The input still to be delivered *)

(** What the next calls of [GetChar] deliver: the pushed-back character,
    if there is one, and then the outcomes of the reader. *)
Definition pending (p : Parser) : list outcome :=
  if unget_ p >=? 0 then Got (char_of_code (unget_ p)) :: reader_ p
  else reader_ p.

(** The source is at its end: the next outcome is the end of stream. *)
Definition at_eos (r : list outcome) : bool :=
  match r with
  | [] => true
  | Eof _ :: _ => true
  | _ => false
  end.

Definition is_eol (c : ascii) : bool := (c =? kLF)%char || (c =? kCR)%char.

(** A text without line terminators. *)
Fixpoint no_eol (text : string) : bool :=
  match text with
  | EmptyString => true
  | String c text' => negb (is_eol c) && no_eol text'
  end.

(** ** Streams and cue blocks *)

(** A stream that holds only blank lines before its end: line
    terminators, then the end of stream at every further call. *)
Definition blank_stream (p : Parser) : Prop :=
  exists cs ks,
    pending p = map Got cs ++ map Eof ks /\ forallb is_eol cs = true.

(** [n] successive calls of [Parse] on the same cue record: the
    statuses in order, the record and the parser state at the end. *)
Fixpoint Parse_calls (n : nat) (cue : Cue) (p : Parser)
  : option (list Z * Cue * Parser) :=
  match n with
  | O => Some ([], cue, p)
  | S n' =>
      match Parse (Some cue) p with
      | Some (e, Some cue', p') =>
          match Parse_calls n' cue' p' with
          | Some (es, c, q) => Some (e :: es, c, q)
          | None => None
          end
      | _ => None
      end
  end.

(** [first_line p line p1]: after blank lines, the stream at [p] holds
    the non-empty line [line], and [p1] is the state after it. *)
Inductive first_line : Parser -> string -> Parser -> Prop :=
  | first_here (p : Parser) (line : string) (p1 : Parser) :
      ParseLine p = Some (0, line, p1) -> line <> EmptyString ->
      first_line p line p1
  | first_skip (p p0 : Parser) (line : string) (p1 : Parser) :
      ParseLine p = Some (0, EmptyString, p0) -> first_line p0 line p1 ->
      first_line p line p1.

(** [cue_head p ident line p2]: the stream at [p] starts a cue block
    whose timings line is [line], read directly or after the identifier
    line [ident]; [p2] is the state after the timings line. *)
Inductive cue_head : Parser -> string -> string -> Parser -> Prop :=
  | head_timings (p : Parser) (line : string) (p1 : Parser) :
      first_line p line p1 ->
      string_find line "-->" 0 <> npos ->
      cue_head p EmptyString line p1
  | head_identifier (p : Parser) (ident : string) (p1 : Parser)
                    (line : string) (p2 : Parser) :
      first_line p ident p1 ->
      string_find ident "-->" 0 = npos ->
      ParseLine p1 = Some (0, line, p2) ->
      string_find line "-->" 0 <> npos ->
      cue_head p ident line p2.

(** A sample block: a blank line, the identifier line ended by CR LF,
    the timings line, a blank line, and the text that follows. *)
Definition sample_timings : string := "00:01.5 --> 00:02 align:start".

Definition sample_after_timings : string := String kLF "next".

Definition sample_after_identifier : string :=
  (sample_timings ++ String kLF sample_after_timings)%string.

Definition sample_block : string :=
  (String kLF "cue-1" ++ String kCR (String kLF sample_after_identifier))%string.

Definition sample_cue : Cue :=
  mkCue "prev" (mkTime 0 0 0 0) (mkTime 0 0 0 500) [] ["kept"%string].

(** ** Line terminators, tokens and settings text *)

(** [line_end s rest]: the pending input [s] starts with a line
    terminator (LF, CR LF, or CR alone), and [rest] is what is pending
    after it.  A CR at the end of the stream takes the end-of-stream
    outcome with it. *)
Inductive line_end : list outcome -> list outcome -> Prop :=
  | end_LF (rest : list outcome) :
      line_end (Got kLF :: rest) rest
  | end_CRLF (rest : list outcome) :
      line_end (Got kCR :: Got kLF :: rest) rest
  | end_CR (c : ascii) (rest : list outcome) :
      c <> kLF -> line_end (Got kCR :: Got c :: rest) (Got c :: rest)
  | end_CR_eos (rest : list outcome) :
      at_eos rest = true -> line_end (Got kCR :: rest) (tl rest).

Fixpoint all_chars (f : ascii -> bool) (s : string) : bool :=
  match s with
  | EmptyString => true
  | String c s' => f c && all_chars f s'
  end.

Definition blank_char (c : ascii) : bool :=
  (c =? kSPACE)%char || (c =? kTAB)%char.

(** The characters of a NAME or a VALUE: anything but the colon, NUL,
    space and tab. *)
Definition token_char (c : ascii) : bool :=
  negb (c =? ":")%char && negb (c =? kNUL)%char
  && negb (c =? kSPACE)%char && negb (c =? kTAB)%char.

Definition token (s : string) : bool :=
  negb (empty s) && all_chars token_char s.

Definition valid_setting (s : Setting) : bool :=
  token (name s) && token (value s).

(** A run of spaces and tabs that is not empty. *)
Definition blanks (ws : string) : bool :=
  negb (empty ws) && all_chars blank_char ws.

(** The text of a list of settings, each after its run of blanks. *)
Fixpoint settings_text (items : list (string * Setting)) : string :=
  match items with
  | [] => EmptyString
  | (ws, s) :: items' =>
      (ws ++ name s ++ String ":" (value s ++ settings_text items'))%string
  end.

(** The lines of a payload as [Parse] reads them: [payload_lines p pl pf]
    holds when the non-empty lines [pl] are read from [p] one after the
    other, and the next line, read up to [pf], is empty (a blank line
    or the end of the stream). *)
Inductive payload_lines : Parser -> list string -> Parser -> Prop :=
  | payload_end (p : Parser) (e : Z) (pf : Parser) :
      ParseLine p = Some (e, EmptyString, pf) -> 0 <= e ->
      payload_lines p [] pf
  | payload_more (p : Parser) (e : Z) (line : string) (p1 : Parser)
                 (pl : list string) (pf : Parser) :
      ParseLine p = Some (e, line, p1) -> 0 <= e -> line <> EmptyString ->
      payload_lines p1 pl pf ->
      payload_lines p (line :: pl) pf.

(** The header line is acceptable: nothing after the signature, or an
    annotation that starts with a space or a tab. *)
Definition annotation_ok (annot : string) : bool :=
  match annot with
  | EmptyString => true
  | String c _ => blank_char c
  end.

(** The stream starts with the bytes of the BOM or has none. *)
Definition optional_BOM (bom : list outcome) : Prop :=
  bom = [] \/ bom = map Got BOM.

(** An item of a settings text: a run of blanks and a well-formed
    setting. *)
Definition valid_item (it : string * Setting) : bool :=
  blanks (fst it) && valid_setting (snd it).

(** The character after a time, a NAME or a VALUE: NUL, space or tab. *)
Definition end_char (c : ascii) : bool :=
  (c =? kNUL)%char || blank_char c.

(** The optional fraction of a timestamp, [None] or the digits after
    the full stop; its text, and the milliseconds the code gives it. *)
Definition frac_text (f : option string) : string :=
  match f with
  | None => EmptyString
  | Some ds => String "." ds
  end.

Definition frac_ms (f : option string) : Z :=
  match f with
  | None => 0
  | Some ds =>
      let v := decimal 0 ds in
      if v <? 10 then v * 100 else if v <? 100 then v * 10 else v
  end.

Definition frac_ok (f : option string) : bool :=
  match f with
  | None => true
  | Some ds => negb (empty ds) && all_digits ds && (decimal 0 ds <? 1000)
  end.

(** A digit group: decimal digits, at least one. *)
Definition digits (ds : string) : bool := negb (empty ds) && all_digits ds.

(** A payload line: not empty and without line terminator. *)
Definition payload_line (l : string) : Prop :=
  l <> EmptyString /\ no_eol l = true.

(** [cue] with another identifier. *)
Definition with_identifier (cue : Cue) (ident : string) : Cue :=
  mkCue ident (start_time cue) (stop_time cue) (settings cue) (payload cue).









(** ** Facts on machine integers and Time *)

Lemma to_int_id (z : Z) : is_int z -> to_int z = z.
Proof.
  unfold is_int, INT_MIN, INT_MAX, to_int. intros H.
  rewrite Z.mod_small; lia.
Qed.

Lemma to_int_range (z : Z) : is_int (to_int z).
Proof.
  unfold is_int, INT_MIN, INT_MAX, to_int.
  pose proof (Z.mod_pos_bound (z + 2147483648) 4294967296 ltac:(lia)).
  lia.
Qed.

Lemma presentation_in_range (t : Time) :
  int_fields t -> LLONG_MIN <= presentation t <= LLONG_MAX.
Proof.
  destruct t as [h m s ms].
  unfold int_fields, is_int, INT_MIN, INT_MAX, LLONG_MIN, LLONG_MAX,
    presentation; cbn [hours minutes seconds milliseconds].
  intros (Hh & Hm & Hs & Hms). lia.
Qed.

Lemma Time_lt_spec (a b : Time) :
  Time_lt a b = true <->
  hours a < hours b \/
  hours a = hours b /\
  (minutes a < minutes b \/
   minutes a = minutes b /\
   (seconds a < seconds b \/
    seconds a = seconds b /\ milliseconds a < milliseconds b)).
Proof.
  unfold Time_lt.
  destruct (Z.ltb_spec (hours a) (hours b)); [intuition lia|].
  destruct (Z.gtb_spec (hours a) (hours b)); [intuition (lia || discriminate)|].
  destruct (Z.ltb_spec (minutes a) (minutes b)); [intuition lia|].
  destruct (Z.gtb_spec (minutes a) (minutes b)); [intuition (lia || discriminate)|].
  destruct (Z.ltb_spec (seconds a) (seconds b)); [intuition lia|].
  destruct (Z.gtb_spec (seconds a) (seconds b)); [intuition (lia || discriminate)|].
  rewrite Z.ltb_lt. intuition lia.
Qed.

(** C2 (as amended): for times whose minutes, seconds and milliseconds
    are in their normalized ranges, [a < b] holds exactly when
    [presentation(a) < presentation(b)]. *)
Theorem Time_lt_iff_presentation_lt (a b : Time) :
  sub_hour_normalized a -> sub_hour_normalized b ->
  (Time_lt a b = true <-> presentation a < presentation b).
Proof.
  unfold sub_hour_normalized. intros Ha Hb.
  rewrite Time_lt_spec. unfold presentation.
  destruct a as [h1 m1 s1 ms1], b as [h2 m2 s2 ms2].
  cbn [hours minutes seconds milliseconds] in *.
  lia.
Qed.

Lemma Time_lt_iff_presentation_lt_witness :
  Time_lt (mkTime 0 59 59 999) (mkTime 1 0 0 0) = true <->
  presentation (mkTime 0 59 59 999) < presentation (mkTime 1 0 0 0).
Proof.
  apply (Time_lt_iff_presentation_lt (mkTime 0 59 59 999) (mkTime 1 0 0 0));
    unfold sub_hour_normalized; simpl; lia.
Defined.

(** C2 (as stated) fails on times outside the normalized ranges:
    {0,60,0,0} is below {1,0,0,0} field by field, and both are
    3600000 ms. *)
Lemma Time_lt_not_presentation_lt :
  ~ (Time_lt (mkTime 0 60 0 0) (mkTime 1 0 0 0) = true <->
     presentation (mkTime 0 60 0 0) < presentation (mkTime 1 0 0 0)).
Proof.
  intros [H _]. specialize (H eq_refl).
  vm_compute in H. discriminate.
Qed.

Lemma to_int_sub_to_int (a b : Z) : to_int (a - to_int b) = to_int (a - b).
Proof.
  unfold to_int. f_equal.
  replace (a - ((b + 2147483648) mod 4294967296 - 2147483648) + 2147483648)
    with ((a + 4294967296) - (b + 2147483648) mod 4294967296) by lia.
  rewrite Zminus_mod_idemp_r. f_equal. lia.
Qed.

Lemma quot_by_parts (q r k : Z) :
  0 < k -> 0 <= q -> 0 <= r < k -> Z.quot (k * q + r) k = q.
Proof.
  intros Hk Hq Hr.
  rewrite Z.quot_div_nonneg by nia.
  symmetry. apply (Z.div_unique_pos _ _ _ r); lia.
Qed.

(** The round trip holds as long as the total of seconds fits an [int],
    that is up to 596523 hours. *)
Lemma presentation_roundtrip (t : Time) :
  normalized t ->
  3600 * hours t + 60 * minutes t + seconds t <= INT_MAX ->
  presentation_set (presentation t) = t.
Proof.
  destruct t as [h m s ms].
  unfold normalized, INT_MAX, presentation, presentation_set;
    cbn [hours minutes seconds milliseconds].
  intros (Hh & Hm & Hs & Hms) Hfit.
  destruct (Z.ltb_spec (1000 * 3600 * h + 1000 * 60 * m + 1000 * s + ms) 0);
    [lia|].
  replace (1000 * 3600 * h + 1000 * 60 * m + 1000 * s + ms)
    with (1000 * (3600 * h + 60 * m + s) + ms) by lia.
  rewrite quot_by_parts by lia.
  rewrite (to_int_id (3600 * h + 60 * m + s))
    by (unfold is_int, INT_MIN, INT_MAX; lia).
  unfold int_mul, int_sub, int_div.
  rewrite to_int_sub_to_int.
  replace (1000 * (3600 * h + 60 * m + s) + ms - 1000 * (3600 * h + 60 * m + s))
    with ms by lia.
  replace (3600 * h + 60 * m + s) with (60 * (60 * h + m) + s) by lia.
  rewrite quot_by_parts by lia.
  rewrite (to_int_id (60 * h + m)) by (unfold is_int, INT_MIN, INT_MAX; lia).
  rewrite quot_by_parts by lia.
  rewrite (to_int_id h) by (unfold is_int, INT_MIN, INT_MAX; lia).
  rewrite !to_int_sub_to_int.
  rewrite !to_int_id by (unfold is_int, INT_MIN, INT_MAX; lia).
  f_equal; lia.
Qed.

(** C3: the round trip through the presentation value is not kept for
    every normalized time: [seconds = d / 1000] stores the total of
    seconds in an [int] field.  The time 1193046:28:16.000 is normalized
    and holds 2^32 seconds, the field receives 0, and the time rebuilt
    from the presentation value is the zero time. *)
Theorem presentation_roundtrip_lost :
  let t := mkTime 1193046 28 16 0 in
  normalized t /\ int_fields t /\
  presentation t = 4294967296000 /\
  presentation_set (presentation t) = mkTime 0 0 0 0 /\
  Time_eq (presentation_set (presentation t)) t = false.
Proof.
  cbv zeta. unfold normalized, int_fields, is_int, INT_MIN, INT_MAX.
  cbn [hours minutes seconds milliseconds].
  repeat split; try lia; vm_compute; reflexivity.
Qed.

(** ** Strings *)

Lemma strlen_cons (c : ascii) (s : string) :
  strlen (String c s) = N.succ (strlen s).
Proof. unfold strlen. simpl String.length. lia. Qed.

Lemma strlen_app (a b : string) :
  strlen (a ++ b) = (strlen a + strlen b)%N.
Proof.
  induction a as [|c a IH]; simpl append.
  - reflexivity.
  - rewrite !strlen_cons, IH. lia.
Qed.

Lemma string_length_app (a b : string) :
  String.length (a ++ b) = (String.length a + String.length b)%nat.
Proof.
  induction a as [|c a IH]; simpl; [reflexivity | now rewrite IH].
Qed.

Lemma strlen_push_back (s : string) (c : ascii) :
  strlen (push_back s c) = (strlen s + 1)%N.
Proof. unfold push_back. now rewrite strlen_app. Qed.

Lemma push_back_app (pre : string) (c : ascii) (s : string) :
  (push_back pre c ++ s)%string = (pre ++ String c s)%string.
Proof.
  unfold push_back. induction pre as [|d pre IH]; simpl; [reflexivity|].
  now rewrite IH.
Qed.

Lemma char_at_app (pre s : string) (i : N) :
  char_at (pre ++ s) (strlen pre + i) = char_at s i.
Proof.
  induction pre as [|c pre IH]; simpl append.
  - reflexivity.
  - rewrite strlen_cons. simpl char_at.
    destruct (N.eqb_spec (N.succ (strlen pre) + i) 0); [lia|].
    replace (N.pred (N.succ (strlen pre) + i)) with (strlen pre + i)%N by lia.
    exact IH.
Qed.

Lemma char_at_app_0 (pre s : string) :
  char_at (pre ++ s) (strlen pre) = char_at s 0.
Proof.
  rewrite <- (char_at_app pre s 0). f_equal. lia.
Qed.

Lemma char_at_end (line : string) (idx : N) :
  (strlen line <= idx)%N -> char_at line idx = kNUL.
Proof.
  revert idx. induction line as [|c line IH]; intros idx H; simpl.
  - reflexivity.
  - rewrite strlen_cons in H.
    destruct (N.eqb_spec idx 0); [lia|]. apply IH. lia.
Qed.

(** ** Parser::ParseNumber *)

Lemma isdigit_value (c : ascii) :
  isdigit c = true -> 0 <= char_code c - char_code "0" <= 9.
Proof.
  unfold isdigit. rewrite andb_true_iff, !Z.leb_le.
  change (char_code "0") with 48. change (char_code "9") with 57. lia.
Qed.

Lemma isdigit_NUL : isdigit kNUL = false.
Proof. reflexivity. Qed.

Lemma decimal_ge (ds : string) :
  forall val, all_digits ds = true -> 0 <= val -> val <= decimal val ds.
Proof.
  induction ds as [|c ds IH]; intros val Hds Hval; simpl in *.
  - lia.
  - apply andb_true_iff in Hds as [Hc Hds].
    pose proof (isdigit_value c Hc).
    specialize (IH (val * 10 + (char_code c - char_code "0")) Hds).
    lia.
Qed.

(** The loop on a digit run whose value fits: it consumes the run. *)
Lemma ParseNumber_loop_fits (ds : string) :
  forall fuel pre rest val,
    all_digits ds = true -> isdigit (char_at rest 0) = false ->
    (String.length ds < fuel)%nat -> 0 <= val ->
    decimal val ds <= INT_MAX ->
    ParseNumber_loop fuel (pre ++ ds ++ rest) (strlen pre) val
    = Some (decimal val ds, (strlen pre + strlen ds)%N).
Proof.
  induction ds as [|c ds IH]; intros fuel pre rest val Hds Hrest Hfuel Hval Hfit;
    (destruct fuel as [|fuel]; [simpl in Hfuel; lia|]); simpl ParseNumber_loop.
  - simpl append. rewrite char_at_app_0, Hrest. simpl decimal in *.
    rewrite to_int_id by (unfold is_int, INT_MIN, INT_MAX in *; lia).
    do 2 f_equal. unfold strlen; simpl; lia.
  - simpl in Hds. apply andb_true_iff in Hds as [Hc Hds].
    simpl append. rewrite char_at_app_0. simpl char_at. rewrite Hc.
    simpl decimal in Hfit |- *.
    pose proof (isdigit_value c Hc) as Hv.
    pose proof (decimal_ge ds (val * 10 + (char_code c - char_code "0")) Hds
                  ltac:(lia)) as Hge.
    destruct (Z.gtb_spec (val * 10 + (char_code c - char_code "0")) INT_MAX);
      [lia|].
    rewrite <- (push_back_app pre c), <- (strlen_push_back pre c).
    rewrite IH; try assumption; try lia.
    + do 2 f_equal. rewrite strlen_push_back, strlen_cons. lia.
    + simpl in Hfuel. lia.
Qed.

(** The loop on a digit run whose value does not fit: it returns -1. *)
Lemma ParseNumber_loop_overflow (ds : string) :
  forall fuel pre rest val,
    all_digits ds = true ->
    (String.length ds < fuel)%nat -> 0 <= val <= INT_MAX ->
    INT_MAX < decimal val ds ->
    exists idx',
      ParseNumber_loop fuel (pre ++ ds ++ rest) (strlen pre) val
      = Some (-1, idx').
Proof.
  induction ds as [|c ds IH]; intros fuel pre rest val Hds Hfuel Hval Hbig;
    (destruct fuel as [|fuel]; [simpl in Hfuel; lia|]); simpl ParseNumber_loop.
  - simpl in Hbig. lia.
  - simpl in Hds. apply andb_true_iff in Hds as [Hc Hds].
    simpl append. rewrite char_at_app_0. simpl char_at. rewrite Hc.
    simpl decimal in Hbig.
    pose proof (isdigit_value c Hc) as Hv.
    destruct (Z.gtb_spec (val * 10 + (char_code c - char_code "0")) INT_MAX).
    + eexists; reflexivity.
    + rewrite <- (push_back_app pre c), <- (strlen_push_back pre c).
      apply IH; try assumption; try lia. simpl in Hfuel. lia.
Qed.

(** [ParseNumber] at the start of the maximal digit run [ds] of the
    line [pre ++ ds ++ rest]. *)
Lemma ParseNumber_digit_run (pre ds rest : string) :
  all_digits ds = true ->
  isdigit (char_at rest 0) = false ->
  (strlen (pre ++ ds ++ rest) < npos)%N ->
  let line := (pre ++ ds ++ rest)%string in
  let idx := strlen pre in
  (ds = EmptyString -> ParseNumber line idx = Some (-1, idx)) /\
  (ds <> EmptyString -> INT_MAX < decimal 0 ds ->
   exists idx', ParseNumber line idx = Some (-1, idx')) /\
  (ds <> EmptyString -> decimal 0 ds <= INT_MAX ->
   0 <= decimal 0 ds /\
   ParseNumber line idx = Some (decimal 0 ds, (idx + strlen ds)%N)).
Proof.
  intros Hds Hrest Hlen line idx.
  assert (Hidx : ((idx =? npos)%N || (strlen line <=? idx)%N
                  = (strlen (ds ++ rest) =? 0)%N)).
  { subst line idx. rewrite strlen_app in Hlen |- *.
    destruct (N.eqb_spec (strlen pre) npos); [lia|]. simpl orb.
    destruct (N.leb_spec (strlen pre + strlen (ds ++ rest)) (strlen pre));
      destruct (N.eqb_spec (strlen (ds ++ rest)) 0); lia || reflexivity. }
  assert (Hfuel : (String.length ds < line_fuel line)%nat).
  { subst line. unfold line_fuel. rewrite !string_length_app. lia. }
  unfold ParseNumber. rewrite Hidx. subst line idx.
  destruct ds as [|c ds].
  - split; [intros _ | split; intros H; now destruct H].
    simpl append. destruct rest as [|r rest]; [reflexivity|].
    rewrite strlen_cons. destruct (N.eqb_spec (N.succ (strlen rest)) 0); [lia|].
    rewrite char_at_app_0. simpl in Hrest |- *. now rewrite Hrest.
  - simpl append. rewrite strlen_cons.
    destruct (N.eqb_spec (N.succ (strlen (ds ++ rest))) 0); [lia|].
    rewrite char_at_app_0. simpl char_at.
    pose proof Hds as Hds'. simpl in Hds'.
    apply andb_true_iff in Hds' as [Hc _]. rewrite Hc. simpl negb.
    split; [discriminate|]. split; intros _ Hval.
    + apply (ParseNumber_loop_overflow (String c ds)); try assumption.
      unfold INT_MAX; lia.
    + split; [apply (decimal_ge (String c ds)); [assumption | lia]|].
      apply (ParseNumber_loop_fits (String c ds)); try assumption. lia.
Qed.

Lemma ParseNumber_fits (pre ds rest : string) :
  all_digits ds = true -> ds <> EmptyString ->
  isdigit (char_at rest 0) = false ->
  (strlen (pre ++ ds ++ rest) < npos)%N ->
  decimal 0 ds <= INT_MAX ->
  ParseNumber (pre ++ ds ++ rest) (strlen pre)
  = Some (decimal 0 ds, (strlen pre + strlen ds)%N).
Proof.
  intros Hds Hne Hrest Hlen Hfit.
  now apply (ParseNumber_digit_run pre ds rest Hds Hrest Hlen).
Qed.

(** C4: [ParseNumber] requires a digit at [idx]; on a digit run whose
    value is above [INT_MAX] it returns the error -1, and on a run whose
    value fits it returns that non-negative value and leaves [idx] after
    the run.  The line is [pre ++ ds ++ rest] with [idx] at the start of
    the maximal digit run [ds]. *)
Theorem ParseNumber_spec (pre ds rest : string) :
  all_digits ds = true ->
  isdigit (char_at rest 0) = false ->
  (strlen (pre ++ ds ++ rest) < npos)%N ->
  let line := (pre ++ ds ++ rest)%string in
  let idx := strlen pre in
  (ds = EmptyString -> ParseNumber line idx = Some (-1, idx)) /\
  (ds <> EmptyString -> INT_MAX < decimal 0 ds ->
   exists idx', ParseNumber line idx = Some (-1, idx')) /\
  (ds <> EmptyString -> decimal 0 ds <= INT_MAX ->
   0 <= decimal 0 ds /\
   ParseNumber line idx = Some (decimal 0 ds, (idx + strlen ds)%N)).
Proof. exact (ParseNumber_digit_run pre ds rest). Qed.

Lemma ParseNumber_spec_witness :
  all_digits "2147483647" = true /\
  isdigit (char_at ":00" 0) = false /\
  (strlen ("T=" ++ "2147483647" ++ ":00") < npos)%N /\
  ParseNumber "T=2147483647:00" 2 = Some (2147483647, 12%N) /\
  exists idx', ParseNumber "T=2147483648:00" 2 = Some (-1, idx').
Proof.
  split; [reflexivity|]. split; [reflexivity|]. split; [reflexivity|].
  split.
  - apply (ParseNumber_spec "T=" "2147483647" ":00" eq_refl eq_refl eq_refl);
      [discriminate | vm_compute; discriminate].
  - apply (ParseNumber_spec "T=" "2147483648" ":00" eq_refl eq_refl eq_refl);
      [discriminate | vm_compute; reflexivity].
Defined.

Lemma ParseNumber_off_line (line : string) (idx : N) :
  (strlen line <= idx)%N -> ParseNumber line idx = Some (-1, idx).
Proof.
  intros H. unfold ParseNumber.
  destruct (N.leb_spec (strlen line) idx); [|lia].
  now rewrite orb_true_r.
Qed.

Lemma char_at_in_line (line : string) (idx : N) :
  char_at line idx <> kNUL -> (idx < strlen line)%N.
Proof.
  intros H. destruct (N.ltb_spec idx (strlen line)); [assumption|].
  now rewrite char_at_end in H.
Qed.

Lemma isdigit_in_line (line : string) (idx : N) :
  isdigit (char_at line idx) = true -> (idx < strlen line)%N.
Proof.
  intros H. apply char_at_in_line. intros E. rewrite E in H. discriminate.
Qed.

Lemma covers_start (line : string) (idx : N) :
  covers (line_fuel line) line idx.
Proof. unfold covers, line_fuel, strlen. lia. Qed.

Lemma covers_step (fuel : nat) (line : string) (idx : N) :
  covers (S fuel) line idx -> (idx < strlen line)%N ->
  covers fuel line (idx + 1).
Proof. unfold covers. lia. Qed.

Lemma ParseNumber_loop_total (line : string) :
  forall fuel idx val,
    covers fuel line idx ->
    exists r, ParseNumber_loop fuel line idx val = Some r.
Proof.
  induction fuel as [|fuel IH]; intros idx val Hc.
  - destruct Hc; lia.
  - simpl. destruct (isdigit (char_at line idx)) eqn:Hd; [|eauto].
    destruct (_ >? INT_MAX); [eauto|].
    apply IH, covers_step; [assumption | now apply isdigit_in_line].
Qed.

Lemma ParseNumber_total (line : string) (idx : N) :
  exists r, ParseNumber line idx = Some r.
Proof.
  unfold ParseNumber.
  destruct (_ || _); [eauto|]. destruct (negb _); [eauto|].
  apply ParseNumber_loop_total, covers_start.
Qed.

Lemma ParseNumber_loop_range (line : string) :
  forall fuel idx val v idx',
    0 <= val <= INT_MAX ->
    ParseNumber_loop fuel line idx val = Some (v, idx') ->
    v = -1 \/ 0 <= v <= INT_MAX.
Proof.
  induction fuel as [|fuel IH]; intros idx val v idx' Hval H; simpl in H.
  - discriminate.
  - destruct (isdigit (char_at line idx)) eqn:Hd.
    + pose proof (isdigit_value _ Hd) as Hv.
      destruct (Z.gtb_spec (val * 10 + (char_code (char_at line idx)
                                        - char_code "0")) INT_MAX).
      * injection H as <- _. now left.
      * eapply IH; [|exact H]. lia.
    + injection H as <- _. right.
      rewrite to_int_id; [assumption|].
      unfold is_int, INT_MIN, INT_MAX in *. lia.
Qed.

(** A result of [ParseNumber] is the error -1 or a non-negative [int]. *)
Lemma ParseNumber_range (line : string) (idx : N) (v : Z) (idx' : N) :
  ParseNumber line idx = Some (v, idx') -> v = -1 \/ 0 <= v <= INT_MAX.
Proof.
  unfold ParseNumber.
  destruct (_ || _); [intros H; injection H as <- _; now left|].
  destruct (negb _); [intros H; injection H as <- _; now left|].
  apply ParseNumber_loop_range. unfold INT_MAX. lia.
Qed.

(** ** Parser::ParseTime *)

Lemma skip_blanks_total (line : string) :
  forall fuel idx,
    covers fuel line idx -> exists r, skip_blanks fuel line idx = Some r.
Proof.
  induction fuel as [|fuel IH]; intros idx Hc.
  - destruct Hc; lia.
  - simpl. destruct (Ascii.eqb_spec (char_at line idx) kNUL) as [|Hn]; [eauto|].
    destruct (_ && _); [eauto|].
    apply IH, covers_step; [assumption | now apply char_at_in_line].
Qed.

Lemma ParseTime_millis_total (line : string) (idx : N) (t : Time) :
  exists r, ParseTime_millis line idx t = Some r.
Proof.
  unfold ParseTime_millis.
  match goal with
  | |- exists r, match ?first with _ => _ end = _ =>
      assert (H : exists e i u, first = Some (e, i, u))
  end.
  { destruct (negb (char_at line idx =? ".")%char); [eauto|].
    destruct (ParseNumber_total line (idx + 1)) as [[v i] ->].
    destruct (v <? 0); [eauto|]. destruct (v >=? 1000); [eauto|].
    destruct (v <? 10); [eauto|]. destruct (v <? 100); eauto. }
  destruct H as (e & i & u & ->).
  destruct (negb (e =? 0)); [eauto|]. destruct (_ && _); eauto.
Qed.

(** [ParseTime] returns on every line and index. *)
Lemma ParseTime_total (line : string) (idx : N) (time : Time) :
  exists r, ParseTime line idx time = Some r.
Proof.
  unfold ParseTime.
  destruct (_ || _); [eauto|].
  destruct (skip_blanks_total line _ idx (covers_start line idx)) as [i0 ->].
  destruct (ParseNumber_total line i0) as [[v1 i1] ->].
  destruct (v1 <? 0); [eauto|].
  destruct (char_at line i1 =? ":")%char; [|apply ParseTime_millis_total].
  destruct (ParseNumber_total line (i1 + 1)) as [[v2 i2] ->].
  destruct (v2 <? 0); [eauto|]. destruct (v2 >=? 60); [eauto|].
  destruct (char_at line i2 =? ":")%char.
  - destruct (ParseNumber_total line (i2 + 1)) as [[v3 i3] ->].
    destruct (v3 <? 0); [eauto|]. destruct (v3 >=? 60); [eauto|].
    apply ParseTime_millis_total.
  - destruct (v1 >=? 60); [eauto|]. apply ParseTime_millis_total.
Qed.

(** A success of the last part of [ParseTime] keeps hours, minutes and
    seconds and leaves the milliseconds below 1000. *)
Lemma ParseTime_millis_ok (line : string) (idx : N) (t : Time)
  (idx' : N) (t' : Time) :
  ParseTime_millis line idx t = Some (0, idx', t') ->
  hours t' = hours t /\ minutes t' = minutes t /\ seconds t' = seconds t /\
  0 <= milliseconds t' <= 999.
Proof.
  unfold ParseTime_millis.
  assert (Hfin : forall e i u,
    (if negb (e =? 0) then Some (e, i, u)
     else if negb (char_at line i =? kNUL)%char
             && negb (char_at line i =? kSPACE)%char
             && negb (char_at line i =? kTAB)%char
          then Some (-1, i, u) else Some (0, i, u)) = Some (0, idx', t') ->
    e = 0 /\ u = t').
  { intros e i u. destruct (Z.eqb_spec e 0) as [->|Hne]; simpl.
    - destruct (_ && _); intros H; inversion H; auto.
    - intros H; inversion H; contradiction. }
  destruct (negb (char_at line idx =? ".")%char).
  - intros Hr. apply Hfin in Hr as [_ <-]. simpl. lia.
  - destruct (ParseNumber line (idx + 1)) as [[v i]|] eqn:HP; [|discriminate].
    apply ParseNumber_range in HP.
    destruct (Z.ltb_spec v 0); [intros Hr; apply Hfin in Hr; lia|].
    destruct (Z.geb_spec v 1000); [intros Hr; apply Hfin in Hr; lia|].
    assert (Hm : forall k, 0 <= v * k <= 999 -> int_mul v k = v * k).
    { intros k Hk. apply to_int_id. unfold is_int, INT_MIN, INT_MAX. lia. }
    destruct (Z.ltb_spec v 10);
      [|destruct (Z.ltb_spec v 100)];
      intros Hr; apply Hfin in Hr as [_ <-]; simpl;
      rewrite ?Hm by lia; lia.
Qed.

(** The seconds-only form: the split of a non-negative [int] into
    hours, minutes and seconds. *)
Lemma seconds_only_split (v : Z) :
  0 <= v <= INT_MAX ->
  let minutes0 := int_div v 60 in
  let seconds1 := int_sub v (int_mul minutes0 60) in
  let hours1 := int_div minutes0 60 in
  let minutes1 := int_sub minutes0 (int_mul hours1 60) in
  0 <= hours1 /\ 0 <= minutes1 <= 59 /\ 0 <= seconds1 <= 59 /\
  3600 * hours1 + 60 * minutes1 + seconds1 = v.
Proof.
  unfold INT_MAX. intros Hv. cbv zeta. unfold int_div, int_sub, int_mul.
  assert (I : forall z, 0 <= z <= 2147483647 -> to_int z = z).
  { intros z Hz. apply to_int_id. unfold is_int, INT_MIN, INT_MAX. lia. }
  assert (H1 : 0 <= Z.quot v 60 <= 2147483647)
    by (Z.to_euclidean_division_equations; lia).
  rewrite (I (Z.quot v 60) H1).
  assert (H2 : 0 <= Z.quot (Z.quot v 60) 60 <= 2147483647)
    by (Z.to_euclidean_division_equations; lia).
  rewrite (I (Z.quot (Z.quot v 60) 60) H2).
  rewrite (I (Z.quot v 60 * 60)) by (Z.to_euclidean_division_equations; lia).
  rewrite (I (Z.quot (Z.quot v 60) 60 * 60))
    by (Z.to_euclidean_division_equations; lia).
  rewrite (I (v - Z.quot v 60 * 60))
    by (Z.to_euclidean_division_equations; lia).
  rewrite (I (Z.quot v 60 - Z.quot (Z.quot v 60) 60 * 60))
    by (Z.to_euclidean_division_equations; lia).
  Z.to_euclidean_division_equations; lia.
Qed.

(** A time that [ParseTime] produces is normalized. *)
Lemma ParseTime_normalized (line : string) (idx : N) (time : Time)
  (idx' : N) (t : Time) :
  ParseTime line idx time = Some (0, idx', t) -> normalized t.
Proof.
  unfold ParseTime, normalized.
  destruct (_ || _); [discriminate|].
  destruct (skip_blanks _ line idx) as [i0|]; [|discriminate].
  destruct (ParseNumber line i0) as [[v1 i1]|] eqn:P1; [|discriminate].
  apply ParseNumber_range in P1.
  destruct (Z.ltb_spec v1 0); [intros Hr; inversion Hr; lia|].
  destruct (char_at line i1 =? ":")%char.
  - destruct (ParseNumber line (i1 + 1)) as [[v2 i2]|] eqn:P2; [|discriminate].
    apply ParseNumber_range in P2.
    destruct (Z.ltb_spec v2 0); [intros Hr; inversion Hr; lia|].
    destruct (Z.geb_spec v2 60); [discriminate|].
    destruct (char_at line i2 =? ":")%char.
    + destruct (ParseNumber line (i2 + 1)) as [[v3 i3]|] eqn:P3;
        [|discriminate].
      apply ParseNumber_range in P3.
      destruct (Z.ltb_spec v3 0); [intros Hr; inversion Hr; lia|].
      destruct (Z.geb_spec v3 60); [discriminate|].
      intros Hr. apply ParseTime_millis_ok in Hr. simpl in Hr. lia.
    + destruct (Z.geb_spec v1 60); [discriminate|].
      intros Hr. apply ParseTime_millis_ok in Hr. simpl in Hr. lia.
  - intros Hr. apply ParseTime_millis_ok in Hr. simpl in Hr.
    pose proof (seconds_only_split v1 ltac:(lia)) as S. cbv zeta in S. lia.
Qed.

(** C5: every time that a successful [ParseTime] produces has minutes
    and seconds in [0,59], whichever of the three forms was read; the
    seconds-only text 61 gives 0 h, 1 min, 1 s, 0 ms. *)
Theorem ParseTime_minutes_seconds_normalized :
  (forall line idx time idx' t,
      ParseTime line idx time = Some (0, idx', t) ->
      0 <= minutes t <= 59 /\ 0 <= seconds t <= 59) /\
  (forall time, ParseTime "61" 0 time = Some (0, 2%N, mkTime 0 1 1 0)).
Proof.
  split.
  - intros line idx time idx' t H.
    apply ParseTime_normalized in H. unfold normalized in H. lia.
  - intros time. reflexivity.
Qed.

Lemma ParseTime_minutes_seconds_normalized_witness :
  ParseTime "3723.5 -->" 0 Time_zero = Some (0, 6%N, mkTime 1 2 3 500) /\
  (0 <= minutes (mkTime 1 2 3 500) <= 59 /\
   0 <= seconds (mkTime 1 2 3 500) <= 59).
Proof.
  split; [reflexivity|].
  apply (proj1 ParseTime_minutes_seconds_normalized
               "3723.5 -->"%string 0%N Time_zero 6%N (mkTime 1 2 3 500)).
  reflexivity.
Defined.

(** C1: the group after the full stop is read by its value, not by its
    number of digits.  In 00:00:01.05 the group 05 has the value 5,
    which is below 10 and is multiplied by 100: the time has 500
    milliseconds, where two digits read as hundredths are 50. *)
Theorem ParseTime_millis_leading_zero :
  forall time,
    ParseTime "00:00:01.05" 0 time = Some (0, 11%N, mkTime 0 0 1 500).
Proof. intros time. reflexivity. Qed.

Lemma string_app_assoc (a b c : string) :
  ((a ++ b) ++ c)%string = (a ++ b ++ c)%string.
Proof. induction a as [|x a IH]; simpl; [reflexivity | now rewrite IH]. Qed.

(** What the code does with the group after the full stop, for every
    group: its value decides the factor.  For a group without leading
    zero this is the reading by the number of digits. *)
Lemma ParseTime_millis_by_value (pre ds rest : string) (t : Time) :
  all_digits ds = true -> ds <> EmptyString ->
  char_at rest 0 = kNUL \/ char_at rest 0 = kSPACE \/ char_at rest 0 = kTAB ->
  (strlen (pre ++ String "." (ds ++ rest)) < npos)%N ->
  decimal 0 ds < 1000 ->
  ParseTime_millis (pre ++ String "." (ds ++ rest)) (strlen pre) t
  = Some (0, (strlen pre + 1 + strlen ds)%N,
          mkTime (hours t) (minutes t) (seconds t)
                 (let v := decimal 0 ds in
                  if v <? 10 then v * 100
                  else if v <? 100 then v * 10 else v)).
Proof.
  intros Hds Hne Hrest Hlen Hval.
  assert (Hnd : isdigit (char_at rest 0) = false)
    by (destruct Hrest as [-> | [-> | ->]]; reflexivity).
  pose proof (decimal_ge ds 0 Hds ltac:(lia)) as Hge.
  unfold ParseTime_millis.
  rewrite char_at_app_0. simpl char_at. simpl negb. cbv iota.
  rewrite <- (push_back_app pre "." (ds ++ rest)) in Hlen |- *.
  rewrite <- (strlen_push_back pre ".").
  rewrite (ParseNumber_fits (push_back pre ".") ds rest Hds Hne Hnd Hlen)
    by (unfold INT_MAX; lia).
  destruct (Z.ltb_spec (decimal 0 ds) 0); [lia|].
  destruct (Z.geb_spec (decimal 0 ds) 1000); [lia|].
  assert (Hm : forall k, 0 <= decimal 0 ds * k <= 999 ->
                         int_mul (decimal 0 ds) k = decimal 0 ds * k).
  { intros k Hk. apply to_int_id. unfold is_int, INT_MIN, INT_MAX. lia. }
  assert (Hend : forall u : Time,
    (let c := char_at (push_back pre "." ++ ds ++ rest)
                      (strlen (push_back pre ".") + strlen ds) in
     if negb (c =? kNUL)%char && negb (c =? kSPACE)%char
        && negb (c =? kTAB)%char
     then Some (-1, (strlen (push_back pre ".") + strlen ds)%N, u)
     else Some (0, (strlen (push_back pre ".") + strlen ds)%N, u))
    = Some (0, (strlen (push_back pre ".") + strlen ds)%N, u)).
  { intros u. cbv zeta. rewrite <- string_app_assoc, <- strlen_app.
    rewrite char_at_app_0.
    destruct Hrest as [-> | [-> | ->]]; reflexivity. }
  cbv zeta in Hend |- *.
  destruct (Z.ltb_spec (decimal 0 ds) 10);
    [|destruct (Z.ltb_spec (decimal 0 ds) 100)];
    cbn [negb Z.eqb]; rewrite Hend, ?Hm by lia; reflexivity.
Qed.

(** ** Parser::GetChar and Parser::UngetChar *)

Lemma char_of_code_code (c : ascii) : char_of_code (char_code c) = c.
Proof.
  unfold char_of_code, char_code. rewrite N2Z.id. apply ascii_N_embedding.
Qed.

Lemma char_code_nonneg (c : ascii) : 0 <= char_code c.
Proof. unfold char_code. lia. Qed.

Lemma pending_empty_slot (r : Reader) (u : Z) :
  u < 0 -> pending (mkParser r u) = r.
Proof.
  intros Hu. unfold pending. simpl.
  destruct (Z.geb_spec u 0); [lia | reflexivity].
Qed.

Lemma pending_UngetChar (c : ascii) (p : Parser) :
  pending (UngetChar c p) = Got c :: reader_ p.
Proof.
  unfold pending, UngetChar. simpl.
  pose proof (char_code_nonneg c).
  destruct (Z.geb_spec (char_code c) 0); [|lia].
  now rewrite char_of_code_code.
Qed.

(** [GetChar] takes the head of the pending input, and leaves the
    pushback slot empty. *)
Lemma GetChar_pending (p : Parser) :
  match pending p with
  | [] => GetChar p = (1, kNUL, p)
  | Got c :: rest =>
      exists u, u < 0 /\ GetChar p = (0, c, mkParser rest u)
  | Eof k :: rest =>
      exists u, u < 0 /\ GetChar p = (Z.pos k, kNUL, mkParser rest u)
  | Failure k :: rest =>
      exists u, u < 0 /\ GetChar p = (Z.neg k, kNUL, mkParser rest u)
  end.
Proof.
  destruct p as [r u]. unfold pending, GetChar. simpl.
  destruct (Z.geb_spec u 0) as [Hu|Hu].
  - exists (-1). split; [lia | reflexivity].
  - destruct r as [|[c|k|k] r]; simpl; [reflexivity| | |];
      exists u; (split; [lia | reflexivity]).
Qed.

Lemma GetChar_Got (p : Parser) (c : ascii) (rest : list outcome) :
  pending p = Got c :: rest ->
  exists u, u < 0 /\ GetChar p = (0, c, mkParser rest u).
Proof. intros H. pose proof (GetChar_pending p) as G. now rewrite H in G. Qed.

Lemma GetChar_at_eos (p : Parser) :
  at_eos (pending p) = true ->
  exists e c u, 0 < e /\ u < 0 /\
                GetChar p = (e, c, mkParser (tl (pending p)) u).
Proof.
  intros H. pose proof (GetChar_pending p) as G.
  destruct (pending p) as [|[c|k|k] rest] eqn:E; try discriminate.
  - destruct p as [r u]. unfold pending in E. simpl in E.
    destruct (Z.geb_spec u 0); [discriminate|]. subst r.
    exists 1, kNUL, u. split; [lia | split; [assumption | exact G]].
  - destruct G as (u & Hu & G). exists (Z.pos k), kNUL, u.
    split; [lia | split; [assumption | exact G]].
Qed.

(** ** Parser::ParseBOM *)

(** C7: [ParseBOM] succeeds and pushes the first character back when it
    is not the first byte of the BOM (the next [GetChar] delivers it
    again), succeeds having taken the three bytes when the BOM is
    there, and returns the error -1 when the first byte is the BOM's
    and the second or the third byte is not. *)
Theorem ParseBOM_spec (p : Parser) :
  (forall c p1,
      GetChar p = (0, c, p1) -> c <> "239"%char ->
      ParseBOM p = (0, UngetChar c p1) /\
      GetChar (UngetChar c p1) = (0, c, mkParser (reader_ p1) (-1))) /\
  (forall p1 p2 p3,
      GetChar p = (0, "239"%char, p1) ->
      GetChar p1 = (0, "187"%char, p2) ->
      GetChar p2 = (0, "191"%char, p3) ->
      ParseBOM p = (0, p3)) /\
  (forall p1 c2 p2,
      GetChar p = (0, "239"%char, p1) ->
      GetChar p1 = (0, c2, p2) -> c2 <> "187"%char ->
      ParseBOM p = (-1, p2)) /\
  (forall p1 p2 c3 p3,
      GetChar p = (0, "239"%char, p1) ->
      GetChar p1 = (0, "187"%char, p2) ->
      GetChar p2 = (0, c3, p3) -> c3 <> "191"%char ->
      ParseBOM p = (-1, p3)).
Proof.
  unfold ParseBOM, BOM. repeat split.
  - simpl. rewrite H. simpl.
    destruct (Ascii.eqb_spec c "239"%char); [contradiction | reflexivity].
  - unfold GetChar, UngetChar. simpl.
    pose proof (char_code_nonneg c).
    destruct (Z.geb_spec (char_code c) 0); [|lia].
    now rewrite char_of_code_code.
  - intros p1 p2 p3 H1 H2 H3. simpl. rewrite H1. simpl.
    rewrite H2. simpl. rewrite H3. reflexivity.
  - intros p1 c2 p2 H1 H2 Hc. simpl. rewrite H1. simpl. rewrite H2. simpl.
    destruct (Ascii.eqb_spec c2 "187"%char); [contradiction | reflexivity].
  - intros p1 p2 c3 p3 H1 H2 H3 Hc. simpl. rewrite H1. simpl.
    rewrite H2. simpl. rewrite H3. simpl.
    destruct (Ascii.eqb_spec c3 "191"%char); [contradiction | reflexivity].
Qed.

Lemma ParseBOM_spec_witness :
  ParseBOM (Parser_new (reader_of "WEBVTT"))
  = (0, mkParser (reader_of "EBVTT") 87) /\
  ParseBOM (Parser_new (Got "239" :: Got "187" :: Got "191"
                        :: reader_of "WEBVTT"))
  = (0, Parser_new (reader_of "WEBVTT")) /\
  ParseBOM (Parser_new (Got "239" :: reader_of "WEBVTT"))
  = (-1, Parser_new (reader_of "EBVTT")) /\
  ParseBOM (Parser_new (Got "239" :: Got "187" :: reader_of "WEBVTT"))
  = (-1, Parser_new (reader_of "EBVTT")).
Proof.
  split; [|split; [|split]].
  - apply (proj1 (ParseBOM_spec (Parser_new (reader_of "WEBVTT")))
                 "W"%char (Parser_new (reader_of "EBVTT")));
      [reflexivity | discriminate].
  - apply (proj1 (proj2 (ParseBOM_spec _))
                 (Parser_new (Got "187" :: Got "191" :: reader_of "WEBVTT"))
                 (Parser_new (Got "191" :: reader_of "WEBVTT")));
      reflexivity.
  - apply (proj1 (proj2 (proj2 (ParseBOM_spec _)))
                 (Parser_new (reader_of "WEBVTT")) "W"%char);
      [reflexivity | reflexivity | discriminate].
  - apply (proj2 (proj2 (proj2 (ParseBOM_spec _)))
                 (Parser_new (Got "187" :: reader_of "WEBVTT"))
                 (Parser_new (reader_of "WEBVTT")) "W"%char);
      [reflexivity | reflexivity | reflexivity | discriminate].
Defined.

(** ** Parser::ParseLine *)

Lemma push_back_not_empty (line : string) (c : ascii) :
  push_back line c <> EmptyString.
Proof. destruct line; discriminate. Qed.

Lemma append_empty_r (s : string) : (s ++ EmptyString)%string = s.
Proof. induction s as [|c s IH]; simpl; [reflexivity | now rewrite IH]. Qed.

Lemma length_list_ascii (s : string) :
  List.length (list_ascii_of_string s) = String.length s.
Proof. induction s as [|c s IH]; simpl; [reflexivity | now rewrite IH]. Qed.

Lemma pending_length (p : Parser) :
  (List.length (pending p) < read_fuel p)%nat.
Proof.
  unfold pending, read_fuel. destruct (unget_ p >=? 0); simpl; lia.
Qed.

(** [GetChar] never lengthens the pending input, shortens it by one
    when it delivers a character, and leaves the pushback slot empty. *)
Lemma GetChar_length (p : Parser) (e : Z) (c : ascii) (p' : Parser) :
  GetChar p = (e, c, p') ->
  unget_ p' < 0 /\
  (List.length (pending p') <= List.length (pending p))%nat /\
  (e = 0 -> S (List.length (pending p')) = List.length (pending p)).
Proof.
  intros G. pose proof (GetChar_pending p) as S.
  destruct (pending p) as [|[d|k|k] rest] eqn:E.
  - rewrite G in S. injection S as -> _ ->.
    destruct p as [r u]. unfold pending in E |- *. simpl in *.
    destruct (Z.geb_spec u 0); [discriminate|]. subst r. simpl.
    repeat split; try lia; try discriminate.
  - destruct S as (u & Hu & S). rewrite G in S. injection S as -> -> ->.
    rewrite pending_empty_slot by assumption. simpl. repeat split; lia.
  - destruct S as (u & Hu & S). rewrite G in S. injection S as -> -> ->.
    rewrite pending_empty_slot by assumption. simpl.
    repeat split; try lia; try discriminate.
  - destruct S as (u & Hu & S). rewrite G in S. injection S as -> -> ->.
    rewrite pending_empty_slot by assumption. simpl.
    repeat split; try lia; try discriminate.
Qed.

Lemma ParseLineTerminator_length (c : ascii) (p : Parser) (e : Z)
  (p' : Parser) :
  unget_ p < 0 ->
  ParseLineTerminator c p = (e, p') ->
  (List.length (pending p') <= List.length (pending p))%nat.
Proof.
  intros Hu. unfold ParseLineTerminator.
  destruct (c =? kLF)%char; [intros R; injection R as _ <-; lia|].
  destruct (negb (c =? kCR)%char); [intros R; injection R as _ <-; lia|].
  destruct (GetChar p) as [[e0 c0] p0] eqn:G.
  destruct (GetChar_length _ _ _ _ G) as (Hu0 & Hle & Heq).
  destruct (Z.ltb_spec e0 0); [intros R; injection R as _ <-; lia|].
  destruct (Z.gtb_spec e0 0); [intros R; injection R as _ <-; lia|].
  destruct (c0 =? kLF)%char; [intros R; injection R as _ <-; lia|].
  intros R; injection R as _ <-.
  rewrite pending_UngetChar. simpl.
  specialize (Heq ltac:(lia)).
  destruct p0 as [r0 u0]. simpl in Hu0.
  rewrite pending_empty_slot in Heq by assumption. simpl. lia.
Qed.

(** [ParseLine] consumes input whenever it returns 0. *)
Lemma ParseLine_loop_progress :
  forall fuel p line e l p',
    ParseLine_loop fuel p line = Some (e, l, p') ->
    (List.length (pending p') <= List.length (pending p))%nat /\
    (e = 0 -> line = EmptyString ->
     (List.length (pending p') < List.length (pending p))%nat).
Proof.
  induction fuel as [|fuel IH]; intros p line e l p' H; simpl in H;
    [discriminate|].
  destruct (GetChar p) as [[e0 c0] p0] eqn:G.
  destruct (GetChar_length _ _ _ _ G) as (Hu0 & Hle & Heq).
  destruct (Z.ltb_spec e0 0) as [Hneg|Hnn].
  { injection H as <- _ <-. split; [assumption | lia]. }
  destruct (Z.gtb_spec e0 0) as [Hpos|Hnp].
  { injection H as <- _ <-. split; [assumption|].
    intros He Hline. subst line. discriminate. }
  specialize (Heq ltac:(lia)).
  destruct ((c0 =? kLF)%char || (c0 =? kCR)%char).
  - destruct (ParseLineTerminator c0 p0) as [e1 p1] eqn:T.
    pose proof (ParseLineTerminator_length _ _ _ _ Hu0 T) as Hle1.
    destruct (e1 <? 0); injection H as <- _ <-; split; lia.
  - apply IH in H as [Hle2 _]. split; lia.
Qed.

Lemma ParseLine_progress (p : Parser) (l : string) (p' : Parser) :
  ParseLine p = Some (0, l, p') ->
  (List.length (pending p') < List.length (pending p))%nat.
Proof.
  intros H. apply ParseLine_loop_progress in H as [_ H].
  now apply H.
Qed.

(** A positive status only arises at the end of the stream, with
    nothing accumulated. *)
Lemma ParseLine_loop_eos :
  forall fuel p line e l p',
    ParseLine_loop fuel p line = Some (e, l, p') -> 0 < e ->
    e = 1 /\ l = EmptyString /\ line = EmptyString /\
    at_eos (pending p) = true.
Proof.
  induction fuel as [|fuel IH]; intros p line e l p' H He; simpl in H;
    [discriminate|].
  destruct (GetChar p) as [[e0 c0] p0] eqn:G.
  destruct (Z.ltb_spec e0 0) as [Hneg|Hnn].
  { injection H as <- _ _. lia. }
  destruct (Z.gtb_spec e0 0) as [Hpos|Hnp].
  { destruct line; simpl in H; injection H as <- <- _; [|lia].
    repeat split.
    pose proof (GetChar_pending p) as S. rewrite G in S.
    destruct (pending p) as [|[d|k|k] rest]; try reflexivity.
    - destruct S as (u & _ & S). injection S as -> _ _. lia.
    - destruct S as (u & _ & S). injection S as -> _ _. lia. }
  destruct ((c0 =? kLF)%char || (c0 =? kCR)%char).
  - destruct (ParseLineTerminator c0 p0) as [e1 p1].
    destruct (Z.ltb_spec e1 0); injection H as <- _ _; lia.
  - apply IH in H as (_ & _ & Hpb & _); [|assumption].
    now apply push_back_not_empty in Hpb.
Qed.

(** A text without line terminators that runs to the end of the
    stream is the line returned. *)
Lemma ParseLine_loop_text (text : string) :
  forall fuel line p tail,
    pending p = map Got (list_ascii_of_string text) ++ tail ->
    no_eol text = true -> at_eos tail = true ->
    (String.length text < fuel)%nat ->
    exists u,
      u < 0 /\
      ParseLine_loop fuel p line
      = Some (if empty (line ++ text) then 1 else 0, (line ++ text)%string,
              mkParser (tl tail) u).
Proof.
  induction text as [|c text IH]; intros fuel line p tail Hp Hne Heos Hfuel;
    (destruct fuel as [|fuel]; [simpl in Hfuel; lia|]); simpl ParseLine_loop.
  - simpl in Hp. rewrite <- Hp in Heos |- *.
    destruct (GetChar_at_eos p Heos) as (e & d & u & He & Hu & ->).
    destruct (Z.ltb_spec e 0); [lia|]. destruct (Z.gtb_spec e 0); [|lia].
    exists u. rewrite append_empty_r. split; [assumption | reflexivity].
  - simpl in Hp, Hne. apply andb_true_iff in Hne as [Hc Hne].
    destruct (GetChar_Got p _ _ Hp) as (u & Hu & ->). simpl.
    unfold is_eol in Hc. apply negb_true_iff in Hc. rewrite Hc.
    destruct (IH fuel (push_back line c) (mkParser _ u) tail
                (pending_empty_slot _ u Hu) Hne Heos
                ltac:(simpl in Hfuel; lia)) as (u' & Hu' & ->).
    exists u'. rewrite push_back_app. split; [assumption | reflexivity].
Qed.

Lemma ParseLine_eos_only (p : Parser) (e : Z) (line : string) (p' : Parser) :
  ParseLine p = Some (e, line, p') -> 0 < e ->
  e = 1 /\ line = EmptyString /\ at_eos (pending p) = true.
Proof.
  intros H He. unfold ParseLine in H.
  apply ParseLine_loop_eos in H; [|assumption]. tauto.
Qed.

Lemma ParseLine_at_eos (p : Parser) :
  at_eos (pending p) = true ->
  exists p', ParseLine p = Some (1, EmptyString, p') /\
             pending p' = tl (pending p).
Proof.
  intros Heos. unfold ParseLine.
  destruct (ParseLine_loop_text EmptyString (read_fuel p) EmptyString p
              (pending p) eq_refl eq_refl Heos
              ltac:(unfold read_fuel; simpl; lia))
    as (u & Hu & ->).
  eexists. split; [reflexivity|]. now apply pending_empty_slot.
Qed.

Lemma ParseLine_text (p : Parser) (text : string) (tail : list outcome) :
  pending p = map Got (list_ascii_of_string text) ++ tail ->
  text <> EmptyString -> no_eol text = true -> at_eos tail = true ->
  exists p', ParseLine p = Some (0, text, p') /\ pending p' = tl tail.
Proof.
  intros Hp Hne Hno Heos. unfold ParseLine.
  assert (Hfuel : (String.length text < read_fuel p)%nat).
  { pose proof (pending_length p) as L. rewrite Hp in L.
    rewrite List.length_app, List.length_map, length_list_ascii in L. lia. }
  destruct (ParseLine_loop_text text (read_fuel p) EmptyString p tail
              Hp Hno Heos Hfuel) as (u & Hu & ->).
  simpl append. destruct text; [contradiction|]. simpl.
  eexists. split; [reflexivity|]. now apply pending_empty_slot.
Qed.

(** C8: [ParseLine] returns the end-of-stream status 1 only when the
    stream ends with nothing accumulated, and does so then; when the
    stream ends after at least one character of the line was read, it
    returns 0 with the line accumulated. *)
Theorem ParseLine_end_of_stream :
  (forall p e line p',
      ParseLine p = Some (e, line, p') -> 0 < e ->
      e = 1 /\ line = EmptyString /\ at_eos (pending p) = true) /\
  (forall p,
      at_eos (pending p) = true ->
      exists p', ParseLine p = Some (1, EmptyString, p') /\
                 pending p' = tl (pending p)) /\
  (forall p text tail,
      pending p = map Got (list_ascii_of_string text) ++ tail ->
      text <> EmptyString -> no_eol text = true -> at_eos tail = true ->
      exists p', ParseLine p = Some (0, text, p') /\ pending p' = tl tail).
Proof.
  split; [exact ParseLine_eos_only|].
  split; [exact ParseLine_at_eos | exact ParseLine_text].
Qed.

Lemma ParseLine_end_of_stream_witness :
  (exists p', ParseLine (mkParser (reader_of "ello") 72)
              = Some (0, "Hello"%string, p') /\ pending p' = []) /\
  (exists p', ParseLine (Parser_new []) = Some (1, EmptyString, p') /\
              pending p' = []).
Proof.
  split.
  - apply (proj2 (proj2 ParseLine_end_of_stream)
                 (mkParser (reader_of "ello") 72) "Hello"%string []);
      [reflexivity | discriminate | reflexivity | reflexivity].
  - apply (proj1 (proj2 ParseLine_end_of_stream) (Parser_new []));
      reflexivity.
Defined.

(** ** Parser::Parse *)

(** C10: with a null cue pointer [Parse] returns the error -1 at once;
    the reader is not asked for a character and the pushback slot is
    as it was. *)
Theorem Parse_null_cue :
  forall p : Parser, Parse None p = Some (-1, None, p).
Proof. intros p. reflexivity. Qed.

(** *** Streams of blank lines *)

Lemma map_Eof_at_eos (ks : list positive) : at_eos (map Eof ks) = true.
Proof. destruct ks; reflexivity. Qed.

Lemma ParseLine_blank (p : Parser) :
  blank_stream p ->
  exists e p',
    ParseLine p = Some (e, EmptyString, p') /\ (e = 0 \/ e = 1) /\
    blank_stream p'.
Proof.
  intros (cs & ks & Hp & Hcs). destruct cs as [|c cs].
  - simpl in Hp.
    destruct (ParseLine_at_eos p) as (p' & H & Hp').
    { rewrite Hp. apply map_Eof_at_eos. }
    exists 1, p'. split; [assumption|]. split; [now right|].
    exists [], (tl ks). rewrite Hp', Hp. split; [|reflexivity].
    destruct ks; reflexivity.
  - simpl in Hp, Hcs. apply andb_true_iff in Hcs as [Hc Hcs].
    unfold ParseLine, read_fuel. simpl ParseLine_loop.
    destruct (GetChar_Got p _ _ Hp) as (u & Hu & ->). simpl.
    unfold is_eol in Hc. rewrite Hc.
    set (p0 := mkParser (map Got cs ++ map Eof ks) u).
    assert (Hp0 : pending p0 = map Got cs ++ map Eof ks)
      by now apply pending_empty_slot.
    unfold ParseLineTerminator.
    destruct (c =? kLF)%char eqn:Hlf.
    { exists 0, p0. split; [reflexivity|]. split; [now left|].
      now exists cs, ks. }
    simpl in Hc. rewrite Hc. simpl negb. cbv iota.
    pose proof (GetChar_pending p0) as G. rewrite Hp0 in G.
    destruct cs as [|c2 cs]; [destruct ks as [|k ks]|]; simpl in G.
    + rewrite G. simpl. exists 0, p0. split; [reflexivity|].
      split; [now left|]. now exists [], [].
    + destruct G as (u' & Hu' & ->). simpl.
      exists 0, (mkParser (map Eof ks) u'). split; [reflexivity|].
      split; [now left|]. exists [], ks.
      split; [now apply pending_empty_slot | reflexivity].
    + destruct G as (u' & Hu' & ->). simpl.
      simpl in Hcs. apply andb_true_iff in Hcs as [Hc2 Hcs].
      destruct (c2 =? kLF)%char.
      * exists 0, (mkParser (map Got cs ++ map Eof ks) u').
        split; [reflexivity|]. split; [now left|]. exists cs, ks.
        split; [now apply pending_empty_slot | assumption].
      * eexists 0, _. split; [reflexivity|]. split; [now left|].
        exists (c2 :: cs), ks. rewrite pending_UngetChar. simpl.
        split; [reflexivity|]. now rewrite Hc2.
Qed.

Lemma Parse_first_line_blank :
  forall fuel p,
    blank_stream p -> (List.length (pending p) < fuel)%nat ->
    exists p',
      Parse_first_line fuel p = Some (1, EmptyString, p') /\
      blank_stream p'.
Proof.
  induction fuel as [|fuel IH]; intros p B Hfuel; [lia|].
  destruct (ParseLine_blank p B) as (e & p' & H & [->| ->] & B').
  - simpl. rewrite H. simpl. apply IH; [assumption|].
    apply ParseLine_progress in H. lia.
  - simpl. rewrite H. simpl. now exists p'.
Qed.

Lemma Parse_blank (cue : Cue) (p : Parser) :
  blank_stream p ->
  exists p', Parse (Some cue) p = Some (1, Some cue, p') /\ blank_stream p'.
Proof.
  intros B.
  destruct (Parse_first_line_blank (read_fuel p) p B (pending_length p))
    as (p' & H & B').
  exists p'. unfold Parse. rewrite H. simpl. now split.
Qed.

(** C9: on a stream that holds only blank lines before its end, every
    call of [Parse] with a cue record returns the end-of-stream status
    1, not an error, and leaves the record as it was; this holds for
    every number of successive calls. *)
Theorem Parse_blank_stream (p : Parser) :
  blank_stream p ->
  forall n cue,
    exists p', Parse_calls n cue p = Some (repeat 1 n, cue, p').
Proof.
  intros B n. revert p B.
  induction n as [|n IH]; intros p B cue; cbn [Parse_calls repeat].
  - now exists p.
  - destruct (Parse_blank cue p B) as (p1 & -> & B1).
    destruct (IH p1 B1 cue) as (p' & ->). now exists p'.
Qed.

Lemma Parse_blank_stream_witness :
  let p := Parser_new (map Got [kLF; kCR; kLF; kCR; kCR]) in
  let cue := mkCue "c1" (mkTime 0 0 1 0) (mkTime 0 0 2 0) [] ["text"%string] in
  blank_stream p /\
  exists p', Parse_calls 3 cue p = Some ([1; 1; 1], cue, p').
Proof.
  intros p cue.
  assert (B : blank_stream p).
  { exists [kLF; kCR; kLF; kCR; kCR], []. split; reflexivity. }
  split; [exact B|].
  exact (Parse_blank_stream p B 3%nat cue).
Defined.

(** *** Cue blocks without payload *)

Lemma Parse_first_line_finds (p : Parser) (line : string) (p1 : Parser) :
  first_line p line p1 ->
  forall fuel,
    (List.length (pending p) < fuel)%nat ->
    Parse_first_line fuel p = Some (0, line, p1).
Proof.
  induction 1 as [p line p1 H Hne | p p0 line p1 H _ IH];
    intros fuel Hfuel; (destruct fuel as [|fuel]; [lia|]); simpl; rewrite H;
    simpl.
  - destruct line; [contradiction | reflexivity].
  - apply IH. apply ParseLine_progress in H. lia.
Qed.

Lemma Parse_timings_no_payload (cue : Cue) (line : string) (off : N)
  (p : Parser) (st sp : Time) (ss : list Setting) (e : Z) (pf : Parser) :
  ParseTimingsLine line off (start_time cue) (stop_time cue) (settings cue)
  = Some (0, st, sp, ss) ->
  ParseLine p = Some (e, EmptyString, pf) -> 0 <= e ->
  Parse_timings cue line off p
  = Some (-1, mkCue (identifier cue) st sp ss [], pf).
Proof.
  intros HT HL He. unfold Parse_timings. rewrite HT. simpl.
  unfold read_fuel. simpl Parse_payload. rewrite HL.
  destruct (Z.ltb_spec e 0); [lia|]. reflexivity.
Qed.

(** C6: a cue block whose timings line parses, and which is followed at
    once by a blank line or by the end of the stream, makes [Parse]
    return the error -1. *)
Theorem Parse_without_payload (cue : Cue) (p : Parser) (ident line : string)
  (p2 : Parser) (st sp : Time) (ss : list Setting) (e : Z) (pf : Parser) :
  cue_head p ident line p2 ->
  ParseTimingsLine line (string_find line "-->" 0)
                   (start_time cue) (stop_time cue) (settings cue)
  = Some (0, st, sp, ss) ->
  ParseLine p2 = Some (e, EmptyString, pf) -> 0 <= e ->
  Parse (Some cue) p = Some (-1, Some (mkCue ident st sp ss []), pf).
Proof.
  intros Hhead HT HL He. unfold Parse.
  destruct Hhead as [p line p1 Hfirst Harrow
                    | p ident p1 line p2 Hfirst Hnone Hline Harrow];
    rewrite (Parse_first_line_finds _ _ _ Hfirst _ (pending_length p));
    simpl.
  - destruct (N.eqb_spec (string_find line "-->" 0) npos); [contradiction|].
    simpl.
    rewrite (Parse_timings_no_payload _ line _ p1 st sp ss e pf);
      [reflexivity | exact HT | exact HL | exact He].
  - rewrite Hnone. simpl. rewrite Hline. simpl.
    destruct (N.eqb_spec (string_find line "-->" 0) npos); [contradiction|].
    rewrite (Parse_timings_no_payload _ line _ p2 st sp ss e pf);
      [reflexivity | exact HT | exact HL | exact He].
Qed.

Lemma Parse_without_payload_witness :
  Parse (Some sample_cue) (Parser_new (reader_of sample_block))
  = Some (-1,
          Some (mkCue "cue-1" (mkTime 0 0 1 500) (mkTime 0 0 2 0)
                      [mkSetting "align" "start"] []),
          Parser_new (reader_of "next")).
Proof.
  apply (Parse_without_payload sample_cue
           (Parser_new (reader_of sample_block))
           "cue-1" sample_timings
           (Parser_new (reader_of sample_after_timings))
           (mkTime 0 0 1 500) (mkTime 0 0 2 0) [mkSetting "align" "start"]
           0 (Parser_new (reader_of "next"))).
  - apply (head_identifier _ "cue-1"
             (Parser_new (reader_of sample_after_identifier))).
    + apply (first_skip _
               (Parser_new
                  (reader_of ("cue-1" ++ String kCR
                                (String kLF sample_after_identifier)))));
        [reflexivity|].
      apply first_here; [reflexivity | discriminate].
    + reflexivity.
    + reflexivity.
    + discriminate.
  - reflexivity.
  - reflexivity.
  - lia.
Defined.

(** The sample of the specification: a header, a cue with two settings
    and one payload line. *)
Lemma Parse_hello_world :
  let text :=
    ("WEBVTT" ++ String kLF (String kLF
       ("00:00:01.000 --> 00:00:02.500 align:middle line:90%"
          ++ String kLF ("Hello world" ++ String kLF EmptyString))))%string in
  exists p,
    Init (Parser_new (reader_of text)) = Some (0, p) /\
    Parse (Some sample_cue) p
    = Some (0,
            Some (mkCue EmptyString (mkTime 0 0 1 0) (mkTime 0 0 2 500)
                        [mkSetting "align" "middle"; mkSetting "line" "90%"]
                        ["Hello world"%string]),
            Parser_new []).
Proof. cbv zeta. eexists. split; reflexivity. Qed.

(** ** Every call returns

    The counters of the loops are large enough: no function of the
    model runs out of them. *)

Lemma ParseLine_loop_total :
  forall fuel p line,
    (List.length (pending p) < fuel)%nat ->
    exists r, ParseLine_loop fuel p line = Some r.
Proof.
  induction fuel as [|fuel IH]; intros p line Hfuel; [lia|]. simpl.
  destruct (GetChar p) as [[e0 c0] p0] eqn:G.
  destruct (GetChar_length _ _ _ _ G) as (_ & _ & Heq).
  destruct (Z.ltb_spec e0 0); [eauto|].
  destruct (Z.gtb_spec e0 0); [eauto|].
  destruct (_ || _).
  - destruct (ParseLineTerminator c0 p0) as [e1 p1].
    destruct (e1 <? 0); eauto.
  - apply IH. specialize (Heq ltac:(lia)). lia.
Qed.

Lemma ParseLine_total (p : Parser) : exists r, ParseLine p = Some r.
Proof. apply ParseLine_loop_total, pending_length. Qed.

Lemma Parse_first_line_total :
  forall fuel p,
    (List.length (pending p) < fuel)%nat ->
    exists r, Parse_first_line fuel p = Some r.
Proof.
  induction fuel as [|fuel IH]; intros p Hfuel; [lia|]. simpl.
  destruct (ParseLine_total p) as [[[e l] p'] H]. rewrite H.
  destruct (Z.eqb_spec e 0) as [->|]; simpl; [|eauto].
  destruct (negb (empty l)); [eauto|].
  apply IH. apply ParseLine_progress in H. lia.
Qed.

Lemma Parse_payload_total :
  forall fuel p pl,
    (List.length (pending p) < fuel)%nat ->
    exists r, Parse_payload fuel p pl = Some r.
Proof.
  induction fuel as [|fuel IH]; intros p pl Hfuel; [lia|]. simpl.
  destruct (ParseLine_total p) as [[[e l] p'] H]. rewrite H.
  destruct (Z.ltb_spec e 0); [eauto|].
  destruct l as [|c l]; simpl; [eauto|].
  apply IH.
  destruct (Z.eqb_spec e 0) as [->|].
  - apply ParseLine_progress in H. lia.
  - apply ParseLine_eos_only in H as (_ & Hl & _); [discriminate | lia].
Qed.

Lemma not_NUL_in_line (line : string) (idx : N) :
  (char_at line idx =? kNUL)%char = false -> (idx < strlen line)%N.
Proof.
  intros H. apply char_at_in_line. intros E. rewrite E in H. discriminate.
Qed.

Lemma settings_blanks_total (line : string) :
  forall fuel idx,
    covers fuel line idx ->
    exists b idx',
      settings_blanks fuel line idx = Some (b, idx') /\ (idx <= idx')%N /\
      (b = false -> (idx' < strlen line)%N).
Proof.
  induction fuel as [|fuel IH]; intros idx Hc; [destruct Hc; lia|]. simpl.
  destruct (char_at line idx =? kNUL)%char eqn:Hn.
  { exists true, idx. repeat split; [lia | discriminate]. }
  apply not_NUL_in_line in Hn.
  destruct (_ && _).
  { exists false, idx. repeat split; [lia | auto]. }
  destruct (IH (idx + 1)%N (covers_step _ _ _ Hc Hn)) as (b & i & -> & Hi & Hb).
  exists b, i. repeat split; [lia | assumption].
Qed.

Lemma timings_junk_total (line : string) :
  forall fuel idx,
    covers fuel line idx -> exists r, timings_junk fuel line idx = Some r.
Proof.
  induction fuel as [|fuel IH]; intros idx Hc; [destruct Hc; lia|]. simpl.
  destruct (char_at line idx =? kNUL)%char eqn:Hn; [eauto|].
  apply not_NUL_in_line in Hn.
  destruct (_ && _); [eauto|]. apply IH, covers_step; assumption.
Qed.

Lemma settings_name_total (line : string) :
  forall fuel idx nm,
    covers fuel line idx ->
    exists ok idx' nm',
      settings_name fuel line idx nm = Some (ok, idx', nm') /\
      (idx <= idx')%N.
Proof.
  induction fuel as [|fuel IH]; intros idx nm Hc; [destruct Hc; lia|]. simpl.
  destruct (char_at line idx =? ":")%char.
  { exists true, idx, nm. split; [reflexivity | lia]. }
  destruct (char_at line idx =? kNUL)%char eqn:Hn; simpl.
  { exists false, idx, nm. split; [reflexivity | lia]. }
  apply not_NUL_in_line in Hn.
  destruct (_ || _).
  { exists false, idx, nm. split; [reflexivity | lia]. }
  destruct (IH (idx + 1)%N (push_back nm (char_at line idx))
               (covers_step _ _ _ Hc Hn)) as (ok & i & nm' & -> & Hi).
  exists ok, i, nm'. split; [reflexivity | lia].
Qed.

Lemma settings_value_total (line : string) :
  forall fuel idx v,
    covers fuel line idx ->
    exists ok idx' v',
      settings_value fuel line idx v = Some (ok, idx', v') /\
      (idx <= idx')%N.
Proof.
  induction fuel as [|fuel IH]; intros idx v Hc; [destruct Hc; lia|]. simpl.
  destruct (char_at line idx =? kNUL)%char eqn:Hn; simpl.
  { exists true, idx, v. split; [reflexivity | lia]. }
  apply not_NUL_in_line in Hn.
  destruct (_ || _).
  { exists true, idx, v. split; [reflexivity | lia]. }
  destruct (char_at line idx =? ":")%char.
  { exists false, idx, v. split; [reflexivity | lia]. }
  destruct (IH (idx + 1)%N (push_back v (char_at line idx))
               (covers_step _ _ _ Hc Hn)) as (ok & i & v' & -> & Hi).
  exists ok, i, v'. split; [reflexivity | lia].
Qed.

Lemma ParseSettings_loop_total (line : string) :
  forall fuel idx done,
    covers fuel line idx ->
    exists r, ParseSettings_loop fuel line idx done = Some r.
Proof.
  induction fuel as [|fuel IH]; intros idx done Hc; [destruct Hc; lia|].
  cbn [ParseSettings_loop].
  destruct (settings_blanks_total line _ idx (covers_start line idx))
    as (b & i1 & -> & Hi1 & Hb).
  destruct b; [eauto|]. specialize (Hb eq_refl).
  destruct (settings_name_total line _ i1 EmptyString (covers_start line i1))
    as (ok & i2 & nm & -> & Hi2).
  destruct ok; cbn [negb]; [|eauto].
  destruct (empty nm); [eauto|].
  destruct (settings_value_total line _ (i2 + 1)%N EmptyString
              (covers_start line _)) as (ok & i3 & v & -> & Hi3).
  destruct ok; cbn [negb]; [|eauto].
  destruct (empty v); [eauto|].
  apply IH. unfold covers in *. lia.
Qed.

Lemma ParseSettings_total (line : string) (idx : N) (old : list Setting) :
  exists r, ParseSettings line idx old = Some r.
Proof.
  unfold ParseSettings. destruct (_ || _); [eauto|].
  apply ParseSettings_loop_total, covers_start.
Qed.

Lemma ParseTimingsLine_total (line : string) (arrow_pos : N)
  (start_time stop_time : Time) (settings : list Setting) :
  exists r,
    ParseTimingsLine line arrow_pos start_time stop_time settings = Some r.
Proof.
  unfold ParseTimingsLine. destruct (_ || _); [eauto|].
  destruct (ParseTime_total (set_char line arrow_pos kNUL) 0 start_time)
    as [[[e i] t] ->].
  destruct (negb (e =? 0)); [eauto|].
  destruct (timings_junk_total (set_char line arrow_pos kNUL) _ i
              (covers_start _ i)) as [[junk j] ->].
  destruct junk; [eauto|].
  destruct (ParseTime_total (push_back (set_char line arrow_pos kNUL) kNUL)
              (arrow_pos + 3) stop_time) as [[[e2 i2] t2] ->].
  destruct (negb (e2 =? 0)); [eauto|].
  destruct (ParseSettings_total
              (push_back (set_char line arrow_pos kNUL) kNUL) i2 settings)
    as [[e3 ss] ->].
  destruct (negb (e3 =? 0)); eauto.
Qed.

Lemma Parse_timings_total (cue : Cue) (line : string) (off : N)
  (p : Parser) :
  exists r, Parse_timings cue line off p = Some r.
Proof.
  unfold Parse_timings.
  destruct (ParseTimingsLine_total line off (start_time cue) (stop_time cue)
              (settings cue)) as [[[[e st] sp] ss] ->].
  destruct (negb (e =? 0)); [eauto|].
  destruct (Parse_payload_total (read_fuel p) p [] (pending_length p))
    as [[[e2 pl] p2] ->].
  destruct (e2 <? 0); [eauto|]. destruct pl; eauto.
Qed.

(** [Parse] returns on every cue pointer and every parser state. *)
Lemma Parse_total (cue : option Cue) (p : Parser) :
  exists r, Parse cue p = Some r.
Proof.
  destruct cue as [cue|]; [|simpl; eauto]. unfold Parse.
  destruct (Parse_first_line_total (read_fuel p) p (pending_length p))
    as [[[e line] p1] ->].
  destruct (negb (e =? 0)); [eauto|].
  destruct (negb (string_find line "-->" 0 =? npos)%N).
  - match goal with
    | |- context [Parse_timings ?c ?l ?o ?q] =>
        destruct (Parse_timings_total c l o q) as [[[e1 c1] q1] ->]
    end. eauto.
  - destruct (ParseLine_total p1) as [[[e2 line2] p2] ->].
    destruct (negb (e2 =? 0)); [eauto|].
    destruct (string_find line2 "-->" 0 =? npos)%N; [eauto|].
    match goal with
    | |- context [Parse_timings ?c ?l ?o ?q] =>
        destruct (Parse_timings_total c l o q) as [[[e1 c1] q1] ->]
    end. eauto.
Qed.

(** [Init] returns as well. *)
Lemma Init_total (p : Parser) : exists r, Init p = Some r.
Proof.
  unfold Init. destruct (ParseBOM p) as [e p0].
  destruct (e <? 0); [eauto|]. destruct (e >? 0); [eauto|].
  destruct (Init_signature _ p0) as [e1 p1].
  destruct (negb (e1 =? 0)); [eauto|].
  destruct (ParseLine_total p1) as [[[e2 l2] p2] ->].
  destruct (e2 <? 0); [eauto|]. destruct (e2 >? 0); [eauto|].
  destruct (_ && _); [eauto|].
  destruct (ParseLine_total p2) as [[[e3 l3] p3] ->].
  destruct (e3 <? 0); [eauto|]. destruct (e3 >? 0); [eauto|].
  destruct (negb (empty l3)); eauto.
Qed.

(** ** More on Time *)

Lemma Time_eq_iff (a b : Time) : Time_eq a b = true <-> a = b.
Proof.
  unfold Time_eq. destruct a as [h1 m1 s1 ms1], b as [h2 m2 s2 ms2].
  cbn [hours minutes seconds milliseconds].
  destruct (Z.eqb_spec h1 h2); simpl;
    [|split; [discriminate | intros E; inversion E; contradiction]].
  destruct (Z.eqb_spec m1 m2); simpl;
    [|split; [discriminate | intros E; inversion E; contradiction]].
  destruct (Z.eqb_spec s1 s2); simpl;
    [|split; [discriminate | intros E; inversion E; contradiction]].
  rewrite Z.eqb_eq. split; [intros ->; now subst | intros E; now inversion E].
Qed.

Lemma Time_lt_false_iff (a b : Time) :
  Time_lt a b = false <-> ~ (Time_lt a b = true).
Proof. destruct (Time_lt a b); split; congruence. Qed.

Lemma Time_trichotomy (a b : Time) :
  (Time_lt a b = true /\ a <> b /\ Time_lt b a = false) \/
  (Time_lt a b = false /\ a = b /\ Time_lt b a = false) \/
  (Time_lt a b = false /\ a <> b /\ Time_lt b a = true).
Proof.
  rewrite !Time_lt_false_iff, !Time_lt_spec.
  destruct a as [h1 m1 s1 ms1], b as [h2 m2 s2 ms2].
  cbn [hours minutes seconds milliseconds].
  destruct (Z.lt_trichotomy h1 h2) as [?|[->|?]];
    [left; split; [lia|split; [intros E; inversion E; lia | lia]] | |
     right; right; split; [lia|split; [intros E; inversion E; lia | lia]]].
  destruct (Z.lt_trichotomy m1 m2) as [?|[->|?]];
    [left; split; [lia|split; [intros E; inversion E; lia | lia]] | |
     right; right; split; [lia|split; [intros E; inversion E; lia | lia]]].
  destruct (Z.lt_trichotomy s1 s2) as [?|[->|?]];
    [left; split; [lia|split; [intros E; inversion E; lia | lia]] | |
     right; right; split; [lia|split; [intros E; inversion E; lia | lia]]].
  destruct (Z.lt_trichotomy ms1 ms2) as [?|[->|?]];
    [left; split; [lia|split; [intros E; inversion E; lia | lia]] | |
     right; right; split; [lia|split; [intros E; inversion E; lia | lia]]].
  right; left. split; [lia | split; [reflexivity | lia]].
Qed.

(** X1: the comparison operators of [Time] form a total order on all
    values, normalized or not: [<] is irreflexive and transitive,
    exactly one of [a < b], [a == b], [b < a] holds, [==] is equality of
    the four fields, and [<=], [>=] are [<], [>] or [==]. *)
Theorem Time_comparisons_total_order :
  (forall a, Time_lt a a = false) /\
  (forall a b c,
      Time_lt a b = true -> Time_lt b c = true -> Time_lt a c = true) /\
  (forall a b,
      (Time_lt a b = true /\ Time_eq a b = false /\ Time_lt b a = false) \/
      (Time_lt a b = false /\ Time_eq a b = true /\ Time_lt b a = false) \/
      (Time_lt a b = false /\ Time_eq a b = false /\ Time_lt b a = true)) /\
  (forall a b, Time_eq a b = true <-> a = b) /\
  (forall a b, Time_le a b = (Time_lt a b || Time_eq a b)) /\
  (forall a b, Time_ge a b = (Time_gt a b || Time_eq a b)).
Proof.
  assert (Eqf : forall a b, a <> b -> Time_eq a b = false).
  { intros a b H. destruct (Time_eq a b) eqn:E; [|reflexivity].
    now apply Time_eq_iff in E. }
  assert (Eqt : forall a b, a = b -> Time_eq a b = true)
    by (intros a b H; now apply Time_eq_iff).
  split; [|split; [|split; [|split; [|split]]]].
  - intros a. destruct (Time_trichotomy a a) as [(_ & H & _)|[(H & _)|(_ & H & _)]];
      [contradiction | assumption | contradiction].
  - intros a b c. rewrite !Time_lt_spec.
    destruct a as [h1 m1 s1 ms1], b as [h2 m2 s2 ms2], c as [h3 m3 s3 ms3].
    cbn [hours minutes seconds milliseconds]. lia.
  - intros a b.
    destruct (Time_trichotomy a b) as [(H1 & H2 & H3)|[(H1 & H2 & H3)|(H1 & H2 & H3)]];
      [left | right; left | right; right]; auto.
  - exact Time_eq_iff.
  - intros a b. unfold Time_le, Time_gt.
    destruct (Time_trichotomy a b) as [(H1 & H2 & H3)|[(H1 & H2 & H3)|(H1 & H2 & H3)]];
      rewrite H1, H3; simpl; [reflexivity | now rewrite Eqt | now rewrite Eqf].
  - intros a b. unfold Time_ge, Time_gt.
    destruct (Time_trichotomy a b) as [(H1 & H2 & H3)|[(H1 & H2 & H3)|(H1 & H2 & H3)]];
      rewrite H1, H3; simpl; [now rewrite Eqf | now rewrite Eqt | reflexivity].
Qed.

Lemma Time_comparisons_total_order_witness :
  Time_lt (mkTime 0 59 59 999) (mkTime 2 0 0 0) = true.
Proof.
  apply (proj1 (proj2 Time_comparisons_total_order)
               (mkTime 0 59 59 999) (mkTime 1 0 0 0) (mkTime 2 0 0 0));
    reflexivity.
Defined.

(** The values below this bound are the presentation values that the
    setter takes apart without any [int] operation overflowing:
    [1000 * seconds] stays within [INT_MAX]. *)
Lemma presentation_set_small (d : Z) :
  0 <= d < 2147484000 ->
  presentation_set d
  = mkTime (d / 3600000) ((d / 60000) mod 60) ((d / 1000) mod 60)
           (d mod 1000).
Proof.
  intros Hd. unfold presentation_set.
  destruct (Z.ltb_spec d 0); [lia|].
  assert (I : forall z, -2147483648 <= z <= 2147483647 -> to_int z = z).
  { intros z Hz. apply to_int_id. unfold is_int, INT_MIN, INT_MAX. lia. }
  unfold int_mul, int_sub, int_div.
  rewrite (Z.quot_div_nonneg d 1000) by lia.
  rewrite (I (d / 1000)) by (Z.to_euclidean_division_equations; lia).
  rewrite (I (1000 * (d / 1000))) by (Z.to_euclidean_division_equations; lia).
  rewrite (I (d - 1000 * (d / 1000)))
    by (Z.to_euclidean_division_equations; lia).
  rewrite (Z.quot_div_nonneg (d / 1000) 60)
    by (Z.to_euclidean_division_equations; lia).
  rewrite (I (d / 1000 / 60)) by (Z.to_euclidean_division_equations; lia).
  rewrite (I (60 * (d / 1000 / 60)))
    by (Z.to_euclidean_division_equations; lia).
  rewrite (I (d / 1000 - 60 * (d / 1000 / 60)))
    by (Z.to_euclidean_division_equations; lia).
  rewrite (Z.quot_div_nonneg (d / 1000 / 60) 60)
    by (Z.to_euclidean_division_equations; lia).
  rewrite (I (d / 1000 / 60 / 60)) by (Z.to_euclidean_division_equations; lia).
  rewrite (I (60 * (d / 1000 / 60 / 60)))
    by (Z.to_euclidean_division_equations; lia).
  rewrite (I (d / 1000 / 60 - 60 * (d / 1000 / 60 / 60)))
    by (Z.to_euclidean_division_equations; lia).
  f_equal; Z.to_euclidean_division_equations; lia.
Qed.

Lemma presentation_set_normalized (d : Z) :
  0 <= d < 2147484000 ->
  normalized (presentation_set d) /\ presentation (presentation_set d) = d.
Proof.
  intros Hd. rewrite presentation_set_small by assumption.
  unfold normalized, presentation. cbn [hours minutes seconds milliseconds].
  Z.to_euclidean_division_equations; lia.
Qed.

Lemma presentation_roundtrip_small (t : Time) :
  normalized t -> presentation t < 2147484000 ->
  presentation_set (presentation t) = t.
Proof.
  intros Hn Hp. apply presentation_roundtrip; [assumption|].
  destruct t as [h m s ms]. unfold normalized, presentation, INT_MAX in *.
  cbn [hours minutes seconds milliseconds] in *. lia.
Qed.

(** X2: for a presentation value from 0 up to 2147483999 ms, where no
    [int] operation of the setter overflows, [presentation(d)] builds a
    normalized time whose presentation value is [d] again. *)
Theorem presentation_set_inverse (d : Z) :
  0 <= d < 2147484000 ->
  normalized (presentation_set d) /\ presentation (presentation_set d) = d.
Proof. exact (presentation_set_normalized d). Qed.

Lemma presentation_set_inverse_witness :
  normalized (presentation_set 3723500) /\
  presentation (presentation_set 3723500) = 3723500.
Proof. apply (presentation_set_inverse 3723500). lia. Defined.

(** X3: a normalized time below 2147484000 ms (596 h 31 min 24 s) is
    rebuilt from its presentation value: the round trip holds in the
    range where no [int] operation overflows. *)
Theorem presentation_roundtrip_in_range (t : Time) :
  normalized t -> presentation t < 2147484000 ->
  presentation_set (presentation t) = t.
Proof. exact (presentation_roundtrip_small t). Qed.

Lemma presentation_roundtrip_in_range_witness :
  presentation_set (presentation (mkTime 596 31 23 999))
  = mkTime 596 31 23 999.
Proof.
  apply (presentation_roundtrip_in_range (mkTime 596 31 23 999)).
  - unfold normalized; simpl; lia.
  - vm_compute; reflexivity.
Defined.



(** X5: adding a delay and subtracting it again gives the time back, and
    so does subtracting first, for a normalized time and an
    intermediate result in the range of X2. *)
Theorem Time_add_sub_cancel (t : Time) (d : Z) :
  normalized t -> presentation t < 2147484000 ->
  (0 <= presentation t + d < 2147484000 ->
   Time_sub_assign (Time_add t d) d = t) /\
  (0 <= presentation t - d < 2147484000 ->
   Time_add (Time_sub_assign t d) d = t).
Proof.
  intros Hn Ht.
  unfold Time_sub_assign, Time_add, Time_add_assign. cbv zeta.
  split; intros Hd.
  - destruct (presentation_set_normalized _ Hd) as [_ ->].
    replace (presentation t + d + - d) with (presentation t) by lia.
    now apply presentation_roundtrip_small.
  - assert (Hd' : 0 <= presentation t + - d < 2147484000) by lia.
    destruct (presentation_set_normalized _ Hd') as [_ ->].
    replace (presentation t + - d + d) with (presentation t) by lia.
    now apply presentation_roundtrip_small.
Qed.

Lemma Time_add_sub_cancel_witness :
  Time_sub_assign (Time_add (mkTime 1 2 3 4) 5000000) 5000000
  = mkTime 1 2 3 4 /\
  Time_add (Time_sub_assign (mkTime 1 2 3 4) 3000000) 3000000
  = mkTime 1 2 3 4.
Proof.
  assert (Hn : normalized (mkTime 1 2 3 4)) by (unfold normalized; simpl; lia).
  assert (Ht : presentation (mkTime 1 2 3 4) < 2147484000)
    by (vm_compute; reflexivity).
  split.
  - apply (proj1 (Time_add_sub_cancel (mkTime 1 2 3 4) 5000000 Hn Ht)).
    vm_compute. split; [discriminate | reflexivity].
  - apply (proj2 (Time_add_sub_cancel (mkTime 1 2 3 4) 3000000 Hn Ht)).
    vm_compute. split; [discriminate | reflexivity].
Defined.

(** ** More on the character and line layer *)

(** X6: a character pushed back is the next one delivered: [GetChar]
    after [UngetChar c] returns [c] with status 0, empties the pushback
    slot and leaves the reader untouched. *)
Theorem GetChar_UngetChar :
  forall (c : ascii) (p : Parser),
    GetChar (UngetChar c p) = (0, c, mkParser (reader_ p) (-1)).
Proof.
  intros c p. unfold GetChar, UngetChar. simpl.
  pose proof (char_code_nonneg c).
  destruct (Z.geb_spec (char_code c) 0); [|lia].
  now rewrite char_of_code_code.
Qed.

(** The three cases of a [GetChar]. *)
Lemma GetChar_inv (p : Parser) (e : Z) (c : ascii) (p' : Parser) :
  GetChar p = (e, c, p') ->
  unget_ p' < 0 /\
  ((e = 0 /\ pending p = Got c :: pending p') \/
   (0 < e /\ at_eos (pending p) = true /\ pending p' = tl (pending p)) \/
   (exists k, e = Z.neg k /\ pending p = Failure k :: pending p')).
Proof.
  intros G. pose proof (GetChar_pending p) as S.
  destruct (pending p) as [|[d|k|k] rest] eqn:E.
  - rewrite G in S. injection S as -> _ ->.
    destruct p as [r u]. unfold pending in E. simpl in *.
    destruct (Z.geb_spec u 0); [discriminate|].
    split; [assumption|]. right; left.
    unfold pending; simpl. destruct (Z.geb_spec u 0); [lia|].
    rewrite E. split; [lia | split; reflexivity].
  - destruct S as (u & Hu & S). rewrite G in S. injection S as -> -> ->.
    rewrite pending_empty_slot by assumption. simpl. split; [assumption|].
    left. now split.
  - destruct S as (u & Hu & S). rewrite G in S. injection S as -> _ ->.
    rewrite pending_empty_slot by assumption. simpl. split; [assumption|].
    right; left. split; [lia | split; reflexivity].
  - destruct S as (u & Hu & S). rewrite G in S. injection S as -> _ ->.
    rewrite pending_empty_slot by assumption. simpl. split; [assumption|].
    right; right. exists k. now split.
Qed.

Lemma pending_slot_empty (p : Parser) : unget_ p < 0 -> pending p = reader_ p.
Proof.
  intros H. unfold pending. destruct (Z.geb_spec (unget_ p) 0); [lia|].
  reflexivity.
Qed.

(** [ParseLineTerminator] on a terminator consumes it. *)
Lemma ParseLineTerminator_line_end (c : ascii) (p : Parser)
  (rest : list outcome) :
  unget_ p < 0 ->
  line_end (Got c :: pending p) rest ->
  exists p', ParseLineTerminator c p = (0, p') /\ pending p' = rest.
Proof.
  intros Hu H. unfold ParseLineTerminator.
  inversion H as [r E1 | r E1 | c2 r Hc E1 | r Heos E1]; subst.
  - simpl. now exists p.
  - simpl.
    destruct (GetChar_Got p kLF rest) as (u & Hu' & ->); [congruence|].
    simpl. exists (mkParser rest u). split; [reflexivity|].
    now apply pending_empty_slot.
  - simpl.
    match goal with E : _ = pending p |- _ => symmetry in E;
      destruct (GetChar_Got p c2 r E) as (u & Hu' & ->) end.
    simpl. destruct (Ascii.eqb_spec c2 kLF); [contradiction|].
    eexists. split; [reflexivity|]. now rewrite pending_UngetChar.
  - simpl.
    destruct (GetChar_at_eos p Heos) as (e & d & u & He & Hu' & ->).
    destruct (Z.ltb_spec e 0); [lia|]. destruct (Z.gtb_spec e 0); [|lia].
    eexists. split; [reflexivity|]. now apply pending_empty_slot.
Qed.

Lemma is_eol_line_end (c : ascii) (r rest : list outcome) :
  line_end (Got c :: r) rest -> is_eol c = true.
Proof. intros H; inversion H; reflexivity. Qed.

Lemma ParseLine_loop_line (text : string) :
  forall fuel acc p s rest,
    pending p = map Got (list_ascii_of_string text) ++ s ->
    no_eol text = true -> line_end s rest ->
    (String.length text < fuel)%nat ->
    exists p',
      ParseLine_loop fuel p acc = Some (0, (acc ++ text)%string, p') /\
      pending p' = rest.
Proof.
  induction text as [|c text IH]; intros fuel acc p s rest Hp Hne Hend Hfuel;
    (destruct fuel as [|fuel]; [simpl in Hfuel; lia|]); simpl ParseLine_loop.
  - simpl in Hp. rewrite append_empty_r.
    assert (Hs : exists c0 r, s = Got c0 :: r) by (inversion Hend; eauto).
    destruct Hs as (c0 & r & ->).
    destruct (GetChar_Got p c0 r Hp) as (u & Hu & ->). simpl.
    pose proof (is_eol_line_end _ _ _ Hend) as Hc. unfold is_eol in Hc.
    rewrite Hc.
    destruct (ParseLineTerminator_line_end c0 (mkParser r u) rest) as (p' & -> & Hp').
    + assumption.
    + now rewrite pending_empty_slot.
    + simpl. now exists p'.
  - simpl in Hp, Hne. apply andb_true_iff in Hne as [Hc Hne].
    destruct (GetChar_Got p _ _ Hp) as (u & Hu & ->). simpl.
    unfold is_eol in Hc. apply negb_true_iff in Hc. rewrite Hc.
    destruct (IH fuel (push_back acc c) (mkParser _ u) s rest
                (pending_empty_slot _ u Hu) Hne Hend
                ltac:(simpl in Hfuel; lia)) as (p' & -> & Hp').
    exists p'. now rewrite push_back_app.
Qed.

Lemma ParseLine_line (p : Parser) (text : string) (s rest : list outcome) :
  pending p = map Got (list_ascii_of_string text) ++ s ->
  no_eol text = true -> line_end s rest ->
  exists p', ParseLine p = Some (0, text, p') /\ pending p' = rest.
Proof.
  intros Hp Hne Hend. unfold ParseLine.
  apply (ParseLine_loop_line text (read_fuel p) EmptyString p s rest);
    try assumption.
  pose proof (pending_length p) as L. rewrite Hp in L.
  rewrite List.length_app, List.length_map, length_list_ascii in L. lia.
Qed.

(** X7: the three line terminators.  When the pending input is a text
    without LF and CR followed by LF, by CR LF, or by a CR that no LF
    follows, [ParseLine] returns the text with status 0 and consumes
    the terminator and nothing after it. *)
Theorem ParseLine_terminators (p : Parser) (text : string)
  (s rest : list outcome) :
  pending p = map Got (list_ascii_of_string text) ++ s ->
  no_eol text = true -> line_end s rest ->
  exists p', ParseLine p = Some (0, text, p') /\ pending p' = rest.
Proof. exact (ParseLine_line p text s rest). Qed.

Lemma ParseLine_terminators_witness :
  (exists p', ParseLine (Parser_new (reader_of
                 ("ab" ++ String kCR (String kLF "cd"))))
              = Some (0, "ab"%string, p') /\ pending p' = reader_of "cd") /\
  (exists p', ParseLine (Parser_new (reader_of ("ab" ++ String kCR "cd")))
              = Some (0, "ab"%string, p') /\ pending p' = reader_of "cd").
Proof.
  split.
  - apply (ParseLine_terminators _ "ab"
             (Got kCR :: Got kLF :: reader_of "cd") (reader_of "cd"));
      [reflexivity | reflexivity | apply end_CRLF].
  - apply (ParseLine_terminators _ "ab"
             (Got kCR :: reader_of "cd") (reader_of "cd"));
      [reflexivity | reflexivity | apply end_CR; discriminate].
Defined.

Lemma no_eol_push_back (acc : string) (c : ascii) :
  no_eol acc = true -> is_eol c = false -> no_eol (push_back acc c) = true.
Proof.
  intros Ha Hc. unfold push_back.
  induction acc as [|d acc IH]; simpl in *.
  - now rewrite Hc.
  - apply andb_true_iff in Ha as [Hd Ha]. rewrite Hd. simpl. now apply IH.
Qed.

Lemma ParseLine_loop_no_eol :
  forall fuel p acc e l p',
    ParseLine_loop fuel p acc = Some (e, l, p') ->
    no_eol acc = true -> no_eol l = true.
Proof.
  induction fuel as [|fuel IH]; intros p acc e l p' H Hacc; simpl in H;
    [discriminate|].
  destruct (GetChar p) as [[e0 c0] p0].
  destruct (e0 <? 0); [now injection H as _ <- _|].
  destruct (e0 >? 0); [now injection H as _ <- _|].
  destruct ((c0 =? kLF)%char || (c0 =? kCR)%char) eqn:Hc.
  - destruct (ParseLineTerminator c0 p0) as [e1 p1].
    destruct (e1 <? 0); now injection H as _ <- _.
  - eapply IH; [exact H|]. now apply no_eol_push_back.
Qed.

(** X8: a line that [ParseLine] returns, with whatever status, holds no
    LF and no CR. *)
Theorem ParseLine_no_terminator :
  forall p e line p',
    ParseLine p = Some (e, line, p') -> no_eol line = true.
Proof.
  intros p e line p' H. unfold ParseLine in H.
  now apply ParseLine_loop_no_eol in H.
Qed.

Lemma ParseLine_no_terminator_witness :
  no_eol "ab" = true.
Proof.
  apply (ParseLine_no_terminator
           (Parser_new (reader_of ("ab" ++ String kCR "cd"))) 0 "ab"
           (mkParser (reader_of "d") 99)).
  reflexivity.
Defined.

Lemma GetChar_Failure (p : Parser) (k : positive) (rest : list outcome) :
  pending p = Failure k :: rest ->
  exists u, u < 0 /\ GetChar p = (Z.neg k, kNUL, mkParser rest u).
Proof. intros H. pose proof (GetChar_pending p) as G. now rewrite H in G. Qed.

Lemma ParseLine_loop_failure (text : string) :
  forall fuel acc p k rest,
    pending p = map Got (list_ascii_of_string text) ++ Failure k :: rest ->
    no_eol text = true -> (String.length text < fuel)%nat ->
    exists p',
      ParseLine_loop fuel p acc = Some (Z.neg k, (acc ++ text)%string, p') /\
      pending p' = rest.
Proof.
  induction text as [|c text IH]; intros fuel acc p k rest Hp Hne Hfuel;
    (destruct fuel as [|fuel]; [simpl in Hfuel; lia|]); simpl ParseLine_loop.
  - simpl in Hp. rewrite append_empty_r.
    destruct (GetChar_Failure p k rest Hp) as (u & Hu & ->). simpl.
    eexists. split; [reflexivity|]. now apply pending_empty_slot.
  - simpl in Hp, Hne. apply andb_true_iff in Hne as [Hc Hne].
    destruct (GetChar_Got p _ _ Hp) as (u & Hu & ->). simpl.
    unfold is_eol in Hc. apply negb_true_iff in Hc. rewrite Hc.
    destruct (IH fuel (push_back acc c) (mkParser _ u) k rest
                (pending_empty_slot _ u Hu) Hne
                ltac:(simpl in Hfuel; lia)) as (p' & -> & Hp').
    exists p'. now rewrite push_back_app.
Qed.

Lemma ParseLine_failure (p : Parser) (text : string) (k : positive)
  (rest : list outcome) :
  pending p = map Got (list_ascii_of_string text) ++ Failure k :: rest ->
  no_eol text = true ->
  exists p', ParseLine p = Some (Z.neg k, text, p') /\ pending p' = rest.
Proof.
  intros Hp Hne. unfold ParseLine.
  apply (ParseLine_loop_failure text (read_fuel p) EmptyString p k rest);
    try assumption.
  pose proof (pending_length p) as L. rewrite Hp in L.
  rewrite List.length_app, List.length_map, length_list_ascii in L. lia.
Qed.

(** X9: an error of the reader inside a line is returned as it is:
    [ParseLine] returns the negative status of the reader, with the
    characters read before it, and has consumed the input up to the
    error. *)
Theorem ParseLine_reader_error (p : Parser) (text : string) (k : positive)
  (rest : list outcome) :
  pending p = map Got (list_ascii_of_string text) ++ Failure k :: rest ->
  no_eol text = true ->
  exists p', ParseLine p = Some (Z.neg k, text, p') /\ pending p' = rest.
Proof. exact (ParseLine_failure p text k rest). Qed.

Lemma ParseLine_reader_error_witness :
  exists p',
    ParseLine (Parser_new (map Got (list_ascii_of_string "ab")
                           ++ Failure 5 :: reader_of "cd"))
    = Some (-5, "ab"%string, p') /\ pending p' = reader_of "cd".
Proof.
  apply (ParseLine_reader_error _ "ab" 5%positive (reader_of "cd"));
    reflexivity.
Defined.

(** The converse for [ParseLineTerminator]: a call that does not fail
    has consumed a terminator. *)
Lemma ParseLineTerminator_consumed (c : ascii) (p : Parser) (e : Z)
  (p' : Parser) :
  unget_ p < 0 -> is_eol c = true ->
  ParseLineTerminator c p = (e, p') -> 0 <= e ->
  e = 0 /\ line_end (Got c :: pending p) (pending p').
Proof.
  intros Hu Hc H He. unfold ParseLineTerminator in H.
  destruct (Ascii.eqb_spec c kLF) as [->|Hlf].
  { injection H as <- <-. split; [reflexivity | apply end_LF]. }
  unfold is_eol in Hc.
  destruct (Ascii.eqb_spec c kLF); [contradiction|]. simpl in Hc.
  destruct (Ascii.eqb_spec c kCR) as [->|]; [|discriminate]. simpl in H.
  destruct (GetChar p) as [[e0 c0] p0] eqn:G.
  destruct (GetChar_inv _ _ _ _ G) as (Hu0 & [(-> & Hp)|[(He0 & Heos & Hp)|(k & -> & Hp)]]).
  - simpl in H. destruct (Ascii.eqb_spec c0 kLF) as [->|Hc0];
      injection H as <- <-; (split; [reflexivity|]); rewrite Hp.
    + apply end_CRLF.
    + rewrite pending_UngetChar, <- (pending_slot_empty p0 Hu0).
      now apply end_CR.
  - destruct (Z.ltb_spec e0 0); [lia|]. destruct (Z.gtb_spec e0 0); [|lia].
    injection H as <- <-. split; [reflexivity|]. rewrite Hp.
    now apply end_CR_eos.
  - simpl in H. injection H as <- _. lia.
Qed.

Lemma ParseLine_loop_consumed :
  forall fuel p acc l p',
    ParseLine_loop fuel p acc = Some (0, l, p') ->
    exists text s,
      l = (acc ++ text)%string /\
      pending p = map Got (list_ascii_of_string text) ++ s /\
      (line_end s (pending p') \/
       (l <> EmptyString /\ at_eos s = true /\ pending p' = tl s)).
Proof.
  induction fuel as [|fuel IH]; intros p acc l p' H; simpl in H;
    [discriminate|].
  destruct (GetChar p) as [[e0 c0] p0] eqn:G.
  destruct (GetChar_inv _ _ _ _ G) as (Hu0 & [(-> & Hp)|[(He0 & Heos & Hp)|(k & -> & Hp)]]).
  - simpl in H.
    destruct ((c0 =? kLF)%char || (c0 =? kCR)%char) eqn:Hc.
    + destruct (ParseLineTerminator c0 p0) as [e1 p1] eqn:T.
      destruct (Z.ltb_spec e1 0) as [Hneg|Hnn].
      { injection H as E _ _. lia. }
      injection H as <- <-.
      destruct (ParseLineTerminator_consumed _ _ _ _ Hu0 Hc T Hnn) as [_ Hend].
      exists EmptyString, (Got c0 :: pending p0).
      rewrite append_empty_r. split; [reflexivity|].
      split; [exact Hp | now left].
    + apply IH in H as (text & s & -> & Hp0 & Hcase).
      rewrite push_back_app in Hcase |- *.
      exists (String c0 text), s.
      split; [reflexivity|]. split; [|assumption].
      rewrite Hp, Hp0. reflexivity.
  - destruct (Z.ltb_spec e0 0); [lia|]. destruct (Z.gtb_spec e0 0); [|lia].
    destruct acc as [|a acc]; simpl in H; [discriminate|].
    injection H as <- <-.
    exists EmptyString, (pending p). rewrite append_empty_r.
    split; [reflexivity|]. split; [reflexivity|]. right.
    split; [discriminate|]. now split.
  - simpl in H. discriminate.
Qed.

(** X10: what a successful [ParseLine] has consumed.  When it returns
    status 0, the pending input was the returned line followed by a
    line terminator, after which the input now pending starts, or the
    line is not empty and was followed by the end of the stream. *)
Theorem ParseLine_consumed :
  forall p line p',
    ParseLine p = Some (0, line, p') ->
    exists s,
      pending p = map Got (list_ascii_of_string line) ++ s /\
      (line_end s (pending p') \/
       (line <> EmptyString /\ at_eos s = true /\ pending p' = tl s)).
Proof.
  intros p line p' H. unfold ParseLine in H.
  apply ParseLine_loop_consumed in H as (text & s & -> & Hp & Hcase).
  exists s. simpl. now split.
Qed.

Lemma ParseLine_consumed_witness :
  exists s,
    pending (mkParser (reader_of ("b" ++ String kCR "cd")) 97)
    = map Got (list_ascii_of_string "ab") ++ s /\
    (line_end s (pending (mkParser (reader_of "d") 99)) \/
     ("ab"%string <> EmptyString /\ at_eos s = true /\
      pending (mkParser (reader_of "d") 99) = tl s)).
Proof.
  apply (ParseLine_consumed
           (mkParser (reader_of ("b" ++ String kCR "cd")) 97) "ab"
           (mkParser (reader_of "d") 99)).
  reflexivity.
Defined.

(** ** Parser::Init *)

Lemma ParseBOM_absent (p : Parser) (c : ascii) (r : list outcome) :
  pending p = Got c :: r -> c <> "239"%char ->
  exists p', ParseBOM p = (0, p') /\ pending p' = Got c :: r.
Proof.
  intros Hp Hc. unfold ParseBOM, BOM. simpl.
  destruct (GetChar_Got p c r Hp) as (u & Hu & ->). simpl.
  destruct (Ascii.eqb_spec c "239"%char); [contradiction|]. simpl.
  eexists. split; [reflexivity|]. now rewrite pending_UngetChar.
Qed.

Lemma ParseBOM_present (p : Parser) (r : list outcome) :
  pending p = map Got BOM ++ r ->
  exists p', ParseBOM p = (0, p') /\ pending p' = r.
Proof.
  intros Hp. unfold ParseBOM, BOM in *. simpl in *.
  destruct (GetChar_Got p _ _ Hp) as (u1 & Hu1 & ->). simpl.
  destruct (GetChar_Got (mkParser (Got "187"%char :: Got "191"%char :: r) u1)
              "187"%char (Got "191"%char :: r)
              (pending_empty_slot _ u1 Hu1))
    as (u2 & Hu2 & ->). simpl.
  destruct (GetChar_Got (mkParser (Got "191"%char :: r) u2) "191"%char r
              (pending_empty_slot _ u2 Hu2))
    as (u3 & Hu3 & ->). simpl.
  eexists. split; [reflexivity|]. now apply pending_empty_slot.
Qed.

Lemma Init_signature_match (idstr : list ascii) :
  forall p r,
    pending p = map Got idstr ++ r ->
    exists p', Init_signature idstr p = (0, p') /\ pending p' = r.
Proof.
  induction idstr as [|x idstr IH]; intros p r Hp; simpl in *.
  - now exists p.
  - destruct (GetChar_Got p _ _ Hp) as (u & Hu & ->). simpl.
    rewrite Ascii.eqb_refl. simpl.
    apply IH. now apply pending_empty_slot.
Qed.

Lemma Init_after_signature_check (annot : string) :
  annotation_ok annot = true ->
  negb (empty annot)
  && (negb (char_at annot 0 =? kSPACE)%char
      && negb (char_at annot 0 =? kTAB)%char) = false.
Proof.
  destruct annot as [|c annot]; [reflexivity|].
  unfold annotation_ok, blank_char. simpl.
  destruct (c =? kSPACE)%char; [reflexivity|].
  destruct (c =? kTAB)%char; [reflexivity | discriminate].
Qed.

Lemma Init_prologue (p : Parser) (bom r : list outcome) :
  optional_BOM bom ->
  pending p = bom ++ map Got (list_ascii_of_string "WEBVTT") ++ r ->
  exists p0 p1,
    ParseBOM p = (0, p0) /\
    Init_signature (list_ascii_of_string "WEBVTT") p0 = (0, p1) /\
    pending p1 = r.
Proof.
  intros [-> | ->] Hp.
  - destruct (ParseBOM_absent p "W" _ Hp ltac:(discriminate))
      as (p0 & H0 & Hp0).
    destruct (Init_signature_match (list_ascii_of_string "WEBVTT") p0 r Hp0)
      as (p1 & H1 & Hp1).
    now exists p0, p1.
  - destruct (ParseBOM_present p _ Hp) as (p0 & H0 & Hp0).
    destruct (Init_signature_match (list_ascii_of_string "WEBVTT") p0 r Hp0)
      as (p1 & H1 & Hp1).
    now exists p0, p1.
Qed.

(** X11: a well-formed header is accepted.  With or without the BOM,
    the signature WEBVTT, an optional annotation that starts with a
    space or a tab, a line terminator and an empty line make [Init]
    return 0 with the input after the empty line pending. *)
Theorem Init_valid_header (p : Parser) (bom : list outcome) (annot : string)
  (s1 s2 rest : list outcome) :
  optional_BOM bom ->
  pending p = bom ++ map Got (list_ascii_of_string "WEBVTT")
                  ++ map Got (list_ascii_of_string annot) ++ s1 ->
  annotation_ok annot = true -> no_eol annot = true ->
  line_end s1 s2 -> line_end s2 rest ->
  exists p', Init p = Some (0, p') /\ pending p' = rest.
Proof.
  intros Hbom Hp Hannot Hne H1 H2.
  destruct (Init_prologue p bom _ Hbom Hp) as (p0 & p1 & E0 & E1 & Hp1).
  destruct (ParseLine_line p1 annot s1 s2 Hp1 Hne H1) as (p2 & E2 & Hp2).
  destruct (ParseLine_line p2 EmptyString s2 rest Hp2 eq_refl H2)
    as (p3 & E3 & Hp3).
  unfold Init. rewrite E0. cbn [Z.ltb Z.gtb Z.eqb Z.compare negb]. rewrite E1. cbn [Z.ltb Z.gtb Z.eqb Z.compare negb].
  rewrite E2. cbn [Z.ltb Z.gtb Z.eqb Z.compare negb].
  rewrite (Init_after_signature_check annot Hannot). rewrite E3. cbn [Z.ltb Z.gtb Z.eqb Z.compare negb].
  now exists p3.
Qed.

Lemma Init_valid_header_witness :
  exists p',
    Init (Parser_new (map Got BOM
            ++ reader_of ("WEBVTT - subtitles"
                  ++ String kCR (String kLF (String kCR (String kLF "1"))))))
    = Some (0, p') /\ pending p' = reader_of "1".
Proof.
  apply (Init_valid_header _ (map Got BOM) " - subtitles"
           (Got kCR :: Got kLF :: Got kCR :: Got kLF :: reader_of "1")
           (Got kCR :: Got kLF :: reader_of "1") (reader_of "1")).
  - now right.
  - reflexivity.
  - reflexivity.
  - reflexivity.
  - apply end_CRLF.
  - apply end_CRLF.
Defined.

(** X12: a stream that ends with its signature line is accepted: the
    signature and an optional annotation, with nothing after them, make
    [Init] return 0. *)
Theorem Init_header_only (p : Parser) (bom : list outcome) (annot : string) :
  optional_BOM bom ->
  pending p = bom ++ map Got (list_ascii_of_string "WEBVTT")
                  ++ map Got (list_ascii_of_string annot) ->
  annotation_ok annot = true -> no_eol annot = true ->
  exists p', Init p = Some (0, p') /\ pending p' = [].
Proof.
  intros Hbom Hp Hannot Hne.
  rewrite <- (app_nil_r (map Got (list_ascii_of_string annot))) in Hp.
  destruct (Init_prologue p bom _ Hbom Hp) as (p0 & p1 & E0 & E1 & Hp1).
  unfold Init. rewrite E0. cbn [Z.ltb Z.gtb Z.eqb Z.compare negb]. rewrite E1. cbn [Z.ltb Z.gtb Z.eqb Z.compare negb].
  destruct annot as [|c annot].
  - simpl in Hp1.
    destruct (ParseLine_at_eos p1) as (p2 & E2 & Hp2);
      [now rewrite Hp1|].
    rewrite E2. cbn [Z.ltb Z.gtb Z.eqb Z.compare negb].
    exists p2. split; [reflexivity|]. now rewrite Hp2, Hp1.
  - destruct (ParseLine_text p1 (String c annot) [] Hp1 ltac:(discriminate)
                Hne eq_refl) as (p2 & E2 & Hp2).
    rewrite E2. cbn [Z.ltb Z.gtb Z.eqb Z.compare].
    rewrite (Init_after_signature_check _ Hannot).
    destruct (ParseLine_at_eos p2) as (p3 & E3 & Hp3);
      [now rewrite Hp2|].
    rewrite E3. cbn [Z.ltb Z.gtb Z.eqb Z.compare negb].
    exists p3. split; [reflexivity|]. now rewrite Hp3, Hp2.
Qed.

Lemma Init_header_only_witness :
  exists p', Init (Parser_new (reader_of "WEBVTT")) = Some (0, p') /\
             pending p' = [].
Proof.
  apply (Init_header_only _ [] EmptyString);
    [now left | reflexivity | reflexivity | reflexivity].
Defined.

Lemma ParseBOM_eos (p : Parser) :
  at_eos (pending p) = true -> exists p', ParseBOM p = (1, p').
Proof.
  intros H. unfold ParseBOM, BOM. simpl.
  destruct (GetChar_at_eos p H) as (e & c & u & He & Hu & ->).
  destruct (Z.ltb_spec e 0); [lia|]. destruct (Z.gtb_spec e 0); [|lia].
  eauto.
Qed.

Lemma ParseBOM_failure (p : Parser) (k : positive) (r : list outcome) :
  pending p = Failure k :: r ->
  exists p', ParseBOM p = (Z.neg k, p') /\ pending p' = r.
Proof.
  intros H. unfold ParseBOM, BOM. simpl.
  destruct (GetChar_Failure p k r H) as (u & Hu & ->). simpl.
  eexists. split; [reflexivity|]. now apply pending_empty_slot.
Qed.

(** The signature loop stops with -1 at the first character that
    differs and at the end of the stream, and with the status of the
    reader at an error. *)
Lemma Init_signature_stops (pre : list ascii) :
  forall (x : ascii) (suf : list ascii) (p : Parser) (r : list outcome),
    pending p = map Got pre ++ r ->
    (forall c r', r = Got c :: r' -> c <> x) ->
    exists e p',
      Init_signature (pre ++ x :: suf) p = (e, p') /\ e < 0 /\
      (forall k r', r = Failure k :: r' -> e = Z.neg k) /\
      ((forall k r', r <> Failure k :: r') -> e = -1).
Proof.
  induction pre as [|w pre IH]; intros x suf p r Hp Hc; simpl in *.
  - destruct (GetChar p) as [[e0 c0] p0] eqn:G.
    destruct (GetChar_inv _ _ _ _ G) as (_ & [(-> & Hp0)|[(He0 & Heos & Hp0)|(k & -> & Hp0)]]).
    + simpl. rewrite Hp in Hp0. specialize (Hc _ _ Hp0).
      destruct (Ascii.eqb_spec c0 x); [contradiction|]. simpl.
      exists (-1), p0. split; [reflexivity|]. split; [lia|].
      split; [intros k r' E; congruence | reflexivity].
    + destruct (Z.ltb_spec e0 0); [lia|]. destruct (Z.gtb_spec e0 0); [|lia].
      exists (-1), p0. split; [reflexivity|]. split; [lia|].
      rewrite Hp in Heos.
      split; [intros k r' E; rewrite E in Heos; discriminate Heos | reflexivity].
    + simpl. exists (Z.neg k), p0. split; [reflexivity|]. split; [lia|].
      rewrite Hp in Hp0. split.
      * intros k' r' E. congruence.
      * intros Hno. now specialize (Hno _ _ Hp0).
  - destruct (GetChar_Got p _ _ Hp) as (u & Hu & ->). simpl.
    rewrite Ascii.eqb_refl. simpl.
    apply IH; [now apply pending_empty_slot | assumption].
Qed.

(** X13: a stream that does not start with the signature is refused.
    When the characters after the optional BOM agree with WEBVTT on a
    proper prefix only, the next outcome being another character or
    the end of the stream, [Init] returns -1. *)
Theorem Init_bad_signature (p : Parser) (bom : list outcome)
  (pre : string) (x : ascii) (suf : string) (r : list outcome) :
  optional_BOM bom ->
  "WEBVTT"%string = (pre ++ String x suf)%string ->
  pending p = bom ++ map Got (list_ascii_of_string pre) ++ r ->
  (forall c r', r = Got c :: r' -> c <> x) ->
  (bom = [] -> pre = EmptyString -> forall r', r <> Got "239"%char :: r') ->
  (forall k r', r <> Failure k :: r') ->
  exists p', Init p = Some (-1, p').
Proof.
  intros Hbom Hsig Hp Hc Hnobom Hnofail.
  assert (Hid : list_ascii_of_string "WEBVTT"
                = list_ascii_of_string pre ++ x :: list_ascii_of_string suf).
  { rewrite Hsig. clear. induction pre as [|c pre IH]; simpl;
      [reflexivity | now rewrite IH]. }
  unfold Init.
  assert (HB : (exists p0, ParseBOM p = (1, p0)) \/
               (exists p0, ParseBOM p = (0, p0) /\
                           pending p0 = map Got (list_ascii_of_string pre) ++ r)).
  { destruct Hbom as [-> | ->].
    - simpl in Hp. destruct pre as [|w pre].
      + simpl in Hp. destruct r as [|[c|k|k] r'].
        * left. apply ParseBOM_eos. now rewrite Hp.
        * right. apply (ParseBOM_absent p c r' Hp).
          intros ->. now apply (Hnobom eq_refl eq_refl r').
        * left. apply ParseBOM_eos. now rewrite Hp.
        * now specialize (Hnofail k r').
      + simpl in Hsig. injection Hsig as <- _. right.
        apply (ParseBOM_absent p "W" _ Hp). discriminate.
    - right. now apply ParseBOM_present. }
  destruct HB as [(p0 & ->) | (p0 & -> & Hp0)]; [simpl; eauto|].
  cbn [Z.ltb Z.gtb Z.compare]. rewrite Hid.
  destruct (Init_signature_stops _ x (list_ascii_of_string suf) p0 r Hp0 Hc)
    as (e & p1 & -> & _ & _ & He).
  rewrite (He Hnofail). simpl. eauto.
Qed.

Lemma Init_bad_signature_witness :
  (exists p', Init (Parser_new (reader_of "WEBVVT")) = Some (-1, p')) /\
  (exists p', Init (Parser_new (reader_of "WEB")) = Some (-1, p')) /\
  (exists p', Init (Parser_new []) = Some (-1, p')).
Proof.
  split; [|split].
  - apply (Init_bad_signature _ [] "WEBV" "T" "T" (reader_of "VT"));
      [now left | reflexivity | reflexivity | | discriminate | discriminate].
    intros c r' E. injection E as <- _. discriminate.
  - apply (Init_bad_signature _ [] "WEB" "V" "TT" []);
      [now left | reflexivity | reflexivity | discriminate | discriminate
      | discriminate].
  - apply (Init_bad_signature _ [] "" "W" "EBVTT" []);
      [now left | reflexivity | reflexivity | discriminate | discriminate
      | discriminate].
Defined.

Lemma ParseLine_loop_prefix :
  forall fuel p acc e l p',
    ParseLine_loop fuel p acc = Some (e, l, p') ->
    exists suf, l = (acc ++ suf)%string.
Proof.
  induction fuel as [|fuel IH]; intros p acc e l p' H; simpl in H;
    [discriminate|].
  destruct (GetChar p) as [[e0 c0] p0].
  assert (Hacc : exists suf, acc = (acc ++ suf)%string)
    by (exists EmptyString; now rewrite append_empty_r).
  destruct (e0 <? 0); [now injection H as _ <- _|].
  destruct (e0 >? 0); [now injection H as _ <- _|].
  destruct ((c0 =? kLF)%char || (c0 =? kCR)%char).
  - destruct (ParseLineTerminator c0 p0) as [e1 p1].
    destruct (e1 <? 0); now injection H as _ <- _.
  - apply IH in H as (suf & ->). exists (String c0 suf).
    now rewrite push_back_app.
Qed.

(** A line that starts with a character that is no terminator: the
    line returned starts with it, and the status is not positive. *)
Lemma ParseLine_first_char (p : Parser) (c : ascii) (r : list outcome)
  (e : Z) (l : string) (p' : Parser) :
  pending p = Got c :: r -> is_eol c = false ->
  ParseLine p = Some (e, l, p') ->
  e <= 0 /\ exists suf, l = String c suf.
Proof.
  intros Hp Hc H. unfold ParseLine, read_fuel in H.
  remember (S (List.length (reader_ p))) as fuel eqn:Hfuel. simpl in H.
  destruct (GetChar_Got p c r Hp) as (u & Hu & G). rewrite G in H.
  simpl in H. unfold is_eol in Hc. rewrite Hc in H.
  pose proof (ParseLine_loop_prefix _ _ _ _ _ _ H) as (suf & ->).
  split; [|now exists suf].
  destruct (Z.ltb_spec 0 e) as [Hpos|]; [|assumption].
  apply ParseLine_loop_eos in H as (_ & _ & Hacc & _); [|assumption].
  discriminate.
Qed.

(** X14: a character that is neither a space, a tab nor a line
    terminator right after the signature makes [Init] fail: it returns
    a negative status. *)
Theorem Init_junk_after_signature (p : Parser) (bom : list outcome) (c : ascii)
  (r : list outcome) :
  optional_BOM bom ->
  pending p = bom ++ map Got (list_ascii_of_string "WEBVTT") ++ Got c :: r ->
  blank_char c = false -> is_eol c = false ->
  exists e p', Init p = Some (e, p') /\ e < 0.
Proof.
  intros Hbom Hp Hb Hc.
  destruct (Init_prologue p bom _ Hbom Hp) as (p0 & p1 & E0 & E1 & Hp1).
  unfold Init. rewrite E0. cbn [Z.ltb Z.gtb Z.eqb Z.compare negb].
  rewrite E1. cbn [Z.ltb Z.gtb Z.eqb Z.compare negb].
  destruct (ParseLine_total p1) as [[[e l] p2] E2]. rewrite E2.
  destruct (ParseLine_first_char _ _ _ _ _ _ Hp1 Hc E2) as (He & suf & ->).
  destruct (Z.ltb_spec e 0); [eauto|].
  destruct (Z.gtb_spec e 0); [lia|].
  simpl. unfold blank_char in Hb. apply orb_false_iff in Hb as [-> ->].
  simpl. exists (-1), p2. split; [reflexivity | lia].
Qed.

Lemma Init_junk_after_signature_witness :
  exists e p',
    Init (Parser_new (reader_of ("WEBVTTX" ++ String kLF (String kLF ""))))
    = Some (e, p') /\ e < 0.
Proof.
  apply (Init_junk_after_signature _ [] "X"
           (reader_of (String kLF (String kLF ""))));
    [now left | reflexivity | reflexivity | reflexivity].
Defined.

(** X15: an error of the reader while the header is read is returned as
    it is: when the reader fails after a prefix of the signature, or
    right after it, [Init] returns the negative status of the reader. *)
Theorem Init_reader_error (p : Parser) (pre suf : string) (k : positive)
  (r : list outcome) :
  "WEBVTT"%string = (pre ++ suf)%string ->
  pending p = map Got (list_ascii_of_string pre) ++ Failure k :: r ->
  exists p', Init p = Some (Z.neg k, p').
Proof.
  intros Hsig Hp. unfold Init.
  assert (HB : (pre = EmptyString /\
                exists p0, ParseBOM p = (Z.neg k, p0)) \/
               (exists p0, ParseBOM p = (0, p0) /\
                  pending p0 = map Got (list_ascii_of_string pre)
                               ++ Failure k :: r)).
  { destruct pre as [|w pre].
    - left. split; [reflexivity|]. simpl in Hp.
      destruct (ParseBOM_failure p k r Hp) as (p0 & E & _). eauto.
    - simpl in Hsig. injection Hsig as <- _. right.
      apply (ParseBOM_absent p "W" _ Hp). discriminate. }
  destruct HB as [(-> & p0 & ->) | (p0 & -> & Hp0)]; [simpl; eauto|].
  cbn [Z.ltb Z.gtb Z.compare].
  destruct suf as [|x suf].
  - rewrite append_empty_r in Hsig. subst pre.
    destruct (Init_signature_match (list_ascii_of_string "WEBVTT") p0 _ Hp0)
      as (p1 & -> & Hp1).
    cbn [Z.eqb negb].
    destruct (ParseLine_failure p1 EmptyString k r Hp1 eq_refl)
      as (p2 & -> & _).
    simpl. eauto.
  - assert (Hid : list_ascii_of_string "WEBVTT"
                  = list_ascii_of_string pre ++ x :: list_ascii_of_string suf).
    { rewrite Hsig. clear. induction pre as [|c pre IH]; simpl;
        [reflexivity | now rewrite IH]. }
    rewrite Hid.
    destruct (Init_signature_stops _ x (list_ascii_of_string suf) p0 _ Hp0
                ltac:(discriminate)) as (e & p1 & -> & _ & He & _).
    rewrite (He k r eq_refl). simpl. eauto.
Qed.

Lemma Init_reader_error_witness :
  exists p',
    Init (Parser_new (map Got (list_ascii_of_string "WEB") ++ [Failure 7]))
    = Some (-7, p').
Proof.
  apply (Init_reader_error _ "WEB" "VTT" 7%positive []); reflexivity.
Defined.

(** ** Parser::ParseSettings *)

Lemma all_chars_push_back (f : ascii -> bool) (s : string) (c : ascii) :
  all_chars f (push_back s c) = all_chars f s && f c.
Proof.
  unfold push_back. induction s as [|d s IH]; simpl.
  - now rewrite andb_true_r.
  - now rewrite IH, andb_assoc.
Qed.

Lemma settings_name_token (line : string) :
  forall fuel idx nm idx' nm',
    settings_name fuel line idx nm = Some (true, idx', nm') ->
    all_chars token_char nm = true ->
    all_chars token_char nm' = true /\ (idx <= idx')%N /\
    char_at line idx' = ":"%char.
Proof.
  induction fuel as [|fuel IH]; intros idx nm idx' nm' H Hnm; simpl in H;
    [discriminate|].
  destruct (Ascii.eqb_spec (char_at line idx) ":"%char) as [E|Hcolon].
  { injection H as <- <-. split; [assumption|]. split; [lia | assumption]. }
  destruct (char_at line idx =? kNUL)%char eqn:H0; [discriminate|].
  destruct (char_at line idx =? kSPACE)%char eqn:H1; [discriminate|].
  destruct (char_at line idx =? kTAB)%char eqn:H2; [discriminate|].
  simpl in H. apply IH in H as (Hok & Hi & Hc).
  - split; [assumption|]. split; [lia | assumption].
  - rewrite all_chars_push_back, Hnm. unfold token_char.
    rewrite H0, H1, H2.
    destruct (Ascii.eqb_spec (char_at line idx) ":"%char);
      [contradiction | reflexivity].
Qed.

Lemma settings_value_token (line : string) :
  forall fuel idx v idx' v',
    settings_value fuel line idx v = Some (true, idx', v') ->
    all_chars token_char v = true ->
    all_chars token_char v' = true /\ (idx <= idx')%N.
Proof.
  induction fuel as [|fuel IH]; intros idx v idx' v' H Hv; simpl in H;
    [discriminate|].
  destruct (char_at line idx =? kNUL)%char eqn:H0;
    [injection H as <- <-; split; [assumption | lia]|].
  destruct (char_at line idx =? kSPACE)%char eqn:H1;
    [injection H as <- <-; split; [assumption | lia]|].
  destruct (char_at line idx =? kTAB)%char eqn:H2;
    [injection H as <- <-; split; [assumption | lia]|].
  simpl in H.
  destruct (char_at line idx =? ":")%char eqn:H3; [discriminate|].
  apply IH in H as (Hok & Hi).
  - split; [assumption | lia].
  - rewrite all_chars_push_back, Hv. unfold token_char.
    now rewrite H0, H1, H2, H3.
Qed.

Lemma ParseSettings_loop_valid (line : string) :
  forall fuel idx done ss,
    ParseSettings_loop fuel line idx done = Some (0, ss) ->
    Forall (fun s => valid_setting s = true) done ->
    Forall (fun s => valid_setting s = true) ss.
Proof.
  induction fuel as [|fuel IH]; intros idx done ss H Hdone;
    cbn [ParseSettings_loop] in H; [discriminate|].
  destruct (settings_blanks (line_fuel line) line idx) as [[b i1]|];
    [|discriminate].
  destruct b; [now injection H as <-|].
  destruct (settings_name (line_fuel line) line i1 EmptyString)
    as [[[ok i2] nm]|] eqn:Hn; [|discriminate].
  destruct ok; cbn [negb] in H; [|discriminate].
  destruct (empty nm) eqn:Hen; [discriminate|].
  destruct (settings_value (line_fuel line) line (i2 + 1) EmptyString)
    as [[[ok i3] v]|] eqn:Hv; [|discriminate].
  destruct ok; cbn [negb] in H; [|discriminate].
  destruct (empty v) eqn:Hev; [discriminate|].
  apply IH in H; [assumption|].
  apply Forall_app. split; [assumption|]. constructor; [|constructor].
  apply settings_name_token in Hn as (Hn & _); [|reflexivity].
  apply settings_value_token in Hv as (Hv & _); [|reflexivity].
  unfold valid_setting, token. simpl. now rewrite Hen, Hn, Hev, Hv.
Qed.

Lemma ParseSettings_valid (line : string) (idx : N) (old ss : list Setting) :
  ParseSettings line idx old = Some (0, ss) ->
  Forall (fun s => valid_setting s = true) ss.
Proof.
  unfold ParseSettings. destruct (_ || _); [discriminate|].
  intros H. apply ParseSettings_loop_valid in H; [assumption | constructor].
Qed.

(** X16: the settings of a successful [ParseSettings] are well formed:
    every name and every value is non-empty and holds no colon, no
    space, no tab and no NUL. *)
Theorem ParseSettings_well_formed :
  forall line idx old ss,
    ParseSettings line idx old = Some (0, ss) ->
    Forall (fun s => valid_setting s = true) ss.
Proof. exact ParseSettings_valid. Qed.

Lemma ParseSettings_well_formed_witness :
  Forall (fun s => valid_setting s = true)
         [mkSetting "align" "start"; mkSetting "line" "90%"].
Proof.
  apply (ParseSettings_well_formed
           (" align:start  line:90% " ++ String kNUL "") 0 []).
  reflexivity.
Defined.

Lemma blank_char_cases (c : ascii) :
  blank_char c = true ->
  (c =? kNUL)%char = false /\ (c =? ":")%char = false /\
  negb (c =? kSPACE)%char && negb (c =? kTAB)%char = false.
Proof.
  unfold blank_char. intros H. apply orb_true_iff in H as [H|H];
    apply Ascii.eqb_eq in H; subst c; repeat split.
Qed.

Lemma token_char_cases (c : ascii) :
  token_char c = true ->
  (c =? ":")%char = false /\ (c =? kNUL)%char = false /\
  (c =? kSPACE)%char = false /\ (c =? kTAB)%char = false.
Proof.
  unfold token_char. intros H.
  repeat (apply andb_true_iff in H as [H ?]).
  repeat split; now apply negb_true_iff.
Qed.

(** The character that ends a value: NUL, space or tab. *)
Lemma end_char_cases (c : ascii) :
  (c =? kNUL)%char || blank_char c = true ->
  (c =? kNUL)%char || (c =? kSPACE)%char || (c =? kTAB)%char = true.
Proof. unfold blank_char. now rewrite orb_assoc. Qed.

Lemma settings_blanks_run (line : string) (ws : string) :
  forall fuel pre rest,
    line = (pre ++ ws ++ rest)%string ->
    all_chars blank_char ws = true ->
    blank_char (char_at rest 0) = false ->
    (String.length ws < fuel)%nat ->
    settings_blanks fuel line (strlen pre)
    = Some ((char_at rest 0 =? kNUL)%char, (strlen pre + strlen ws)%N).
Proof.
  induction ws as [|c ws IH]; intros fuel pre rest Hl Hws Hrest Hfuel;
    (destruct fuel as [|fuel]; [simpl in Hfuel; lia|]); simpl settings_blanks;
    subst line.
  - simpl append. rewrite char_at_app_0.
    replace (strlen pre + strlen "")%N with (strlen pre)
      by (unfold strlen; simpl; lia).
    destruct (char_at rest 0 =? kNUL)%char; [reflexivity|].
    unfold blank_char in Hrest. apply orb_false_iff in Hrest as [-> ->].
    reflexivity.
  - simpl in Hws. apply andb_true_iff in Hws as [Hc Hws].
    rewrite char_at_app_0. simpl char_at.
    destruct (blank_char_cases c Hc) as (-> & _ & ->).
    rewrite <- (strlen_push_back pre c).
    rewrite (IH fuel (push_back pre c) rest); try assumption.
    + do 2 f_equal. rewrite strlen_push_back, strlen_cons. lia.
    + now rewrite push_back_app.
    + simpl in Hfuel. lia.
Qed.

Lemma settings_name_run (line : string) (nm : string) :
  forall fuel pre acc rest,
    line = (pre ++ nm ++ String ":" rest)%string ->
    all_chars token_char nm = true ->
    (String.length nm < fuel)%nat ->
    settings_name fuel line (strlen pre) acc
    = Some (true, (strlen pre + strlen nm)%N, (acc ++ nm)%string).
Proof.
  induction nm as [|c nm IH]; intros fuel pre acc rest Hl Hnm Hfuel;
    (destruct fuel as [|fuel]; [simpl in Hfuel; lia|]); simpl settings_name;
    subst line.
  - simpl append. rewrite char_at_app_0. simpl.
    rewrite append_empty_r. do 3 f_equal. unfold strlen; simpl; lia.
  - simpl in Hnm. apply andb_true_iff in Hnm as [Hc Hnm].
    rewrite char_at_app_0. simpl char_at.
    destruct (token_char_cases c Hc) as (-> & -> & -> & ->). cbn [orb].
    rewrite <- (strlen_push_back pre c).
    rewrite (IH fuel (push_back pre c) (push_back acc c) rest);
      try assumption.
    + rewrite push_back_app. do 3 f_equal.
      rewrite strlen_push_back, strlen_cons. lia.
    + now rewrite push_back_app.
    + simpl in Hfuel. lia.
Qed.

Lemma settings_value_run (line : string) (v : string) :
  forall fuel pre acc rest,
    line = (pre ++ v ++ rest)%string ->
    all_chars token_char v = true ->
    (char_at rest 0 =? kNUL)%char || blank_char (char_at rest 0) = true ->
    (String.length v < fuel)%nat ->
    settings_value fuel line (strlen pre) acc
    = Some (true, (strlen pre + strlen v)%N, (acc ++ v)%string).
Proof.
  induction v as [|c v IH]; intros fuel pre acc rest Hl Hv Hrest Hfuel;
    (destruct fuel as [|fuel]; [simpl in Hfuel; lia|]); simpl settings_value;
    subst line.
  - simpl append. rewrite char_at_app_0.
    rewrite (end_char_cases _ Hrest).
    rewrite append_empty_r. do 3 f_equal. unfold strlen; simpl; lia.
  - simpl in Hv. apply andb_true_iff in Hv as [Hc Hv].
    rewrite char_at_app_0. simpl char_at.
    destruct (token_char_cases c Hc) as (-> & -> & -> & ->). cbn [orb].
    rewrite <- (strlen_push_back pre c).
    rewrite (IH fuel (push_back pre c) (push_back acc c) rest);
      try assumption.
    + rewrite push_back_app. do 3 f_equal.
      rewrite strlen_push_back, strlen_cons. lia.
    + now rewrite push_back_app.
    + simpl in Hfuel. lia.
Qed.

Lemma char_at_app_first (a b : string) :
  a <> EmptyString -> char_at (a ++ b) 0 = char_at a 0.
Proof. destruct a; [contradiction | reflexivity]. Qed.

Lemma token_first (s : string) :
  token s = true ->
  s <> EmptyString /\ all_chars token_char s = true /\
  token_char (char_at s 0) = true.
Proof.
  unfold token. intros H. apply andb_true_iff in H as [Hne Hall].
  destruct s as [|c s]; [discriminate|]. split; [discriminate|].
  split; [assumption|]. simpl in *. now apply andb_true_iff in Hall as [? _].
Qed.

Lemma blanks_first (ws : string) :
  blanks ws = true ->
  ws <> EmptyString /\ all_chars blank_char ws = true /\
  blank_char (char_at ws 0) = true.
Proof.
  unfold blanks. intros H. apply andb_true_iff in H as [Hne Hall].
  destruct ws as [|c ws]; [discriminate|]. split; [discriminate|].
  split; [assumption|]. simpl in *. now apply andb_true_iff in Hall as [? _].
Qed.

Lemma token_char_not_blank (c : ascii) :
  token_char c = true -> blank_char c = false /\ (c =? kNUL)%char = false.
Proof.
  intros H. destruct (token_char_cases c H) as (_ & H0 & H1 & H2).
  unfold blank_char. now rewrite H0, H1, H2.
Qed.

(** What follows a value in a settings text: a blank or the NUL. *)
Lemma settings_text_start (items : list (string * Setting))
  (tail_ws rest : string) :
  forallb valid_item items = true ->
  all_chars blank_char tail_ws = true ->
  let c := char_at (settings_text items ++ tail_ws ++ String kNUL rest) 0 in
  (c =? kNUL)%char || blank_char c = true.
Proof.
  intros Hitems Htail. cbv zeta.
  destruct items as [|[ws s] items].
  - simpl. destruct tail_ws as [|c tail_ws]; [reflexivity|].
    simpl in *. apply andb_true_iff in Htail as [-> _]. apply orb_true_r.
  - simpl in Hitems. apply andb_true_iff in Hitems as [Hit _].
    unfold valid_item in Hit. apply andb_true_iff in Hit as [Hws _].
    destruct (blanks_first ws Hws) as (Hne & _ & Hb). simpl in Hne, Hb.
    simpl settings_text. rewrite !string_app_assoc.
    rewrite char_at_app_first by assumption. rewrite Hb. apply orb_true_r.
Qed.

Lemma ParseSettings_loop_text (items : list (string * Setting)) :
  forall fuel line pre done tail_ws rest,
    line = (pre ++ settings_text items ++ tail_ws ++ String kNUL rest)%string ->
    forallb valid_item items = true ->
    all_chars blank_char tail_ws = true ->
    (List.length items < fuel)%nat ->
    ParseSettings_loop fuel line (strlen pre) done
    = Some (0, done ++ map snd items).
Proof.
  induction items as [|[ws [n v]] items IH];
    intros fuel line pre done tail_ws rest Hl Hitems Htail Hfuel;
    (destruct fuel as [|fuel]; [simpl in Hfuel; lia|]);
    cbn [ParseSettings_loop].
  - simpl in Hl.
    rewrite (settings_blanks_run line tail_ws (line_fuel line) pre
               (String kNUL rest) Hl Htail eq_refl).
    + simpl. now rewrite app_nil_r.
    + subst line. unfold line_fuel. rewrite !string_length_app. lia.
  - simpl in Hitems. apply andb_true_iff in Hitems as [Hit Hitems].
    unfold valid_item in Hit. simpl in Hit.
    apply andb_true_iff in Hit as [Hws Hs].
    unfold valid_setting in Hs. simpl in Hs.
    apply andb_true_iff in Hs as [Hn Hv].
    destruct (blanks_first ws Hws) as (Hwne & Hwall & _).
    destruct (token_first n Hn) as (Hnne & Hnall & Hn0).
    destruct (token_first v Hv) as (Hvne & Hvall & _).
    destruct (token_char_not_blank _ Hn0) as (Hnb & Hnn).
    set (T := (settings_text items ++ tail_ws ++ String kNUL rest)%string).
    assert (L1 : line = (pre ++ ws ++ (n ++ String ":" (v ++ T)))%string).
    { rewrite Hl. simpl settings_text. unfold T.
      rewrite !string_app_assoc. simpl. now rewrite !string_app_assoc. }
    assert (Hlen : forall x y z : string,
               line = (x ++ y ++ z)%string ->
               (String.length y < line_fuel line)%nat).
    { intros x y z E. unfold line_fuel. rewrite E, !string_length_app. lia. }
    rewrite (settings_blanks_run line ws (line_fuel line) pre _ L1 Hwall);
      [| rewrite char_at_app_first by assumption; exact Hnb
       | exact (Hlen _ _ _ L1)].
    rewrite char_at_app_first by assumption. rewrite Hnn.
    assert (L2 : line = ((pre ++ ws) ++ n ++ String ":" (v ++ T))%string)
      by (rewrite L1; now rewrite !string_app_assoc).
    rewrite <- strlen_app.
    rewrite (settings_name_run line n (line_fuel line) (pre ++ ws)
               EmptyString _ L2 Hnall (Hlen _ _ _ L2)).
    cbn [negb append]. destruct n as [|n0 n']; [contradiction|].
    cbn [empty].
    assert (L3 : line = (push_back ((pre ++ ws) ++ String n0 n') ":"
                           ++ v ++ T)%string).
    { rewrite L2, push_back_app. now rewrite !string_app_assoc. }
    rewrite <- strlen_app, <- (strlen_push_back _ ":").
    rewrite (settings_value_run line v (line_fuel line) _ EmptyString T L3
               Hvall (settings_text_start items tail_ws rest Hitems Htail)
               (Hlen _ _ _ L3)).
    cbn [negb append]. destruct v as [|v0 v']; [contradiction|].
    cbn [empty].
    rewrite <- strlen_app.
    rewrite (IH fuel line _ (done ++ [mkSetting (String n0 n') (String v0 v')])
               tail_ws rest); try assumption.
    + simpl. now rewrite <- app_assoc.
    + rewrite L3. unfold T. now rewrite !string_app_assoc.
    + simpl in Hfuel. lia.
Qed.

Lemma ParseSettings_text (pre : string) (items : list (string * Setting))
  (tail_ws rest : string) (old : list Setting) :
  forallb valid_item items = true ->
  all_chars blank_char tail_ws = true ->
  (strlen (pre ++ settings_text items ++ tail_ws ++ String kNUL rest)
   < npos)%N ->
  ParseSettings (pre ++ settings_text items ++ tail_ws ++ String kNUL rest)
                (strlen pre) old
  = Some (0, map snd items).
Proof.
  intros Hitems Htail Hlen. unfold ParseSettings.
  set (line := (pre ++ settings_text items ++ tail_ws
                    ++ String kNUL rest)%string) in *.
  assert (Hidx : (strlen pre =? npos)%N || (strlen line <=? strlen pre)%N
                 = false).
  { assert (strlen pre < strlen line)%N.
    { unfold line. rewrite !strlen_app, strlen_cons. lia. }
    destruct (N.eqb_spec (strlen pre) npos); [lia|].
    destruct (N.leb_spec (strlen line) (strlen pre)); [lia | reflexivity]. }
  rewrite Hidx.
  rewrite (ParseSettings_loop_text items (line_fuel line) line pre []
             tail_ws rest eq_refl Hitems Htail); [reflexivity|].
  unfold line_fuel, line. rewrite !string_length_app.
  assert (List.length items <= String.length (settings_text items))%nat.
  { clear. induction items as [|[ws s] items IH]; simpl; [lia|].
    rewrite !string_length_app. simpl. rewrite string_length_app. lia. }
  lia.
Qed.

(** X17: the text of a list of settings is parsed back to the list.
    When from [idx] on the line holds well-formed NAME:VALUE settings,
    each after at least one space or tab, then optional blanks and the
    NUL, [ParseSettings] returns 0 and exactly these settings, in
    order, duplicates included. *)
Theorem ParseSettings_round_trip (pre : string)
  (items : list (string * Setting)) (tail_ws rest : string)
  (old : list Setting) :
  forallb valid_item items = true ->
  all_chars blank_char tail_ws = true ->
  (strlen (pre ++ settings_text items ++ tail_ws ++ String kNUL rest)
   < npos)%N ->
  ParseSettings (pre ++ settings_text items ++ tail_ws ++ String kNUL rest)
                (strlen pre) old
  = Some (0, map snd items).
Proof. exact (ParseSettings_text pre items tail_ws rest old). Qed.

Lemma ParseSettings_round_trip_witness :
  ParseSettings ("00:02" ++ " align:start" ++ String kTAB " line:90% line:90%"
                   ++ " " ++ String kNUL "")
                5 [mkSetting "old" "x"]
  = Some (0, [mkSetting "align" "start"; mkSetting "line" "90%";
              mkSetting "line" "90%"]).
Proof.
  apply (ParseSettings_round_trip "00:02"
           [(" "%string, mkSetting "align" "start");
            (String kTAB " ", mkSetting "line" "90%");
            (" "%string, mkSetting "line" "90%")]
           " " "" [mkSetting "old" "x"]);
    reflexivity.
Defined.

(** ** More on Parser::ParseNumber and Parser::ParseTime *)

Lemma ParseNumber_loop_index (line : string) :
  forall fuel idx val v idx',
    ParseNumber_loop fuel line idx val = Some (v, idx') ->
    (idx <= idx')%N /\ ((idx <= strlen line)%N -> (idx' <= strlen line)%N).
Proof.
  induction fuel as [|fuel IH]; intros idx val v idx' H; simpl in H;
    [discriminate|].
  destruct (isdigit (char_at line idx)) eqn:Hd.
  - apply isdigit_in_line in Hd.
    destruct (_ >? INT_MAX); [injection H as _ <-; lia|].
    apply IH in H. lia.
  - injection H as _ <-. lia.
Qed.

Lemma ParseNumber_index (line : string) (idx : N) (v : Z) (idx' : N) :
  ParseNumber line idx = Some (v, idx') ->
  (idx <= idx')%N /\ ((idx <= strlen line)%N -> (idx' <= strlen line)%N).
Proof.
  unfold ParseNumber.
  destruct (_ || _); [intros H; injection H as _ <-; lia|].
  destruct (negb _); [intros H; injection H as _ <-; lia|].
  apply ParseNumber_loop_index.
Qed.

Lemma skip_blanks_index (line : string) :
  forall fuel idx idx',
    skip_blanks fuel line idx = Some idx' ->
    (idx <= idx')%N /\ ((idx <= strlen line)%N -> (idx' <= strlen line)%N).
Proof.
  induction fuel as [|fuel IH]; intros idx idx' H; simpl in H;
    [discriminate|].
  destruct (char_at line idx =? kNUL)%char eqn:Hn;
    [injection H as <-; lia|].
  apply not_NUL_in_line in Hn.
  destruct (_ && _); [injection H as <-; lia|].
  apply IH in H. lia.
Qed.

Lemma colon_in_line (line : string) (idx : N) :
  (char_at line idx =? ":")%char = true -> (idx < strlen line)%N.
Proof.
  intros H. apply char_at_in_line. intros E. rewrite E in H. discriminate.
Qed.

Lemma ParseTime_millis_index (line : string) (idx : N) (t : Time)
  (e : Z) (idx' : N) (t' : Time) :
  ParseTime_millis line idx t = Some (e, idx', t') ->
  ((idx <= idx')%N /\ ((idx <= strlen line)%N -> (idx' <= strlen line)%N)) /\
  (e = 0 -> end_char (char_at line idx') = true).
Proof.
  unfold ParseTime_millis.
  assert (Hfin : forall e0 i u,
    (if negb (e0 =? 0) then Some (e0, i, u)
     else if negb (char_at line i =? kNUL)%char
             && negb (char_at line i =? kSPACE)%char
             && negb (char_at line i =? kTAB)%char
          then Some (-1, i, u) else Some (0, i, u)) = Some (e, idx', t') ->
    i = idx' /\ (e = 0 -> end_char (char_at line idx') = true)).
  { intros e0 i u. unfold end_char, blank_char.
    destruct (Z.eqb_spec e0 0) as [->|Hne]; simpl.
    - destruct (char_at line i =? kNUL)%char eqn:H0;
        destruct (char_at line i =? kSPACE)%char eqn:H1;
        destruct (char_at line i =? kTAB)%char eqn:H2; simpl;
        intros H; injection H as <- <- _; split; try reflexivity;
        intros; try lia; now rewrite ?H0, ?H1, ?H2.
    - intros H; injection H as <- <- _. split; [reflexivity|]. contradiction. }
  destruct (char_at line idx =? ".")%char eqn:Hdot; simpl negb; cbv iota.
  - assert (Hin : (idx < strlen line)%N).
    { apply char_at_in_line. intros E. rewrite E in Hdot. discriminate. }
    destruct (ParseNumber line (idx + 1)) as [[v i]|] eqn:HP; [|discriminate].
    apply ParseNumber_index in HP.
    destruct (v <? 0); [intros H; apply Hfin in H as [<- H]; split; [lia | exact H]|].
    destruct (v >=? 1000); [intros H; apply Hfin in H as [<- H]; split; [lia | exact H]|].
    destruct (v <? 10); [intros H; apply Hfin in H as [<- H]; split; [lia | exact H]|].
    destruct (v <? 100); intros H; apply Hfin in H as [<- H]; (split; [lia | exact H]).
  - intros H. apply Hfin in H as [<- H]. split; [lia | exact H].
Qed.

(** X18: [ParseTime] keeps [idx] inside the line and stops at a
    delimiter: the final [idx] is not before the initial one, is not
    past the end of the line when the initial one is not, and on
    success the character at it is NUL, a space or a tab. *)
Theorem ParseTime_index (line : string) (idx : N) (time : Time)
  (e : Z) (idx' : N) (t : Time) :
  ParseTime line idx time = Some (e, idx', t) ->
  (idx <= idx')%N /\ ((idx <= strlen line)%N -> (idx' <= strlen line)%N) /\
  (e = 0 -> end_char (char_at line idx') = true).
Proof.
  unfold ParseTime.
  assert (Hret : forall (e0 : Z) (i : N) (u : Time),
             (idx <= i)%N ->
             ((idx <= strlen line)%N -> (i <= strlen line)%N) ->
             e0 <> 0 ->
             Some (e0, i, u) = Some (e, idx', t) ->
             (idx <= idx')%N /\
             ((idx <= strlen line)%N -> (idx' <= strlen line)%N) /\
             (e = 0 -> end_char (char_at line idx') = true)).
  { intros e0 i u H1 H2 H3 H. injection H as <- <- _.
    split; [assumption|]. split; [assumption | contradiction]. }
  assert (Hms : forall (i : N) (u : Time),
             (idx <= i)%N ->
             ((idx <= strlen line)%N -> (i <= strlen line)%N) ->
             ParseTime_millis line i u = Some (e, idx', t) ->
             (idx <= idx')%N /\
             ((idx <= strlen line)%N -> (idx' <= strlen line)%N) /\
             (e = 0 -> end_char (char_at line idx') = true)).
  { intros i u H1 H2 H. apply ParseTime_millis_index in H as [[Ha Hb] Hc].
    split; [lia|]. split; [|assumption]. intros Hl. apply Hb. now apply H2. }
  destruct (_ || _); [apply Hret; lia|].
  destruct (skip_blanks _ line idx) as [i0|] eqn:S0; [|discriminate].
  apply skip_blanks_index in S0 as [S0 S0'].
  destruct (ParseNumber line i0) as [[v1 i1]|] eqn:P1; [|discriminate].
  apply ParseNumber_index in P1 as [P1 P1'].
  destruct (Z.ltb_spec v1 0); [apply Hret; lia|].
  destruct (char_at line i1 =? ":")%char eqn:C1; [|apply Hms; lia].
  apply colon_in_line in C1.
  destruct (ParseNumber line (i1 + 1)) as [[v2 i2]|] eqn:P2; [|discriminate].
  apply ParseNumber_index in P2 as [P2 P2'].
  destruct (Z.ltb_spec v2 0); [apply Hret; lia|].
  destruct (v2 >=? 60); [apply Hret; lia|].
  destruct (char_at line i2 =? ":")%char eqn:C2.
  - apply colon_in_line in C2.
    destruct (ParseNumber line (i2 + 1)) as [[v3 i3]|] eqn:P3; [|discriminate].
    apply ParseNumber_index in P3 as [P3 P3'].
    destruct (Z.ltb_spec v3 0); [apply Hret; lia|].
    destruct (v3 >=? 60); [apply Hret; lia|].
    apply Hms; lia.
  - destruct (v1 >=? 60); [apply Hret; lia|]. apply Hms; lia.
Qed.

Lemma ParseTime_index_witness :
  (2 <= 9)%N /\
  ((2 <= strlen "  01:02.5 -->")%N -> (9 <= strlen "  01:02.5 -->")%N) /\
  (0 = 0 -> end_char (char_at "  01:02.5 -->" 9) = true).
Proof.
  apply (ParseTime_index "  01:02.5 -->" 2 Time_zero 0 9
                         (mkTime 0 1 2 500)).
  reflexivity.
Defined.

(** *** The three forms of a timestamp *)

Lemma char_at_at (line pre rest : string) :
  line = (pre ++ rest)%string -> char_at line (strlen pre) = char_at rest 0.
Proof. intros ->. apply char_at_app_0. Qed.

Lemma digits_first (ds x : string) :
  digits ds = true ->
  ds <> EmptyString /\ all_digits ds = true /\
  isdigit (char_at (ds ++ x) 0) = true.
Proof.
  unfold digits. intros H. apply andb_true_iff in H as [Hne Hall].
  destruct ds as [|c ds]; [discriminate|]. split; [discriminate|].
  split; [assumption|]. simpl in *. now apply andb_true_iff in Hall as [? _].
Qed.

Lemma isdigit_not_delimiter (c : ascii) :
  isdigit c = true ->
  blank_char c = false /\ (c =? kNUL)%char = false /\
  (c =? ":")%char = false /\ (c =? ".")%char = false.
Proof.
  intros H. unfold blank_char.
  destruct (Ascii.eqb_spec c kSPACE) as [E|]; [rewrite E in H; discriminate|].
  destruct (Ascii.eqb_spec c kTAB) as [E|]; [rewrite E in H; discriminate|].
  destruct (Ascii.eqb_spec c kNUL) as [E|]; [rewrite E in H; discriminate|].
  destruct (Ascii.eqb_spec c ":"%char) as [E|];
    [rewrite E in H; discriminate|].
  destruct (Ascii.eqb_spec c "."%char) as [E|];
    [rewrite E in H; discriminate|].
  repeat split.
Qed.

Lemma end_char_not_digit (c : ascii) :
  end_char c = true ->
  isdigit c = false /\ (c =? ":")%char = false /\ (c =? ".")%char = false.
Proof.
  unfold end_char, blank_char. intros H.
  destruct (Ascii.eqb_spec c kNUL) as [E|]; [rewrite E; repeat split|].
  destruct (Ascii.eqb_spec c kSPACE) as [E|]; [rewrite E; repeat split|].
  destruct (Ascii.eqb_spec c kTAB) as [E|]; [rewrite E; repeat split|].
  discriminate.
Qed.

(** The character after the seconds: the full stop of the fraction or
    the delimiter after the time. *)
Lemma after_seconds (f : option string) (rest : string) :
  end_char (char_at rest 0) = true ->
  let c := char_at (frac_text f ++ rest) 0 in
  isdigit c = false /\ (c =? ":")%char = false.
Proof.
  intros H. destruct f as [ds|]; simpl; [now split|].
  destruct (end_char_not_digit _ H) as (H1 & H2 & _). now split.
Qed.

Lemma ParseNumber_at (line pre ds rest : string) :
  line = (pre ++ ds ++ rest)%string ->
  digits ds = true -> isdigit (char_at rest 0) = false ->
  (strlen line < npos)%N -> decimal 0 ds <= INT_MAX ->
  ParseNumber line (strlen pre) = Some (decimal 0 ds, strlen (pre ++ ds)).
Proof.
  intros -> Hds Hrest Hlen Hfit.
  destruct (digits_first ds rest Hds) as (Hne & Hall & _).
  rewrite strlen_app. now apply ParseNumber_fits.
Qed.

Lemma skip_blanks_run (line ws : string) :
  forall fuel pre rest,
    line = (pre ++ ws ++ rest)%string ->
    all_chars blank_char ws = true ->
    blank_char (char_at rest 0) = false ->
    (String.length ws < fuel)%nat ->
    skip_blanks fuel line (strlen pre) = Some (strlen (pre ++ ws)).
Proof.
  induction ws as [|c ws IH]; intros fuel pre rest Hl Hws Hrest Hfuel;
    (destruct fuel as [|fuel]; [simpl in Hfuel; lia|]); simpl skip_blanks;
    subst line.
  - simpl append. rewrite char_at_app_0, append_empty_r.
    destruct (char_at rest 0 =? kNUL)%char; [reflexivity|].
    unfold blank_char in Hrest. apply orb_false_iff in Hrest as [-> ->].
    reflexivity.
  - simpl in Hws. apply andb_true_iff in Hws as [Hc Hws].
    rewrite char_at_app_0. simpl char_at.
    destruct (blank_char_cases c Hc) as (-> & _ & ->).
    rewrite <- (strlen_push_back pre c).
    rewrite (IH fuel (push_back pre c) rest); try assumption.
    + now rewrite push_back_app.
    + now rewrite push_back_app.
    + simpl in Hfuel. lia.
Qed.

Lemma ParseTime_millis_frac (line pre : string) (f : option string)
  (rest : string) (t : Time) :
  line = (pre ++ frac_text f ++ rest)%string ->
  frac_ok f = true -> end_char (char_at rest 0) = true ->
  (strlen line < npos)%N ->
  ParseTime_millis line (strlen pre) t
  = Some (0, strlen (pre ++ frac_text f),
          mkTime (hours t) (minutes t) (seconds t) (frac_ms f)).
Proof.
  intros -> Hf Hrest Hlen. destruct f as [ds|]; simpl frac_text in *.
  - simpl in Hf. apply andb_true_iff in Hf as [Hf Hv].
    apply andb_true_iff in Hf as [Hne Hall]. apply Z.ltb_lt in Hv.
    simpl append in Hlen |- *.
    rewrite (ParseTime_millis_by_value pre ds rest t); try assumption.
    + do 3 f_equal. rewrite strlen_app, strlen_cons. lia.
    + destruct ds; [discriminate | discriminate].
    + unfold end_char, blank_char in Hrest.
      destruct (Ascii.eqb_spec (char_at rest 0) kNUL); [now left|].
      destruct (Ascii.eqb_spec (char_at rest 0) kSPACE); [right; now left|].
      destruct (Ascii.eqb_spec (char_at rest 0) kTAB);
        [right; now right | discriminate].
  - simpl append. rewrite append_empty_r. unfold ParseTime_millis.
    rewrite char_at_app_0.
    destruct (end_char_not_digit _ Hrest) as (_ & _ & ->). simpl.
    rewrite !char_at_app_0.
    unfold end_char, blank_char in Hrest.
    destruct (char_at rest 0 =? kNUL)%char; [reflexivity|].
    destruct (char_at rest 0 =? kSPACE)%char; [reflexivity|].
    destruct (char_at rest 0 =? kTAB)%char; [reflexivity | discriminate].
Qed.

Lemma digits_value (ds : string) : digits ds = true -> 0 <= decimal 0 ds.
Proof.
  intros H. destruct (digits_first ds EmptyString H) as (_ & Hall & _).
  apply (decimal_ge ds 0 Hall). lia.
Qed.

Lemma in_line (line pre rest : string) :
  line = (pre ++ rest)%string -> rest <> EmptyString ->
  (strlen line < npos)%N ->
  (strlen pre =? npos)%N || (strlen line <=? strlen pre)%N = false.
Proof.
  intros -> Hne Hlen. rewrite strlen_app in *.
  destruct rest as [|c rest]; [contradiction|]. rewrite strlen_cons in *.
  destruct (N.eqb_spec (strlen pre) npos); [lia|].
  destruct (N.leb_spec (strlen pre + N.succ (strlen rest)) (strlen pre));
    [lia | reflexivity].
Qed.

(** The start of [ParseTime] on [pre ++ ws ++ g ++ rest]: the blanks
    are skipped and the first group of digits is read. *)
Lemma ParseTime_first_group (line pre ws g rest : string) :
  line = (pre ++ ws ++ g ++ rest)%string ->
  all_chars blank_char ws = true -> digits g = true ->
  isdigit (char_at rest 0) = false ->
  (strlen line < npos)%N -> decimal 0 g <= INT_MAX ->
  (strlen pre =? npos)%N || (strlen line <=? strlen pre)%N = false /\
  skip_blanks (line_fuel line) line (strlen pre) = Some (strlen (pre ++ ws)) /\
  ParseNumber line (strlen (pre ++ ws))
  = Some (decimal 0 g, strlen ((pre ++ ws) ++ g)).
Proof.
  intros Hl Hws Hg Hrest Hlen Hfit.
  destruct (digits_first g rest Hg) as (Hgne & _ & Hg0).
  destruct (isdigit_not_delimiter _ Hg0) as (Hb & _).
  split; [|split].
  - apply (in_line line pre (ws ++ g ++ rest) Hl); [|assumption].
    destruct ws; [destruct g; [contradiction | discriminate] | discriminate].
  - apply (skip_blanks_run line ws _ pre (g ++ rest) Hl Hws Hb).
    unfold line_fuel. rewrite Hl, !string_length_app. lia.
  - apply (ParseNumber_at line (pre ++ ws) g rest); try assumption.
    rewrite Hl. (repeat (rewrite push_back_app || rewrite string_app_assoc); reflexivity).
Qed.

(** A further group after a colon. *)
Lemma ParseTime_next_group (line pre g rest : string) :
  line = (pre ++ String ":" (g ++ rest))%string ->
  digits g = true -> isdigit (char_at rest 0) = false ->
  (strlen line < npos)%N -> decimal 0 g <= INT_MAX ->
  (char_at line (strlen pre) =? ":")%char = true /\
  ParseNumber line (strlen pre + 1)
  = Some (decimal 0 g, strlen (push_back pre ":" ++ g)).
Proof.
  intros Hl Hg Hrest Hlen Hfit. split.
  - now rewrite (char_at_at line pre _ Hl).
  - rewrite <- (strlen_push_back pre ":").
    apply (ParseNumber_at line (push_back pre ":") g rest); try assumption.
    rewrite Hl. (repeat (rewrite push_back_app || rewrite string_app_assoc); reflexivity).
Qed.

Lemma ParseTime_hms_text (pre ws h m s : string) (f : option string)
  (rest : string) (time : Time) :
  all_chars blank_char ws = true ->
  digits h = true -> digits m = true -> digits s = true ->
  decimal 0 h <= INT_MAX -> decimal 0 m < 60 -> decimal 0 s < 60 ->
  frac_ok f = true -> end_char (char_at rest 0) = true ->
  (strlen (pre ++ ws ++ h ++ String ":" (m ++ String ":"
             (s ++ frac_text f ++ rest))) < npos)%N ->
  ParseTime (pre ++ ws ++ h ++ String ":" (m ++ String ":"
               (s ++ frac_text f ++ rest))) (strlen pre) time
  = Some (0,
          strlen (pre ++ ws ++ h ++ String ":" (m ++ String ":"
                    (s ++ frac_text f))),
          mkTime (decimal 0 h) (decimal 0 m) (decimal 0 s) (frac_ms f)).
Proof.
  intros Hws Hh Hm Hs Hhv Hmv Hsv Hf Hrest Hlen.
  set (line := (pre ++ ws ++ h ++ String ":" (m ++ String ":"
                  (s ++ frac_text f ++ rest)))%string) in *.
  pose proof (digits_value h Hh) as Hh0.
  pose proof (digits_value m Hm) as Hm0.
  pose proof (digits_value s Hs) as Hs0.
  destruct (after_seconds f rest Hrest) as (Hd3 & Hc3).
  destruct (ParseTime_first_group line pre ws h _ eq_refl Hws Hh eq_refl
              Hlen Hhv) as (E0 & E1 & E2).
  destruct (ParseTime_next_group line ((pre ++ ws) ++ h) m
              (String ":" (s ++ frac_text f ++ rest))
              ltac:(unfold line; (repeat (rewrite push_back_app || rewrite string_app_assoc); reflexivity)) Hm eq_refl Hlen
              ltac:(unfold INT_MAX; lia)) as (C1 & E3).
  destruct (ParseTime_next_group line
              (push_back ((pre ++ ws) ++ h) ":" ++ m) s
              (frac_text f ++ rest)
              ltac:(unfold line; (repeat (rewrite push_back_app || rewrite string_app_assoc); reflexivity)) Hs Hd3 Hlen
              ltac:(unfold INT_MAX; lia)) as (C2 & E4).
  unfold ParseTime. rewrite E0, E1. cbv beta iota zeta. rewrite E2. cbv beta iota zeta.
  destruct (Z.ltb_spec (decimal 0 h) 0); [lia|].
  rewrite C1, E3. cbv beta iota zeta.
  destruct (Z.ltb_spec (decimal 0 m) 0); [lia|].
  destruct (Z.geb_spec (decimal 0 m) 60); [lia|].
  rewrite C2, E4. cbv beta iota zeta.
  destruct (Z.ltb_spec (decimal 0 s) 0); [lia|].
  destruct (Z.geb_spec (decimal 0 s) 60); [lia|].
  rewrite (ParseTime_millis_frac line _ f rest);
    [| unfold line; (repeat (rewrite push_back_app || rewrite string_app_assoc); reflexivity) | assumption | assumption | assumption].
  cbn [hours minutes seconds]. do 3 f_equal. f_equal. (repeat (rewrite push_back_app || rewrite string_app_assoc); reflexivity).
Qed.

Lemma ParseTime_ms_text (pre ws m s : string) (f : option string)
  (rest : string) (time : Time) :
  all_chars blank_char ws = true ->
  digits m = true -> digits s = true ->
  decimal 0 m < 60 -> decimal 0 s < 60 ->
  frac_ok f = true -> end_char (char_at rest 0) = true ->
  (strlen (pre ++ ws ++ m ++ String ":" (s ++ frac_text f ++ rest))
   < npos)%N ->
  ParseTime (pre ++ ws ++ m ++ String ":" (s ++ frac_text f ++ rest))
            (strlen pre) time
  = Some (0, strlen (pre ++ ws ++ m ++ String ":" (s ++ frac_text f)),
          mkTime 0 (decimal 0 m) (decimal 0 s) (frac_ms f)).
Proof.
  intros Hws Hm Hs Hmv Hsv Hf Hrest Hlen.
  set (line := (pre ++ ws ++ m ++ String ":"
                  (s ++ frac_text f ++ rest))%string) in *.
  pose proof (digits_value m Hm) as Hm0.
  pose proof (digits_value s Hs) as Hs0.
  destruct (after_seconds f rest Hrest) as (Hd3 & Hc3).
  destruct (ParseTime_first_group line pre ws m _ eq_refl Hws Hm eq_refl
              Hlen ltac:(unfold INT_MAX; lia)) as (E0 & E1 & E2).
  destruct (ParseTime_next_group line ((pre ++ ws) ++ m) s
              (frac_text f ++ rest)
              ltac:(unfold line;
                    repeat (rewrite push_back_app || rewrite string_app_assoc);
                    reflexivity)
              Hs Hd3 Hlen ltac:(unfold INT_MAX; lia)) as (C1 & E3).
  assert (C2 : (char_at line (strlen (push_back ((pre ++ ws) ++ m) ":" ++ s))
                =? ":")%char = false).
  { rewrite (char_at_at line _ (frac_text f ++ rest)); [exact Hc3|].
    unfold line.
    repeat (rewrite push_back_app || rewrite string_app_assoc); reflexivity. }
  unfold ParseTime. rewrite E0, E1. cbv beta iota zeta.
  rewrite E2. cbv beta iota zeta.
  destruct (Z.ltb_spec (decimal 0 m) 0); [lia|].
  rewrite C1, E3. cbv beta iota zeta.
  destruct (Z.ltb_spec (decimal 0 s) 0); [lia|].
  destruct (Z.geb_spec (decimal 0 s) 60); [lia|].
  rewrite C2.
  destruct (Z.geb_spec (decimal 0 m) 60); [lia|].
  rewrite (ParseTime_millis_frac line _ f rest);
    [| unfold line;
       repeat (rewrite push_back_app || rewrite string_app_assoc);
       reflexivity
     | assumption | assumption | assumption].
  cbn [hours minutes seconds]. do 3 f_equal. f_equal.
  repeat (rewrite push_back_app || rewrite string_app_assoc); reflexivity.
Qed.

Lemma seconds_only_fields (v : Z) :
  0 <= v <= INT_MAX ->
  int_div v 60 = v / 60 /\
  int_sub v (int_mul (int_div v 60) 60) = v mod 60 /\
  int_div (int_div v 60) 60 = v / 3600 /\
  int_sub (int_div v 60) (int_mul (int_div (int_div v 60) 60) 60)
  = (v / 60) mod 60.
Proof.
  intros Hv. pose proof (seconds_only_split v Hv) as S. cbv zeta in S.
  unfold INT_MAX in Hv.
  assert (E : int_div v 60 = v / 60).
  { unfold int_div. rewrite Z.quot_div_nonneg by lia.
    apply to_int_id. unfold is_int, INT_MIN, INT_MAX.
    Z.to_euclidean_division_equations; lia. }
  assert (E2 : int_div (v / 60) 60 = v / 3600).
  { unfold int_div.
    rewrite Z.quot_div_nonneg by (Z.to_euclidean_division_equations; lia).
    rewrite to_int_id
      by (unfold is_int, INT_MIN, INT_MAX;
          Z.to_euclidean_division_equations; lia).
    Z.to_euclidean_division_equations; lia. }
  rewrite E in S |- *. rewrite E2 in S |- *.
  destruct S as (S1 & S2 & S3 & S4).
  repeat split; Z.to_euclidean_division_equations; lia.
Qed.

Lemma ParseTime_s_text (pre ws s : string) (f : option string)
  (rest : string) (time : Time) :
  all_chars blank_char ws = true -> digits s = true ->
  decimal 0 s <= INT_MAX ->
  frac_ok f = true -> end_char (char_at rest 0) = true ->
  (strlen (pre ++ ws ++ s ++ frac_text f ++ rest) < npos)%N ->
  ParseTime (pre ++ ws ++ s ++ frac_text f ++ rest) (strlen pre) time
  = Some (0, strlen (pre ++ ws ++ s ++ frac_text f),
          mkTime (decimal 0 s / 3600) ((decimal 0 s / 60) mod 60)
                 (decimal 0 s mod 60) (frac_ms f)).
Proof.
  intros Hws Hs Hsv Hf Hrest Hlen.
  set (line := (pre ++ ws ++ s ++ frac_text f ++ rest)%string) in *.
  pose proof (digits_value s Hs) as Hs0.
  destruct (after_seconds f rest Hrest) as (Hd3 & Hc3).
  destruct (ParseTime_first_group line pre ws s _ eq_refl Hws Hs Hd3
              Hlen Hsv) as (E0 & E1 & E2).
  assert (C1 : (char_at line (strlen ((pre ++ ws) ++ s)) =? ":")%char = false).
  { rewrite (char_at_at line _ (frac_text f ++ rest)); [exact Hc3|].
    unfold line.
    repeat (rewrite push_back_app || rewrite string_app_assoc); reflexivity. }
  destruct (seconds_only_fields (decimal 0 s) ltac:(lia))
    as (F1 & F2 & F3 & F4).
  unfold ParseTime. rewrite E0, E1. cbv beta iota zeta.
  rewrite E2. cbv beta iota zeta.
  destruct (Z.ltb_spec (decimal 0 s) 0); [lia|].
  rewrite C1.
  rewrite (ParseTime_millis_frac line _ f rest);
    [| unfold line;
       repeat (rewrite push_back_app || rewrite string_app_assoc);
       reflexivity
     | assumption | assumption | assumption].
  cbn [hours minutes seconds]. rewrite F4, F2, F3.
  do 3 f_equal. f_equal.
  repeat (rewrite push_back_app || rewrite string_app_assoc); reflexivity.
Qed.

(** X19: the form HH:MM:SS[.mmm].  After optional blanks, three groups
    of digits separated by colons, with hours that fit an [int] and
    minutes and seconds below 60, an optional fraction and a delimiter,
    are parsed to the time with these hours, minutes and seconds;
    [idx] is left at the delimiter. *)
Theorem ParseTime_hours_minutes_seconds (pre ws h m s : string)
  (f : option string) (rest : string) (time : Time) :
  all_chars blank_char ws = true ->
  digits h = true -> digits m = true -> digits s = true ->
  decimal 0 h <= INT_MAX -> decimal 0 m < 60 -> decimal 0 s < 60 ->
  frac_ok f = true -> end_char (char_at rest 0) = true ->
  (strlen (pre ++ ws ++ h ++ String ":" (m ++ String ":"
             (s ++ frac_text f ++ rest))) < npos)%N ->
  ParseTime (pre ++ ws ++ h ++ String ":" (m ++ String ":"
               (s ++ frac_text f ++ rest))) (strlen pre) time
  = Some (0,
          strlen (pre ++ ws ++ h ++ String ":" (m ++ String ":"
                    (s ++ frac_text f))),
          mkTime (decimal 0 h) (decimal 0 m) (decimal 0 s) (frac_ms f)).
Proof. exact (ParseTime_hms_text pre ws h m s f rest time). Qed.

Lemma ParseTime_hours_minutes_seconds_witness :
  ParseTime "--> 100:02:03.450 a:b" 3 Time_zero
  = Some (0, 17%N, mkTime 100 2 3 450).
Proof.
  apply (ParseTime_hours_minutes_seconds "-->" " " "100" "02" "03"
           (Some "450"%string) " a:b" Time_zero);
    solve [reflexivity | vm_compute; discriminate].
Defined.

(** X20: the form MM:SS[.mmm].  Two groups of digits, both below 60,
    are parsed to the time with 0 hours and these minutes and
    seconds. *)
Theorem ParseTime_minutes_seconds (pre ws m s : string) (f : option string)
  (rest : string) (time : Time) :
  all_chars blank_char ws = true ->
  digits m = true -> digits s = true ->
  decimal 0 m < 60 -> decimal 0 s < 60 ->
  frac_ok f = true -> end_char (char_at rest 0) = true ->
  (strlen (pre ++ ws ++ m ++ String ":" (s ++ frac_text f ++ rest))
   < npos)%N ->
  ParseTime (pre ++ ws ++ m ++ String ":" (s ++ frac_text f ++ rest))
            (strlen pre) time
  = Some (0, strlen (pre ++ ws ++ m ++ String ":" (s ++ frac_text f)),
          mkTime 0 (decimal 0 m) (decimal 0 s) (frac_ms f)).
Proof. exact (ParseTime_ms_text pre ws m s f rest time). Qed.

Lemma ParseTime_minutes_seconds_witness :
  ParseTime "59:07" 0 Time_zero = Some (0, 5%N, mkTime 0 59 7 0).
Proof.
  apply (ParseTime_minutes_seconds "" "" "59" "07" None "" Time_zero);
    solve [reflexivity | vm_compute; discriminate].
Defined.

(** X21: the form SS[.mmm].  A single group of digits whose value [v]
    fits an [int] is a number of seconds without upper bound: it is
    parsed to [v / 3600] hours, [(v / 60) mod 60] minutes and
    [v mod 60] seconds. *)
Theorem ParseTime_seconds_only (pre ws s : string) (f : option string)
  (rest : string) (time : Time) :
  all_chars blank_char ws = true -> digits s = true ->
  decimal 0 s <= INT_MAX ->
  frac_ok f = true -> end_char (char_at rest 0) = true ->
  (strlen (pre ++ ws ++ s ++ frac_text f ++ rest) < npos)%N ->
  ParseTime (pre ++ ws ++ s ++ frac_text f ++ rest) (strlen pre) time
  = Some (0, strlen (pre ++ ws ++ s ++ frac_text f),
          mkTime (decimal 0 s / 3600) ((decimal 0 s / 60) mod 60)
                 (decimal 0 s mod 60) (frac_ms f)).
Proof. exact (ParseTime_s_text pre ws s f rest time). Qed.

Lemma ParseTime_seconds_only_witness :
  ParseTime "  2147483647.9 " 0 Time_zero
  = Some (0, 14%N, mkTime 596523 14 7 900).
Proof.
  apply (ParseTime_seconds_only "" "  " "2147483647" (Some "9"%string) " "
                                Time_zero);
    solve [reflexivity | vm_compute; discriminate].
Defined.

Lemma ParseNumber_at_any (line pre g rest : string) :
  line = (pre ++ g ++ rest)%string ->
  digits g = true -> isdigit (char_at rest 0) = false ->
  (strlen line < npos)%N ->
  exists v idx',
    ParseNumber line (strlen pre) = Some (v, idx') /\
    ((v = -1 /\ INT_MAX < decimal 0 g) \/
     (v = decimal 0 g /\ decimal 0 g <= INT_MAX)).
Proof.
  intros -> Hg Hrest Hlen.
  destruct (digits_first g rest Hg) as (Hne & Hall & _).
  destruct (ParseNumber_digit_run pre g rest Hall Hrest Hlen)
    as (_ & Hbig & Hfit).
  destruct (Z.le_gt_cases (decimal 0 g) INT_MAX) as [Hle|Hgt].
  - destruct (Hfit Hne Hle) as (_ & ->). eexists _, _.
    split; [reflexivity|]. now right.
  - destruct (Hbig Hne Hgt) as (i & ->). eexists _, _.
    split; [reflexivity|]. now left.
Qed.

(** X22: components of 60 and more are refused in the forms with a
    colon.  After a first group and a colon, [ParseTime] returns -1
    when the second group is 60 or more, when the first of two groups
    is 60 or more, and when the third group is 60 or more. *)
Theorem ParseTime_rejects_sixty (pre ws a b rest : string) (time : Time) :
  all_chars blank_char ws = true ->
  digits a = true -> digits b = true ->
  decimal 0 a <= INT_MAX ->
  isdigit (char_at rest 0) = false ->
  (strlen (pre ++ ws ++ a ++ String ":" (b ++ rest)) < npos)%N ->
  let line := (pre ++ ws ++ a ++ String ":" (b ++ rest))%string in
  (60 <= decimal 0 b ->
   exists idx' t', ParseTime line (strlen pre) time = Some (-1, idx', t')) /\
  (decimal 0 b < 60 -> 60 <= decimal 0 a ->
   (char_at rest 0 =? ":")%char = false ->
   exists idx' t', ParseTime line (strlen pre) time = Some (-1, idx', t')) /\
  (decimal 0 b < 60 ->
   forall c rest',
     rest = String ":" (c ++ rest') -> digits c = true ->
     isdigit (char_at rest' 0) = false -> 60 <= decimal 0 c ->
     exists idx' t', ParseTime line (strlen pre) time = Some (-1, idx', t')).
Proof.
  intros Hws Ha Hb Hav Hrest Hlen line.
  pose proof (digits_value a Ha) as Ha0.
  pose proof (digits_value b Hb) as Hb0.
  destruct (ParseTime_first_group line pre ws a _ eq_refl Hws Ha eq_refl
              Hlen Hav) as (E0 & E1 & E2).
  assert (L2 : line = (((pre ++ ws) ++ a) ++ String ":" (b ++ rest))%string).
  { unfold line.
    repeat (rewrite push_back_app || rewrite string_app_assoc); reflexivity. }
  assert (C1 : (char_at line (strlen ((pre ++ ws) ++ a)) =? ":")%char = true)
    by now rewrite (char_at_at line _ _ L2).
  assert (Start :
    ParseTime line (strlen pre) time
    = match ParseNumber line (strlen ((pre ++ ws) ++ a) + 1) with
      | Some (val, idx) =>
          if val <? 0 then Some (val, idx, time)
          else if val >=? 60 then Some (-1, idx, time)
          else if (char_at line idx =? ":")%char then
            match ParseNumber line (idx + 1) with
            | Some (v3, i3) =>
                if v3 <? 0
                then Some (v3, i3, mkTime (decimal 0 a) val (seconds time)
                                          (milliseconds time))
                else if v3 >=? 60
                then Some (-1, i3, mkTime (decimal 0 a) val (seconds time)
                                          (milliseconds time))
                else ParseTime_millis line i3
                       (mkTime (decimal 0 a) val v3 (milliseconds time))
            | None => None
            end
          else if decimal 0 a >=? 60 then Some (-1, idx, time)
          else ParseTime_millis line idx
                 (mkTime 0 (decimal 0 a) val (milliseconds time))
      | None => None
      end).
  { unfold ParseTime. rewrite E0, E1. cbv beta iota zeta.
    rewrite E2. cbv beta iota zeta.
    destruct (Z.ltb_spec (decimal 0 a) 0); [lia|]. rewrite C1. reflexivity. }
  rewrite Start. clear Start.
  rewrite <- (strlen_push_back _ ":").
  assert (L3 : line = (push_back ((pre ++ ws) ++ a) ":" ++ b ++ rest)%string).
  { rewrite L2.
    repeat (rewrite push_back_app || rewrite string_app_assoc); reflexivity. }
  split; [|split].
  - intros Hb60.
    destruct (ParseNumber_at_any line _ b rest L3 Hb Hrest Hlen)
      as (v & i & -> & [(-> & _)|(-> & _)]).
    + simpl. eauto.
    + destruct (Z.ltb_spec (decimal 0 b) 0); [lia|].
      destruct (Z.geb_spec (decimal 0 b) 60); [eauto | lia].
  - intros Hb60 Ha60 Hcolon.
    rewrite (ParseNumber_at line _ b rest L3 Hb Hrest Hlen)
      by (unfold INT_MAX; lia).
    destruct (Z.ltb_spec (decimal 0 b) 0); [lia|].
    destruct (Z.geb_spec (decimal 0 b) 60); [lia|].
    rewrite (char_at_at line _ rest)
      by (rewrite L3;
          repeat (rewrite push_back_app || rewrite string_app_assoc);
          reflexivity).
    rewrite Hcolon.
    destruct (Z.geb_spec (decimal 0 a) 60); [eauto | lia].
  - intros Hb60 c rest' Hr Hc Hrest' Hc60.
    rewrite (ParseNumber_at line _ b rest L3 Hb Hrest Hlen)
      by (unfold INT_MAX; lia).
    destruct (Z.ltb_spec (decimal 0 b) 0); [lia|].
    destruct (Z.geb_spec (decimal 0 b) 60); [lia|].
    assert (L4 : line = ((push_back ((pre ++ ws) ++ a) ":" ++ b)
                           ++ String ":" (c ++ rest'))%string).
    { rewrite L3, Hr.
      repeat (rewrite push_back_app || rewrite string_app_assoc);
        reflexivity. }
    rewrite (char_at_at line _ _ L4). simpl char_at.
    cbv beta iota zeta. rewrite Ascii.eqb_refl.
    rewrite <- (strlen_push_back _ ":").
    assert (L5 : line = (push_back (push_back ((pre ++ ws) ++ a) ":" ++ b) ":"
                           ++ c ++ rest')%string).
    { rewrite L4.
      repeat (rewrite push_back_app || rewrite string_app_assoc);
        reflexivity. }
    destruct (ParseNumber_at_any line _ c rest' L5 Hc Hrest' Hlen)
      as (v & i & -> & [(-> & _)|(-> & _)]).
    + simpl. eauto.
    + pose proof (digits_value c Hc).
      destruct (Z.ltb_spec (decimal 0 c) 0); [lia|].
      destruct (Z.geb_spec (decimal 0 c) 60); [eauto | lia].
Qed.

Lemma ParseTime_rejects_sixty_witness :
  (exists idx' t', ParseTime "00:00:61.500" 0 Time_zero = Some (-1, idx', t')) /\
  (exists idx' t', ParseTime "60:00" 0 Time_zero = Some (-1, idx', t')) /\
  (exists idx' t', ParseTime "1:60:00" 0 Time_zero = Some (-1, idx', t')).
Proof.
  split; [|split].
  - apply (proj2 (proj2 (ParseTime_rejects_sixty "" "" "00" "00" ":61.500"
                           Time_zero eq_refl eq_refl eq_refl
                           ltac:(vm_compute; discriminate) eq_refl eq_refl))
                 ltac:(vm_compute; reflexivity) "61"%string ".500"%string);
      solve [reflexivity | vm_compute; discriminate].
  - apply (proj1 (proj2 (ParseTime_rejects_sixty "" "" "60" "00" ""
                           Time_zero eq_refl eq_refl eq_refl
                           ltac:(vm_compute; discriminate) eq_refl eq_refl)));
      solve [reflexivity | vm_compute; discriminate].
  - apply (proj1 (ParseTime_rejects_sixty "" "" "1" "60" ":00"
                    Time_zero eq_refl eq_refl eq_refl
                    ltac:(vm_compute; discriminate) eq_refl eq_refl));
      solve [reflexivity | vm_compute; discriminate].
Defined.

(** ** More on Parser::ParseTimingsLine and Parser::Parse *)

Lemma ParseNumber_negative (line : string) (idx : N) (v : Z) (idx' : N) :
  ParseNumber line idx = Some (v, idx') -> v < 0 -> v = -1.
Proof.
  intros H Hv. apply ParseNumber_range in H as [->|H]; [reflexivity | lia].
Qed.

Lemma ParseTime_millis_status (line : string) (idx : N) (t : Time)
  (e : Z) (idx' : N) (t' : Time) :
  ParseTime_millis line idx t = Some (e, idx', t') -> e = 0 \/ e = -1.
Proof.
  unfold ParseTime_millis.
  assert (Hfin : forall e0 i u,
    e0 = 0 \/ e0 = -1 ->
    (if negb (e0 =? 0) then Some (e0, i, u)
     else if negb (char_at line i =? kNUL)%char
             && negb (char_at line i =? kSPACE)%char
             && negb (char_at line i =? kTAB)%char
          then Some (-1, i, u) else Some (0, i, u)) = Some (e, idx', t') ->
    e = 0 \/ e = -1).
  { intros e0 i u [-> | ->]; simpl.
    - destruct (_ && _); intros H; injection H as <- _ _; auto.
    - intros H; injection H as <- _ _; auto. }
  destruct (negb (char_at line idx =? ".")%char); [apply Hfin; auto|].
  destruct (ParseNumber line (idx + 1)) as [[v i]|] eqn:HP; [|discriminate].
  destruct (Z.ltb_spec v 0) as [Hv|Hv].
  { apply Hfin. right. now apply (ParseNumber_negative _ _ _ _ HP). }
  destruct (v >=? 1000); [apply Hfin; auto|].
  destruct (v <? 10); [apply Hfin; auto|].
  destruct (v <? 100); apply Hfin; auto.
Qed.

Lemma ParseTime_status (line : string) (idx : N) (time : Time)
  (e : Z) (idx' : N) (t : Time) :
  ParseTime line idx time = Some (e, idx', t) -> e = 0 \/ e = -1.
Proof.
  unfold ParseTime.
  destruct (_ || _); [intros H; injection H as <- _ _; auto|].
  destruct (skip_blanks _ line idx) as [i0|]; [|discriminate].
  destruct (ParseNumber line i0) as [[v1 i1]|] eqn:P1; [|discriminate].
  destruct (Z.ltb_spec v1 0) as [Hv1|Hv1].
  { intros H; injection H as <- _ _. right.
    now apply (ParseNumber_negative _ _ _ _ P1). }
  destruct (char_at line i1 =? ":")%char; [|apply ParseTime_millis_status].
  destruct (ParseNumber line (i1 + 1)) as [[v2 i2]|] eqn:P2; [|discriminate].
  destruct (Z.ltb_spec v2 0) as [Hv2|Hv2].
  { intros H; injection H as <- _ _. right.
    now apply (ParseNumber_negative _ _ _ _ P2). }
  destruct (v2 >=? 60); [intros H; injection H as <- _ _; auto|].
  destruct (char_at line i2 =? ":")%char.
  - destruct (ParseNumber line (i2 + 1)) as [[v3 i3]|] eqn:P3; [|discriminate].
    destruct (Z.ltb_spec v3 0) as [Hv3|Hv3].
    { intros H; injection H as <- _ _. right.
      now apply (ParseNumber_negative _ _ _ _ P3). }
    destruct (v3 >=? 60); [intros H; injection H as <- _ _; auto|].
    apply ParseTime_millis_status.
  - destruct (v1 >=? 60); [intros H; injection H as <- _ _; auto|].
    apply ParseTime_millis_status.
Qed.

Lemma ParseSettings_loop_status (line : string) :
  forall fuel idx done e ss,
    ParseSettings_loop fuel line idx done = Some (e, ss) -> e = 0 \/ e = -1.
Proof.
  induction fuel as [|fuel IH]; intros idx done e ss H;
    cbn [ParseSettings_loop] in H; [discriminate|].
  destruct (settings_blanks _ line idx) as [[b i1]|]; [|discriminate].
  destruct b; [injection H as <- _; auto|].
  destruct (settings_name _ line i1 EmptyString) as [[[ok i2] nm]|];
    [|discriminate].
  destruct ok; cbn [negb] in H; [|injection H as <- _; auto].
  destruct (empty nm); [injection H as <- _; auto|].
  destruct (settings_value _ line (i2 + 1) EmptyString) as [[[ok i3] v]|];
    [|discriminate].
  destruct ok; cbn [negb] in H; [|injection H as <- _; auto].
  destruct (empty v); [injection H as <- _; auto|].
  now apply IH in H.
Qed.

Lemma ParseSettings_status (line : string) (idx : N) (old : list Setting)
  (e : Z) (ss : list Setting) :
  ParseSettings line idx old = Some (e, ss) -> e = 0 \/ e = -1.
Proof.
  unfold ParseSettings.
  destruct (_ || _); [intros H; injection H as <- _; auto|].
  apply ParseSettings_loop_status.
Qed.

(** What a call of [ParseTimingsLine] returns: 0 or -1, and on 0 two
    normalized times and well-formed settings. *)
Lemma ParseTimingsLine_result (line : string) (arrow_pos : N)
  (t1 t2 : Time) (s0 : list Setting) (e : Z) (st sp : Time)
  (ss : list Setting) :
  ParseTimingsLine line arrow_pos t1 t2 s0 = Some (e, st, sp, ss) ->
  (e = 0 \/ e = -1) /\
  (e = 0 -> normalized st /\ normalized sp /\
            Forall (fun s => valid_setting s = true) ss).
Proof.
  unfold ParseTimingsLine.
  destruct (_ || _).
  { intros H; injection H as <- _ _ _. split; [auto | discriminate]. }
  destruct (ParseTime (set_char line arrow_pos kNUL) 0 t1)
    as [[[e1 i1] st1]|] eqn:T1; [|discriminate].
  pose proof (ParseTime_status _ _ _ _ _ _ T1) as S1.
  destruct (Z.eqb_spec e1 0) as [->|Hne]; cbn [negb].
  2:{ intros H; injection H as <- _ _ _. split; [lia | intros; lia]. }
  destruct (timings_junk _ _ i1) as [[junk j]|]; [|discriminate].
  destruct junk.
  { intros H; injection H as <- _ _ _. split; [auto | discriminate]. }
  destruct (ParseTime (push_back (set_char line arrow_pos kNUL) kNUL)
              (arrow_pos + 3) t2) as [[[e2 i2] sp1]|] eqn:T2; [|discriminate].
  pose proof (ParseTime_status _ _ _ _ _ _ T2) as S2.
  destruct (Z.eqb_spec e2 0) as [->|Hne]; cbn [negb].
  2:{ intros H; injection H as <- _ _ _. split; [lia | intros; lia]. }
  destruct (ParseSettings _ i2 s0) as [[e3 ss1]|] eqn:T3; [|discriminate].
  pose proof (ParseSettings_status _ _ _ _ _ T3) as S3.
  destruct (Z.eqb_spec e3 0) as [->|Hne]; cbn [negb].
  2:{ intros H; injection H as <- _ _ _. split; [lia | intros; lia]. }
  intros H; injection H as <- <- <- <-. split; [auto|]. intros _.
  split; [exact (ParseTime_normalized _ _ _ _ _ T1)|].
  split; [exact (ParseTime_normalized _ _ _ _ _ T2)|].
  exact (ParseSettings_valid _ _ _ _ T3).
Qed.

(** X23: [ParseTimingsLine] returns 0 or -1 only, and a timings line
    it accepts gives a normalized start time, a normalized stop time
    and well-formed settings. *)
Theorem ParseTimingsLine_accepts (line : string) (arrow_pos : N)
  (t1 t2 : Time) (s0 : list Setting) (e : Z) (st sp : Time)
  (ss : list Setting) :
  ParseTimingsLine line arrow_pos t1 t2 s0 = Some (e, st, sp, ss) ->
  (e = 0 \/ e = -1) /\
  (e = 0 -> normalized st /\ normalized sp /\
            Forall (fun s => valid_setting s = true) ss).
Proof. exact (ParseTimingsLine_result line arrow_pos t1 t2 s0 e st sp ss). Qed.

Lemma ParseTimingsLine_accepts_witness :
  (0 = 0 \/ 0 = -1) /\
  (0 = 0 -> normalized (mkTime 0 0 1 500) /\ normalized (mkTime 0 0 2 0) /\
            Forall (fun s => valid_setting s = true)
                   [mkSetting "align" "start"]).
Proof.
  apply (ParseTimingsLine_accepts sample_timings 8 Time_zero Time_zero []).
  reflexivity.
Defined.

Lemma ParseLine_no_eol (p : Parser) (e : Z) (l : string) (p' : Parser) :
  ParseLine p = Some (e, l, p') -> no_eol l = true.
Proof.
  intros H. unfold ParseLine in H. now apply ParseLine_loop_no_eol in H.
Qed.

Lemma ParseLine_status (p : Parser) (e : Z) (l : string) (p' : Parser) :
  ParseLine p = Some (e, l, p') -> e <= 1.
Proof.
  intros H. destruct (Z.ltb_spec 0 e) as [Hpos|]; [|lia].
  apply ParseLine_eos_only in H as (-> & _); [lia | assumption].
Qed.

Lemma Parse_payload_lines (p : Parser) (pl : list string) (pf : Parser) :
  payload_lines p pl pf ->
  forall fuel acc,
    (List.length (pending p) < fuel)%nat ->
    Parse_payload fuel p acc = Some (0, acc ++ pl, pf).
Proof.
  induction 1 as [p e pf H He | p e line p1 pl pf H He Hne _ IH];
    intros fuel acc Hfuel; (destruct fuel as [|fuel]; [lia|]); simpl;
    rewrite H; destruct (Z.ltb_spec e 0); try lia.
  - simpl. now rewrite app_nil_r.
  - destruct line as [|c line]; [contradiction|]. simpl.
    rewrite IH.
    + now rewrite <- app_assoc.
    + assert (e = 0).
      { destruct (Z.eqb_spec e 0); [assumption|].
        apply ParseLine_eos_only in H as (_ & Hl & _); [discriminate | lia]. }
      subst e. apply ParseLine_progress in H. lia.
Qed.

Lemma Parse_with_lines (cue : Cue) (p : Parser) (ident line : string)
  (p2 : Parser) (st sp : Time) (ss : list Setting) (pl : list string)
  (pf : Parser) :
  cue_head p ident line p2 ->
  ParseTimingsLine line (string_find line "-->" 0)
                   (start_time cue) (stop_time cue) (settings cue)
  = Some (0, st, sp, ss) ->
  payload_lines p2 pl pf -> pl <> [] ->
  Parse (Some cue) p = Some (0, Some (mkCue ident st sp ss pl), pf).
Proof.
  intros Hhead HT HP Hne.
  assert (HPT : forall c off,
             ParseTimingsLine line off (start_time c) (stop_time c)
                              (settings c) = Some (0, st, sp, ss) ->
             Parse_timings c line off p2
             = Some (0, mkCue (identifier c) st sp ss pl, pf)).
  { intros c off E. unfold Parse_timings. rewrite E. cbn [negb Z.eqb].
    rewrite (Parse_payload_lines p2 pl pf HP _ [] (pending_length p2)).
    simpl. destruct pl; [contradiction | reflexivity]. }
  unfold Parse.
  destruct Hhead as [p line p1 Hfirst Harrow
                    | p ident p1 line p2 Hfirst Hnone Hline Harrow];
    rewrite (Parse_first_line_finds _ _ _ Hfirst _ (pending_length p));
    cbn [negb Z.eqb].
  - destruct (N.eqb_spec (string_find line "-->" 0) npos); [contradiction|].
    cbn [negb]. rewrite HPT; [reflexivity | exact HT].
  - rewrite Hnone. cbn [negb N.eqb Pos.eqb]. rewrite N.eqb_refl. cbn [negb].
    rewrite Hline. cbn [negb Z.eqb].
    destruct (N.eqb_spec (string_find line "-->" 0) npos); [contradiction|].
    rewrite HPT; [reflexivity | exact HT].
Qed.

(** X24: a cue block with payload is parsed to a cue.  After blank
    lines, an optional identifier line and a timings line that
    [ParseTimingsLine] accepts, the non-empty lines up to the first
    empty line or the end of the stream become the payload, in order,
    and [Parse] returns 0 with the identifier (empty when there is
    none), the two times and the settings. *)
Theorem Parse_cue_block (cue : Cue) (p : Parser) (ident line : string)
  (p2 : Parser) (st sp : Time) (ss : list Setting) (pl : list string)
  (pf : Parser) :
  cue_head p ident line p2 ->
  ParseTimingsLine line (string_find line "-->" 0)
                   (start_time cue) (stop_time cue) (settings cue)
  = Some (0, st, sp, ss) ->
  payload_lines p2 pl pf -> pl <> [] ->
  Parse (Some cue) p = Some (0, Some (mkCue ident st sp ss pl), pf).
Proof. exact (Parse_with_lines cue p ident line p2 st sp ss pl pf). Qed.

Lemma Parse_cue_block_witness :
  Parse (Some sample_cue)
        (Parser_new (reader_of
           ("cue-1" ++ String kLF (sample_timings ++ String kLF
              ("one" ++ String kCR ("two" ++ String kLF
                 (String kLF "next")))))))
  = Some (0,
          Some (mkCue "cue-1" (mkTime 0 0 1 500) (mkTime 0 0 2 0)
                      [mkSetting "align" "start"]
                      ["one"%string; "two"%string]),
          Parser_new (reader_of "next")).
Proof.
  apply (Parse_cue_block sample_cue _ "cue-1" sample_timings
           (Parser_new (reader_of
              ("one" ++ String kCR ("two" ++ String kLF
                 (String kLF "next")))))).
  - apply (head_identifier _ "cue-1"
             (Parser_new (reader_of
                (sample_timings ++ String kLF
                   ("one" ++ String kCR ("two" ++ String kLF
                      (String kLF "next"))))))).
    + apply first_here; [reflexivity | discriminate].
    + reflexivity.
    + reflexivity.
    + discriminate.
  - reflexivity.
  - apply (payload_more _ 0 "one"
             (mkParser (reader_of ("wo" ++ String kLF (String kLF "next")))
                       116));
      [reflexivity | lia | discriminate |].
    apply (payload_more _ 0 "two"
             (Parser_new (reader_of (String kLF "next"))));
      [reflexivity | lia | discriminate |].
    apply (payload_end _ 0); [reflexivity | lia].
  - discriminate.
Defined.

Lemma Parse_first_line_result :
  forall fuel p e l p',
    Parse_first_line fuel p = Some (e, l, p') ->
    e <= 1 /\ no_eol l = true /\ (e = 0 -> l <> EmptyString).
Proof.
  induction fuel as [|fuel IH]; intros p e l p' H; simpl in H;
    [discriminate|].
  destruct (ParseLine p) as [[[e0 l0] p0]|] eqn:E; [|discriminate].
  pose proof (ParseLine_status _ _ _ _ E) as Hs.
  pose proof (ParseLine_no_eol _ _ _ _ E) as Hn.
  destruct (Z.eqb_spec e0 0) as [->|Hne]; cbn [negb] in H.
  - destruct l0 as [|c l0]; simpl in H.
    + now apply IH in H.
    + injection H as <- <- _. split; [lia|]. split; [assumption|].
      discriminate.
  - injection H as <- <- _. split; [assumption|]. split; [assumption|].
    contradiction.
Qed.

Lemma Parse_payload_result :
  forall fuel p acc e pl p',
    Parse_payload fuel p acc = Some (e, pl, p') ->
    Forall payload_line acc ->
    e <= 0 /\ Forall payload_line pl.
Proof.
  induction fuel as [|fuel IH]; intros p acc e pl p' H Hacc; simpl in H;
    [discriminate|].
  destruct (ParseLine p) as [[[e0 l0] p0]|] eqn:E; [|discriminate].
  pose proof (ParseLine_no_eol _ _ _ _ E) as Hn.
  destruct (Z.ltb_spec e0 0).
  { injection H as <- <- _. split; [lia | assumption]. }
  destruct l0 as [|c l0]; simpl in H.
  { injection H as <- <- _. split; [lia | assumption]. }
  apply IH in H; [assumption|].
  apply Forall_app. split; [assumption|]. constructor; [|constructor].
  split; [discriminate | assumption].
Qed.

(** What the part of [Parse] after the timings line returns. *)
Lemma Parse_timings_result (cue : Cue) (line : string) (off : N)
  (p : Parser) (e : Z) (cue' : Cue) (p' : Parser) :
  Parse_timings cue line off p = Some (e, cue', p') ->
  e <= 0 /\ identifier cue' = identifier cue /\
  (e = 0 ->
   normalized (start_time cue') /\ normalized (stop_time cue') /\
   Forall (fun s => valid_setting s = true) (settings cue') /\
   payload cue' <> [] /\ Forall payload_line (payload cue')).
Proof.
  unfold Parse_timings.
  destruct (ParseTimingsLine line off _ _ _) as [[[[e1 st] sp] ss]|] eqn:T;
    [|discriminate].
  apply ParseTimingsLine_result in T as [S1 V1].
  destruct (Z.eqb_spec e1 0) as [->|Hne]; cbn [negb].
  2:{ intros R; injection R as <- <- _. split; [lia|].
      split; [reflexivity | intros; lia]. }
  destruct (Parse_payload _ p []) as [[[e2 pl] p2]|] eqn:P; [|discriminate].
  apply Parse_payload_result in P as [S2 V2]; [|constructor].
  cbn [identifier start_time stop_time settings].
  destruct (Z.ltb_spec e2 0).
  { intros R; injection R as <- <- _. split; [lia|].
    split; [reflexivity | intros; lia]. }
  destruct pl as [|l pl]; intros R; injection R as <- <- _.
  - split; [lia|]. split; [reflexivity | discriminate].
  - split; [lia|]. split; [reflexivity|]. intros _.
    destruct (V1 eq_refl) as (N1 & N2 & VS). simpl.
    split; [assumption|]. split; [assumption|]. split; [assumption|].
    split; [discriminate | assumption].
Qed.

Lemma Parse_result (cue : Cue) (p : Parser) (e : Z) (cue' : Cue)
  (p' : Parser) :
  Parse (Some cue) p = Some (e, Some cue', p') ->
  e <= 1 /\
  (0 < e ->
   start_time cue' = start_time cue /\ stop_time cue' = stop_time cue /\
   settings cue' = settings cue /\ payload cue' = payload cue) /\
  (e = 0 ->
   normalized (start_time cue') /\ normalized (stop_time cue') /\
   Forall (fun s => valid_setting s = true) (settings cue') /\
   payload cue' <> [] /\ Forall payload_line (payload cue') /\
   string_find (identifier cue') "-->" 0 = npos /\
   no_eol (identifier cue') = true).
Proof.
  unfold Parse.
  destruct (Parse_first_line _ p) as [[[e1 l1] p1]|] eqn:F; [|discriminate].
  apply Parse_first_line_result in F as (S1 & N1 & _).
  destruct (Z.eqb_spec e1 0) as [->|Hne]; cbn [negb].
  2:{ intros R; injection R as <- <- _. split; [assumption|].
      split; [intros; now repeat split | contradiction]. }
  destruct (N.eqb_spec (string_find l1 "-->" 0) npos) as [Hnone|Harrow];
    cbn [negb].
  - destruct (ParseLine p1) as [[[e2 l2] p2]|] eqn:E2; [|discriminate].
    pose proof (ParseLine_status _ _ _ _ E2) as S2.
    destruct (Z.eqb_spec e2 0) as [->|Hne2]; cbn [negb].
    2:{ intros R; injection R as <- <- _. split; [assumption|].
        split; [intros; now repeat split | contradiction]. }
    destruct (string_find l2 "-->" 0 =? npos)%N.
    { intros R; injection R as <- <- _. split; [lia|].
      split; [intros; lia | discriminate]. }
    destruct (Parse_timings _ l2 _ p2) as [[[e3 c3] p3]|] eqn:T;
      [|discriminate].
    apply Parse_timings_result in T as (S3 & I3 & V3).
    intros R; injection R as <- <- _. split; [lia|].
    split; [intros; lia|]. intros E0.
    destruct (V3 E0) as (A & B & C & D & E).
    repeat (split; [assumption|]). rewrite I3. simpl. now split.
  - destruct (Parse_timings _ l1 _ p1) as [[[e3 c3] p3]|] eqn:T;
      [|discriminate].
    apply Parse_timings_result in T as (S3 & I3 & V3).
    intros R; injection R as <- <- _. split; [lia|].
    split; [intros; lia|]. intros E0.
    destruct (V3 E0) as (A & B & C & D & E).
    repeat (split; [assumption|]). rewrite I3. simpl. now split.
Qed.

(** X25: a cue that [Parse] returns with status 0 is well formed: the
    two times are normalized, every setting has a non-empty name and
    value without colon and blank, the payload is not empty and holds
    only non-empty lines without line terminator, and the identifier
    holds neither the arrow nor a line terminator. *)
Theorem Parse_success_well_formed (cue : Cue) (p : Parser) (cue' : Cue)
  (p' : Parser) :
  Parse (Some cue) p = Some (0, Some cue', p') ->
  normalized (start_time cue') /\ normalized (stop_time cue') /\
  Forall (fun s => valid_setting s = true) (settings cue') /\
  payload cue' <> [] /\ Forall payload_line (payload cue') /\
  string_find (identifier cue') "-->" 0 = npos /\
  no_eol (identifier cue') = true.
Proof.
  intros H. apply Parse_result in H as (_ & _ & H). now apply H.
Qed.

Lemma Parse_success_well_formed_witness :
  let cue' := mkCue "cue-1" (mkTime 0 0 1 500) (mkTime 0 0 2 0)
                    [mkSetting "align" "start"] ["one"%string] in
  normalized (start_time cue') /\ normalized (stop_time cue') /\
  Forall (fun s => valid_setting s = true) (settings cue') /\
  payload cue' <> [] /\ Forall payload_line (payload cue') /\
  string_find (identifier cue') "-->" 0 = npos /\
  no_eol (identifier cue') = true.
Proof.
  cbv zeta.
  apply (Parse_success_well_formed sample_cue
           (Parser_new (reader_of
              ("cue-1" ++ String kLF (sample_timings ++ String kLF "one"))))
           _ (Parser_new [])).
  reflexivity.
Defined.

(** X26: the statuses of [Parse].  The status is never above 1;
    violations of the grammar give a negative status, and when the
    end-of-stream status 1 is returned the times, the settings and the
    payload of the cue record are as they were. *)
Theorem Parse_status (cue : Cue) (p : Parser) (e : Z) (cue' : Cue)
  (p' : Parser) :
  Parse (Some cue) p = Some (e, Some cue', p') ->
  e <= 1 /\
  (0 < e ->
   start_time cue' = start_time cue /\ stop_time cue' = stop_time cue /\
   settings cue' = settings cue /\ payload cue' = payload cue).
Proof.
  intros H. apply Parse_result in H as (H1 & H2 & _). now split.
Qed.

Lemma Parse_status_witness :
  1 <= 1 /\
  (0 < 1 ->
   start_time (with_identifier sample_cue "last") = start_time sample_cue /\
   stop_time (with_identifier sample_cue "last") = stop_time sample_cue /\
   settings (with_identifier sample_cue "last") = settings sample_cue /\
   payload (with_identifier sample_cue "last") = payload sample_cue).
Proof.
  apply (Parse_status sample_cue (Parser_new (reader_of "last")) 1
           (with_identifier sample_cue "last") (Parser_new [])).
  reflexivity.
Defined.

(** X27: a block without timings line.  When the first non-blank line
    holds no arrow it becomes the identifier of the cue record; if the
    next line holds no arrow either [Parse] returns -1, and if the
    stream ends there [Parse] returns the end-of-stream status 1.  In
    both cases the identifier of the record has been overwritten. *)
Theorem Parse_without_timings (cue : Cue) (p : Parser) (ident : string)
  (p1 : Parser) :
  first_line p ident p1 ->
  string_find ident "-->" 0 = npos ->
  (forall line p2,
      ParseLine p1 = Some (0, line, p2) ->
      string_find line "-->" 0 = npos ->
      Parse (Some cue) p = Some (-1, Some (with_identifier cue ident), p2)) /\
  (at_eos (pending p1) = true ->
   exists p2,
     Parse (Some cue) p = Some (1, Some (with_identifier cue ident), p2)).
Proof.
  intros Hfirst Hnone. unfold Parse.
  rewrite (Parse_first_line_finds _ _ _ Hfirst _ (pending_length p)).
  cbn [negb Z.eqb]. rewrite Hnone. rewrite N.eqb_refl. cbn [negb].
  split.
  - intros line p2 HL Hno. rewrite HL. cbn [negb Z.eqb].
    rewrite Hno, N.eqb_refl. reflexivity.
  - intros Heos. destruct (ParseLine_at_eos p1 Heos) as (p2 & -> & _).
    cbn [negb Z.eqb]. now exists p2.
Qed.

Lemma Parse_without_timings_witness :
  Parse (Some sample_cue)
        (Parser_new (reader_of ("title" ++ String kLF
                                  ("00:01 -> 00:02" ++ String kLF "x"))))
  = Some (-1, Some (with_identifier sample_cue "title"),
          Parser_new (reader_of "x")) /\
  exists p2,
    Parse (Some sample_cue) (Parser_new (reader_of ("title" ++ String kLF "")))
    = Some (1, Some (with_identifier sample_cue "title"), p2).
Proof.
  split.
  - assert (F : first_line
                  (Parser_new (reader_of ("title" ++ String kLF
                                 ("00:01 -> 00:02" ++ String kLF "x"))))
                  "title"
                  (Parser_new (reader_of
                                 ("00:01 -> 00:02" ++ String kLF "x"))))
      by (apply first_here; [reflexivity | discriminate]).
    apply (proj1 (Parse_without_timings sample_cue _ "title" _ F eq_refl)
                 "00:01 -> 00:02"%string);
      reflexivity.
  - assert (F : first_line
                  (Parser_new (reader_of ("title" ++ String kLF "")))
                  "title" (Parser_new []))
      by (apply first_here; [reflexivity | discriminate]).
    apply (proj2 (Parse_without_timings sample_cue _ "title" _ F eq_refl)).
    reflexivity.
Defined.

(** X28: an error of the reader in the first line that [Parse] reads is
    returned as it is, and the cue record is not touched. *)
Theorem Parse_reader_error (cue : Cue) (p : Parser) (text : string) (k : positive)
  (rest : list outcome) :
  pending p = map Got (list_ascii_of_string text) ++ Failure k :: rest ->
  no_eol text = true ->
  exists p', Parse (Some cue) p = Some (Z.neg k, Some cue, p') /\
             pending p' = rest.
Proof.
  intros Hp Hne.
  destruct (ParseLine_failure p text k rest Hp Hne) as (p' & E & Hp').
  exists p'. split; [|assumption]. unfold Parse, read_fuel.
  cbn [Parse_first_line]. rewrite E. reflexivity.
Qed.

Lemma Parse_reader_error_witness :
  exists p',
    Parse (Some sample_cue)
          (Parser_new (map Got (list_ascii_of_string "00:0")
                       ++ Failure 3 :: reader_of "1"))
    = Some (-3, Some sample_cue, p') /\ pending p' = reader_of "1".
Proof.
  apply (Parse_reader_error sample_cue _ "00:0" 3%positive (reader_of "1"));
    reflexivity.
Defined.

(** *** A timings line from its text *)




Lemma push_back_app_r (a b : string) (c : ascii) :
  push_back (a ++ b) c = (a ++ push_back b c)%string.
Proof. unfold push_back. apply string_app_assoc. Qed.















(** *** A cue block from its text *)





